(** * GitSage: the command-execution, validation and parsing core

    A shallow embedding of the Python sources under [app/core] and
    [app/services] (plus the remote schema validator of [app/api/remotes.py]),
    followed by the properties established about them.

    Python [str] values are modelled as [string]; every character is a code
    point below 256, so the Unicode predicates used by the sources
    ([str.isspace], [\s], [\d], the line boundaries of [str.splitlines]) are
    given by their restriction to that range. *)

From Stdlib Require Import ZArith List String Ascii Bool Lia DecimalString
  DecimalPos.
Import ListNotations.
Open Scope string_scope.

(** ** Python string primitives *)

Module PyStr.

Definition code (c : ascii) : N := N_of_ascii c.

Definition chr (n : N) : string := String (ascii_of_N n) EmptyString.

Definition TAB : string := chr 9.
Definition NL  : string := chr 10.
Definition CR  : string := chr 13.
Definition NUL : string := chr 0.
Definition US  : string := chr 31.
Definition BACKSLASH : string := chr 92.

(** [str.isspace] on one character: TAB, LF, VT, FF, CR, FS, GS, RS, US,
    space, NEL (0x85) and NBSP (0xa0). *)
Definition isspace (c : ascii) : bool :=
  let n := code c in
  (((9 <=? n) && (n <=? 13)) || ((28 <=? n) && (n <=? 32))
   || (n =? 133) || (n =? 160))%N.

(** Decimal digits ([\d], and the digits [int()] accepts). *)
Definition isdigit (c : ascii) : bool :=
  let n := code c in ((48 <=? n) && (n <=? 57))%N.

(** The characters at which [str.splitlines] breaks a line: LF, VT, FF, CR,
    FS, GS, RS and NEL (CR LF counts as one break). *)
Definition islinebreak (c : ascii) : bool :=
  let n := code c in
  (((10 <=? n) && (n <=? 13)) || ((28 <=? n) && (n <=? 30)) || (n =? 133))%N.

Definition is_empty (s : string) : bool :=
  match s with EmptyString => true | String _ _ => false end.

(** [bool(s)] for a string: non-empty. *)
Definition truthy (s : string) : bool := negb (is_empty s).

(** [s.startswith(p)] *)
Fixpoint startswith (p s : string) : bool :=
  match p with
  | EmptyString => true
  | String a p' =>
      match s with
      | EmptyString => false
      | String b s' => Ascii.eqb a b && startswith p' s'
      end
  end.

(** [sub in s] *)
Fixpoint contains (sub s : string) : bool :=
  startswith sub s ||
  match s with
  | EmptyString => false
  | String _ s' => contains sub s'
  end.

(** [s[n:]] for [0 <= n] *)
Fixpoint drop (n : nat) (s : string) : string :=
  match n, s with
  | O, _ => s
  | S n', String _ s' => drop n' s'
  | S _, EmptyString => EmptyString
  end.

(** [s[:n]] for [0 <= n] *)
Fixpoint take (n : nat) (s : string) : string :=
  match n, s with
  | S n', String c s' => String c (take n' s')
  | _, _ => EmptyString
  end.

(** [s[a:b]] for [0 <= a], [0 <= b]; empty when [b <= a]. *)
Definition slice (a b : nat) (s : string) : string :=
  take (b - a) (drop a s).

(** [s.index(sub)]: position of the first occurrence, [None] standing for
    the [ValueError] raised when there is none. *)
Fixpoint index (sub s : string) : option nat :=
  if startswith sub s then Some O
  else match s with
       | EmptyString => None
       | String _ s' => option_map S (index sub s')
       end.

Fixpoint lstrip (s : string) : string :=
  match s with
  | EmptyString => EmptyString
  | String c s' => if isspace c then lstrip s' else s
  end.

Fixpoint rstrip (s : string) : string :=
  match s with
  | EmptyString => EmptyString
  | String c s' =>
      match rstrip s' with
      | EmptyString => if isspace c then EmptyString else String c EmptyString
      | r => String c r
      end
  end.

(** [s.strip()] *)
Definition strip (s : string) : string := rstrip (lstrip s).

(** Every character of [s] satisfies [p]. *)
Fixpoint all (p : ascii -> bool) (s : string) : bool :=
  match s with
  | EmptyString => true
  | String c s' => p c && all p s'
  end.

(** Characters of [s] kept when they satisfy [p] (the effect of
    [re.sub("[class]", "", s)] with [p] the complement of the class). *)
Fixpoint keep (p : ascii -> bool) (s : string) : string :=
  match s with
  | EmptyString => EmptyString
  | String c s' => if p c then String c (keep p s') else keep p s'
  end.

(** [sep.join(parts)] *)
Fixpoint join (sep : string) (parts : list string) : string :=
  match parts with
  | [] => EmptyString
  | [p] => p
  | p :: rest => p ++ sep ++ join sep rest
  end.

Definition snoc (s : string) (c : ascii) : string := s ++ String c EmptyString.

(** [s.split(sep)] for a non-empty separator: [cur] is the piece being
    read, [skip] counts the separator characters still to be passed over.
    [maxsplit] bounds the number of cuts ([None]: no bound). *)
Fixpoint split_go (sep : string) (maxsplit : option nat) (skip : nat)
         (cur : string) (s : string) : list string :=
  match s with
  | EmptyString => [cur]
  | String c s' =>
      match skip with
      | S k => split_go sep maxsplit k cur s'
      | O =>
          let cut := match maxsplit with Some O => false | _ => true end in
          if cut && startswith sep s then
            cur :: split_go sep (option_map Nat.pred maxsplit)
                            (String.length sep - 1) EmptyString s'
          else split_go sep maxsplit O (snoc cur c) s'
      end
  end.

Definition split (sep : string) (s : string) : list string :=
  split_go sep None O EmptyString s.

Definition split_max (sep : string) (maxsplit : nat) (s : string) : list string :=
  split_go sep (Some maxsplit) O EmptyString s.

(** [s.split()]: maximal runs of non-whitespace characters. *)
Fixpoint split_ws_go (cur : string) (s : string) : list string :=
  match s with
  | EmptyString => if is_empty cur then [] else [cur]
  | String c s' =>
      if isspace c then
        (if is_empty cur then split_ws_go EmptyString s'
         else cur :: split_ws_go EmptyString s')
      else split_ws_go (snoc cur c) s'
  end.

Definition split_ws (s : string) : list string := split_ws_go EmptyString s.

(** [s.splitlines()]: no entry for the text after a final line break. *)
Fixpoint splitlines_go (cur : string) (s : string) : list string :=
  match s with
  | EmptyString => if is_empty cur then [] else [cur]
  | String c s' =>
      if Ascii.eqb c "013" then
        match s' with
        | String "010" s'' => cur :: splitlines_go EmptyString s''
        | _ => cur :: splitlines_go EmptyString s'
        end
      else if islinebreak c then cur :: splitlines_go EmptyString s'
      else splitlines_go (snoc cur c) s'
  end.

Definition splitlines (s : string) : list string := splitlines_go EmptyString s.

(** [parts[-1]] of a non-empty list; the default is never reached by the
    callers below, whose lists come from [split]. *)
Definition last_item (parts : list string) : string := List.last parts EmptyString.

(** [str(n)] for an integer *)
Definition str_of_int (n : Z) : string := NilZero.string_of_int (Z.to_int n).

(** [int(s)] for a string without surrounding whitespace: an optional sign,
    then decimal digits, single underscores allowed between digits, at most
    [int_max_str_digits] digits.  [None] stands for the [ValueError]. *)
Fixpoint digits_go (acc : Z) (prev_digit : bool) (s : string) : option Z :=
  match s with
  | EmptyString => if prev_digit then Some acc else None
  | String c s' =>
      if isdigit c then
        digits_go (10 * acc + Z.of_N (code c - 48)) true s'
      else if Ascii.eqb c "_" && prev_digit then digits_go acc false s'
      else None
  end.

(** [sys.get_int_max_str_digits()], which the code leaves at its default. *)
Definition int_max_str_digits : nat := 4300.

(** The run of digits and single underscores that [int()] scans before it
    converts: the number of digits in the run, or [None] when an underscore
    is doubled or ends the run. *)
Fixpoint scan_run (digits : nat) (prev_underscore : bool) (s : string) : option nat :=
  match s with
  | String c s' =>
      if isdigit c then scan_run (S digits) false s'
      else if Ascii.eqb c "_" then
        if prev_underscore then None else scan_run digits true s'
      else if prev_underscore then None else Some digits
  | EmptyString => if prev_underscore then None else Some digits
  end.

(** The text after the sign. *)
Definition unsigned (s : string) : string :=
  match s with
  | String "-" s' => s'
  | String "+" s' => s'
  | _ => s
  end.

(** [Some d] when [int(s)] refuses [s] because its run of [d] digits is
    longer than the limit, whatever follows the run. *)
Definition over_digit_limit (s : string) : option nat :=
  let body := unsigned s in
  if startswith "_" body then None
  else
    match scan_run 0 false body with
    | Some d => if (int_max_str_digits <? d)%nat then Some d else None
    | None => None
    end.

Definition int (s : string) : option Z :=
  match over_digit_limit s with
  | Some _ => None
  | None =>
      match s with
      | String "-" s' => option_map Z.opp (digits_go 0 false s')
      | String "+" s' => digits_go 0 false s'
      | _ => digits_go 0 false s
      end
  end.

End PyStr.

Import PyStr.

(** [repr(s)] for a string, as CPython prints it: single quotes unless the
    text holds a single quote and no double quote; backslash, the chosen quote,
    TAB, LF and CR escaped; other non-printable characters as [\xNN]. *)
Module PyRepr.

Definition hex_digit (n : N) : ascii :=
  if (n <? 10)%N then ascii_of_N (48 + n) else ascii_of_N (87 + n).

Definition hex_escape (c : ascii) : string :=
  let n := code c in
  String "\" (String "x" (String (hex_digit (n / 16)) (String (hex_digit (n mod 16)) ""))).

Definition isprintable (c : ascii) : bool :=
  let n := code c in
  (((32 <=? n) && (n <? 127)) || ((161 <=? n) && negb (n =? 173)))%N.

Definition repr_char (quote : ascii) (c : ascii) : string :=
  if Ascii.eqb c quote || Ascii.eqb c "\" then String "\" (String c "")
  else if Ascii.eqb c "009" then "\t"
  else if Ascii.eqb c "010" then "\n"
  else if Ascii.eqb c "013" then "\r"
  else if isprintable c then String c ""
  else hex_escape c.

Fixpoint repr_body (quote : ascii) (s : string) : string :=
  match s with
  | EmptyString => EmptyString
  | String c s' => repr_char quote c ++ repr_body quote s'
  end.

Definition repr (s : string) : string :=
  let quote : ascii :=
    if contains "'" s && negb (contains (String "034" "") s)
    then "034"%char else "'"%char in
  String quote (snoc (repr_body quote s) quote).

End PyRepr.

Import PyRepr.

(** ** Regular expressions, as far as the sources use them

    A backtracking matcher in continuation-passing style: alternatives are
    tried in the order Python's [re] tries them (greedy first), and the first
    success is returned.  [start] tells whether the position is the start of
    the string. *)
Module Re.

Inductive cls := Space | NonSpace | Digit.

Definition in_cls (k : cls) (c : ascii) : bool :=
  match k with
  | Space => isspace c
  | NonSpace => negb (isspace c)
  | Digit => isdigit c
  end.

Inductive re :=
| Eps
| Bol                     (* ^ *)
| Eol                     (* $ *)
| Chr (c : ascii)
| Many1 (k : cls)         (* \s+  \S+  \d+ *)
| Seq (r1 r2 : re)
| Opt (r : re).           (* (r)? *)

Definition orelse {A} (x y : option A) : option A :=
  match x with Some _ => x | None => y end.

Fixpoint run {A} (r : re) (start : bool) (s : string)
         (k : bool -> string -> option A) {struct r} : option A :=
  match r with
  | Eps => k start s
  | Bol => if start then k start s else None
  | Eol => if is_empty s || String.eqb s NL then k start s else None
  | Chr c =>
      match s with
      | String c' s' => if Ascii.eqb c c' then k false s' else None
      | EmptyString => None
      end
  | Many1 cl =>
      (fix go (s : string) : option A :=
         match s with
         | String c s' =>
             if in_cls cl c then orelse (go s') (k false s') else None
         | EmptyString => None
         end) s
  | Seq r1 r2 => run r1 start s (fun start' s' => run r2 start' s' k)
  | Opt r' => orelse (run r' start s k) (k start s)
  end.

(** [re.fullmatch(r, s) is not None] *)
Definition fullmatch (r : re) (s : string) : bool :=
  match run r true s (fun _ rest => if is_empty rest then Some tt else None) with
  | Some _ => true
  | None => false
  end.

(** [re.match(r, s)]: the text left after the match, when there is one. *)
Definition match_rest (r : re) (s : string) : option string :=
  run r true s (fun _ rest => Some rest).

(** [re.sub(r, "", s)] for a pattern that starts with [^] (no MULTILINE
    flag) and matches no empty text: only a match at position 0 is removed. *)
Definition sub_anchored (r : re) (s : string) : string :=
  match match_rest r s with
  | Some rest => rest
  | None => s
  end.

Fixpoint lit (w : string) : re :=
  match w with
  | EmptyString => Eps
  | String c w' => Seq (Chr c) (lit w')
  end.

Fixpoint seqs (rs : list re) : re :=
  match rs with
  | [] => Eps
  | r :: rs' => Seq r (seqs rs')
  end.

End Re.

(** ** app/core/exceptions.py *)

Inductive exn_class :=
| K_GitSageError | K_GitCommandError | K_RepoNotFoundError | K_AIServiceError
| K_AINotConfiguredError | K_InvalidPathError | K_ValueError
| K_UnicodeDecodeError | K_OSError | K_RuntimeError.

(** Class attribute [message] (inherited from [GitSageError] when a subclass
    does not set its own). *)
Definition class_message (k : exn_class) : string :=
  match k with
  | K_RepoNotFoundError => "Not a valid git repository."
  | K_AIServiceError => "AI service unavailable. Check your GEMINI_API_KEY."
  | K_AINotConfiguredError =>
      "Gemini API key not configured. Add GEMINI_API_KEY to your .env file."
  | K_InvalidPathError => "Invalid repository path."
  | _ => "An unexpected error occurred."
  end.

(** Class attribute [status_code]; [ValueError], [UnicodeDecodeError],
    [OSError] and [RuntimeError] are builtins and have none. *)
Definition class_status_code (k : exn_class) : option Z :=
  match k with
  | K_GitSageError => Some 500%Z
  | K_GitCommandError => Some 400%Z
  | K_RepoNotFoundError => Some 404%Z
  | K_AIServiceError => Some 503%Z
  | K_AINotConfiguredError => Some 503%Z
  | K_InvalidPathError => Some 400%Z
  | K_ValueError | K_UnicodeDecodeError | K_OSError | K_RuntimeError => None
  end.

(** [issubclass(k, ValueError)]: [UnicodeDecodeError] is a subclass of
    [ValueError], so [except ValueError] catches it. *)
Definition is_value_error (k : exn_class) : bool :=
  match k with
  | K_ValueError | K_UnicodeDecodeError => true
  | _ => false
  end.

(** A raised exception: its class, [self.message] and, for
    [GitCommandError], [self.stderr]. *)
Record exn := mk_exn {
  exn_class_of : exn_class;
  exn_message : string;
  exn_stderr : option string
}.

(** [GitSageError.__init__]: [self.message = message or self.__class__.message] *)
Definition init_message (k : exn_class) (message : option string) : string :=
  match message with
  | Some m => if truthy m then m else class_message k
  | None => class_message k
  end.

Definition GitCommandError (message : string) (stderr : string) : exn :=
  mk_exn K_GitCommandError (init_message K_GitCommandError (Some message)) (Some stderr).

Definition RepoNotFoundError (message : option string) : exn :=
  mk_exn K_RepoNotFoundError (init_message K_RepoNotFoundError message) None.

Definition InvalidPathError (message : option string) : exn :=
  mk_exn K_InvalidPathError (init_message K_InvalidPathError message) None.

Definition AIServiceError (message : option string) : exn :=
  mk_exn K_AIServiceError (init_message K_AIServiceError message) None.

Definition AINotConfiguredError (message : option string) : exn :=
  mk_exn K_AINotConfiguredError (init_message K_AINotConfiguredError message) None.

Definition ValueError (message : string) : exn :=
  mk_exn K_ValueError message None.

(** Builtin exceptions that [pathlib] and [subprocess] raise and that the
    code catches nowhere by their own name: they leave the function that made
    the call as they are. *)
Inductive builtin_exn :=
| B_ValueError                  (* a NUL in a path or in an argument *)
| B_UnicodeDecodeError (encoding detail : string)
                                (* output that the encoding cannot decode *)
| B_OSError (errno : Z) (detail : string)
                                (* a name too long, no permission, ... *)
| B_RuntimeError (detail : string).
                                (* a symlink loop found by [resolve()] *)

(** The exception object, with the text [str()] gives for it. *)
Definition builtin (b : builtin_exn) : exn :=
  match b with
  | B_ValueError => ValueError "embedded null byte"
  | B_UnicodeDecodeError encoding detail =>
      mk_exn K_UnicodeDecodeError
             ("'" ++ encoding ++ "' codec can't decode " ++ detail) None
  | B_OSError errno detail =>
      mk_exn K_OSError ("[Errno " ++ str_of_int errno ++ "] " ++ detail) None
  | B_RuntimeError detail =>
      mk_exn K_RuntimeError ("Symlink loop from " ++ detail) None
  end.

Inductive result (A : Type) :=
| Ok (a : A)
| Raise (e : exn).
Arguments Ok {A} a.
Arguments Raise {A} e.

Definition rbind {A B} (x : result A) (f : A -> result B) : result B :=
  match x with
  | Ok a => f a
  | Raise e => Raise e
  end.

(** What a call into the library gives: a value, or a builtin exception. *)
Inductive answer (A : Type) :=
| Returns (a : A)
| Fails (b : builtin_exn).
Arguments Returns {A} a.
Arguments Fails {A} b.

Definition of_answer {A} (x : answer A) : result A :=
  match x with
  | Returns a => Ok a
  | Fails b => Raise (builtin b)
  end.

(** ** The environment of one request

    What the code reads from outside itself: the file system (through
    [pathlib]), [os.environ], [subprocess.run], the Gemini HTTP call and the
    settings.  Paths are carried as their [str()] form.  A call into
    [pathlib] or [subprocess] may raise instead of returning: [resolve()]
    raises [ValueError] for a path with a NUL, [exists()] raises [OSError]
    for a name that is too long, [subprocess.run] raises [ValueError] for an
    argument with a NUL and [UnicodeDecodeError] for output that is not
    UTF-8. *)

Inductive proc_outcome :=
| TimeoutExpired                                   (* subprocess.TimeoutExpired *)
| FileNotFound                                     (* FileNotFoundError *)
| Failed (b : builtin_exn)                         (* any other exception of the call *)
| Completed (returncode : Z) (stdout stderr : string).

Definition argv := list string.

Record World := mk_World {
  fs_resolve : string -> answer string;            (* Path(raw).resolve() *)
  fs_exists : string -> answer bool;               (* Path.exists() *)
  fs_join : string -> string -> string;            (* path / name *)
  environ_get : string -> option string;           (* os.environ.get(name) *)
  (** [subprocess.run(cmd, capture_output=True, text=True, timeout=t, env=e)],
      which may depend on the processes run before it *)
  subprocess_run : list argv -> argv -> list (string * string) -> Z -> proc_outcome;
  call_gemini : string -> string -> result string; (* _call_gemini(prompt, system_prompt) *)
  DEFAULT_REPO_PATH : string                       (* settings.DEFAULT_REPO_PATH *)
}.

(** Computations that may spawn processes and may raise: the state is the
    list of argument vectors handed to [subprocess.run] so far. *)
Definition M (A : Type) : Type := list argv -> result A * list argv.

Definition ret {A} (a : A) : M A := fun tr => (Ok a, tr).

Definition raise {A} (e : exn) : M A := fun tr => (Raise e, tr).

Definition bind {A B} (m : M A) (f : A -> M B) : M B :=
  fun tr =>
    match m tr with
    | (Ok a, tr') => f a tr'
    | (Raise e, tr') => (Raise e, tr')
    end.

Definition lift {A} (r : result A) : M A := fun tr => (r, tr).

Definition spawn (w : World) (cmd : argv) (env : list (string * string))
           (timeout : Z) : M proc_outcome :=
  fun tr => (Ok (subprocess_run w tr cmd env timeout), (tr ++ [cmd])%list).

Notation "x <- m ;; k" := (bind m (fun x => k))
  (at level 61, m at next level, right associativity).

(** Result and final trace of a computation started with nothing spawned. *)
Definition exec {A} (m : M A) : result A * list argv := m [].

(** ** app/core/git_runner.py *)

Definition _GIT_TIMEOUT : Z := 30.

Definition dict_get_default (v : option string) (default : string) : string :=
  match v with Some x => x | None => default end.

(** [repo_path or default] *)
Definition or_default (v : option string) (default : string) : string :=
  match v with
  | Some p => if truthy p then p else default
  | None => default
  end.

Definition _resolve_repo (w : World) (repo_path : option string) : result string :=
  let raw := or_default repo_path (DEFAULT_REPO_PATH w) in
  rbind (of_answer (fs_resolve w raw)) (fun resolved =>
  rbind (of_answer (fs_exists w resolved)) (fun resolved_exists =>
  if negb resolved_exists then
    Raise (InvalidPathError (Some ("Path does not exist: " ++ resolved)))
  else
    let git_dir := fs_join w resolved ".git" in
    rbind (of_answer (fs_exists w git_dir)) (fun git_dir_exists =>
    if negb git_dir_exists then Raise (RepoNotFoundError None)
    else Ok resolved))).

Definition git_env (w : World) : list (string * string) :=
  [ ("PATH", dict_get_default (environ_get w "PATH") "/usr/bin:/bin");
    ("HOME", dict_get_default (environ_get w "HOME") "/root");
    ("GIT_TERMINAL_PROMPT", "0") ].

Definition run_git (w : World) (args : list string) (repo_path : option string)
  : M string :=
  cwd <- lift (_resolve_repo w repo_path) ;;
  let cmd := (["git"; "-C"; cwd] ++ args)%list in
  outcome <- spawn w cmd (git_env w) _GIT_TIMEOUT ;;
  match outcome with
  | TimeoutExpired => raise (GitCommandError "Git command timed out." "")
  | FileNotFound =>
      raise (GitCommandError "git executable not found. Is git installed?" "")
  | Failed b => raise (builtin b)
  | Completed returncode stdout stderr =>
      if negb (returncode =? 0)%Z then
        raise (GitCommandError ("Git command failed: " ++ join " " (firstn 2 args))
                               (strip stderr))
      else ret stdout
  end.

Definition get_repo_root (w : World) (repo_path : option string) : M string :=
  out <- run_git w ["rev-parse"; "--show-toplevel"] repo_path ;;
  ret (strip out).

(** ** app/services/commit_service.py *)

Record Commit := mk_Commit {
  sha : string; short_sha : string; author : string;
  email : string; date : string; message : string
}.

(** The class [[\x00-\x08\x0b-\x1f\x7f]] *)
Definition is_stripped_control (c : ascii) : bool :=
  let n := code c in
  ((n <=? 8) || ((11 <=? n) && (n <=? 31)) || (n =? 127))%N.

Definition _sanitize_commit_message (message : string) : string :=
  let cleaned := keep (fun c => negb (is_stripped_control c)) message in
  strip cleaned.

Definition forbidden : list string :=
  [" "; TAB; NL; NUL; BACKSLASH; ".."; "~"; "^"; ":"; "?"; "*"; "["].

Definition _is_valid_ref_name (name : string) : bool :=
  if is_empty name || (250 <? String.length name)%nat then false
  else negb (existsb (fun c => contains c name) forbidden)
       && negb (startswith "-" name).

Definition create_commit (w : World) (message : string) (repo_path : option string)
  : M string :=
  let clean_message := _sanitize_commit_message message in
  if is_empty clean_message then
    raise (ValueError "Commit message cannot be empty.")
  else if (4096 <? String.length clean_message)%nat then
    raise (ValueError "Commit message exceeds maximum length of 4096 characters.")
  else
    _ <- run_git w ["commit"; "-m"; clean_message] repo_path ;;
    out <- run_git w ["rev-parse"; "--short"; "HEAD"] repo_path ;;
    ret (strip out).

(** [min(max(1, limit), 200)] *)
Definition clamp_limit (limit : Z) : Z := Z.min (Z.max 1 limit) 200.

Definition log_format : string :=
  join US ["%H"; "%h"; "%an"; "%ae"; "%ci"; "%s"].

Definition parse_log_line (line : string) : list Commit :=
  match split US line with
  | [p0; p1; p2; p3; p4; p5] => [mk_Commit p0 p1 p2 p3 p4 p5]
  | _ => []
  end.

Definition get_log (w : World) (limit : Z) (branch : option string)
           (repo_path : option string) : M (list Commit) :=
  let limit := clamp_limit limit in
  let args := ["log"; "--format=" ++ log_format; "-" ++ str_of_int limit] in
  args <- match branch with
          | Some b =>
              if truthy b then
                if negb (_is_valid_ref_name b) then
                  raise (ValueError ("Invalid branch name: " ++ repr b))
                else ret (args ++ [b])%list
              else ret args
          | None => ret args
          end ;;
  raw <- run_git w args repo_path ;;
  ret (flat_map parse_log_line (splitlines raw)).

(** ** app/services/status_service.py *)

Record FileStatus := mk_FileStatus {
  path : string;
  index_status : string;     (* X in XY format (staged) *)
  work_status : string       (* Y in XY format (unstaged) *)
}.

(** [x in (a, b, ...)] for strings *)
Definition in_tuple (x : string) (t : list string) : bool :=
  existsb (String.eqb x) t.

Definition is_staged (f : FileStatus) : bool :=
  negb (in_tuple (index_status f) ["?"; " "; "!"]).

Definition is_unstaged (f : FileStatus) : bool :=
  negb (in_tuple (work_status f) [" "; "!"]).

Record RepoStatus := mk_RepoStatus {
  branch : string;
  ahead : Z;
  behind : Z;
  staged : list FileStatus;
  unstaged : list FileStatus;
  untracked : list FileStatus
}.

(** [line[i]], used only where [i < len(line)] has been checked. *)
Definition item (i : nat) (line : string) : string := take 1 (drop i line).

Definition parse_porcelain_line (line : string) : list FileStatus :=
  if (String.length line <? 4)%nat then []
  else
    let x := item 0 line in
    let y := item 1 line in
    let path_part := drop 3 line in
    let path := last_item (split " -> " path_part) in
    [mk_FileStatus path x y].

Definition _parse_porcelain (output : string) : list FileStatus :=
  flat_map parse_porcelain_line (splitlines output).

(** The [ValueError] of [int(word)]: the digit limit is reported before
    anything else that is wrong after the digits, and the message for an
    invalid literal shows the first 200 characters of [repr(word)]. *)
Definition int_error (word : string) : exn :=
  match over_digit_limit word with
  | Some d =>
      ValueError ("Exceeds the limit (" ++ str_of_int (Z.of_nat int_max_str_digits)
                  ++ " digits) for integer string conversion: value has "
                  ++ str_of_int (Z.of_nat d)
                  ++ " digits; use sys.set_int_max_str_digits() to increase the limit")
  | None =>
      ValueError ("invalid literal for int() with base 10: " ++ take 200 (repr word))
  end.

(** [int(segment.split()[-1])] *)
Definition int_of_last_word (segment : string) : result Z :=
  let word := last_item (split_ws segment) in
  match int word with
  | Some n => Ok n
  | None => Raise (int_error word)
  end.

(** The loop over [info.split(",")], threading [(ahead, behind)]. *)
Fixpoint scan_segments (segments : list string) (ab : Z * Z) : result (Z * Z) :=
  match segments with
  | [] => Ok ab
  | segment :: rest =>
      let segment := strip segment in
      if startswith "ahead" segment then
        rbind (int_of_last_word segment) (fun n => scan_segments rest (n, snd ab))
      else if startswith "behind" segment then
        rbind (int_of_last_word segment) (fun n => scan_segments rest (fst ab, n))
      else scan_segments rest ab
  end.

(** The header block of [get_status]: branch, ahead, behind. *)
Definition parse_header (lines : list string) : result (string * (Z * Z)) :=
  match lines with
  | line0 :: _ =>
      if startswith "## " line0 then
        let header := drop 3 line0 in
        let parts := split "..." header in
        let branch := hd EmptyString parts in
        if contains "[" header then
          match index "[" header, index "]" header with
          | Some i, Some j =>
              let info := slice (i + 1) j header in
              rbind (scan_segments (split "," info) (0%Z, 0%Z))
                    (fun ab => Ok (branch, ab))
          | _, _ => Raise (ValueError "substring not found")
          end
        else Ok (branch, (0%Z, 0%Z))
      else Ok ("unknown", (0%Z, 0%Z))
  | [] => Ok ("unknown", (0%Z, 0%Z))
  end.

Definition in_staged (f : FileStatus) : bool :=
  is_staged f && negb (in_tuple (index_status f) ["?"; "!"]).

Definition in_unstaged (f : FileStatus) : bool :=
  is_unstaged f && negb (String.eqb (index_status f) "?").

Definition in_untracked (f : FileStatus) : bool :=
  String.eqb (index_status f) "?" && String.eqb (work_status f) "?".

(** Everything [get_status] does with the text git printed. *)
Definition status_of_output (raw : string) : result RepoStatus :=
  let lines := splitlines raw in
  rbind (parse_header lines) (fun h =>
    let all_files := _parse_porcelain (join NL (tl lines)) in
    Ok (mk_RepoStatus (fst h) (fst (snd h)) (snd (snd h))
          (filter in_staged all_files)
          (filter in_unstaged all_files)
          (filter in_untracked all_files))).

Definition get_status (w : World) (repo_path : option string) : M RepoStatus :=
  raw <- run_git w ["status"; "--porcelain=v1"; "--branch"] repo_path ;;
  lift (status_of_output raw).

Definition stage_file (w : World) (file_path : string) (repo_path : option string)
  : M unit :=
  if startswith "-" file_path || contains NUL file_path then
    raise (ValueError ("Invalid file path: " ++ repr file_path))
  else
    _ <- run_git w ["add"; "--"; file_path] repo_path ;; ret tt.

Definition unstage_file (w : World) (file_path : string) (repo_path : option string)
  : M unit :=
  if startswith "-" file_path || contains NUL file_path then
    raise (ValueError ("Invalid file path: " ++ repr file_path))
  else
    _ <- run_git w ["restore"; "--staged"; "--"; file_path] repo_path ;; ret tt.

(** ** app/services/branch_service.py (the operations that take a ref name) *)

Definition create_branch (w : World) (name : string) (checkout : bool)
           (repo_path : option string) : M unit :=
  if negb (_is_valid_ref_name name) then
    raise (ValueError ("Invalid branch name: " ++ repr name))
  else if checkout then
    _ <- run_git w ["checkout"; "-b"; name] repo_path ;; ret tt
  else
    _ <- run_git w ["branch"; name] repo_path ;; ret tt.

Definition checkout_branch (w : World) (name : string) (repo_path : option string)
  : M unit :=
  if negb (_is_valid_ref_name name) then
    raise (ValueError ("Invalid branch name: " ++ repr name))
  else
    _ <- run_git w ["checkout"; name] repo_path ;; ret tt.

(** ** app/services/remote_service.py *)

Definition opt_arg (v : option string) : list string :=
  match v with
  | Some b => if truthy b then [b] else []
  | None => []
  end.

Definition fetch (w : World) (remote : string) (repo_path : option string) : M string :=
  run_git w ["fetch"; "--prune"; remote] repo_path.

Definition pull (w : World) (remote : string) (branch : option string)
           (repo_path : option string) : M string :=
  let args := (["pull"; remote] ++ opt_arg branch)%list in
  run_git w args repo_path.

Definition push (w : World) (remote : string) (branch : option string)
           (repo_path : option string) : M string :=
  let args := (["push"; remote] ++ opt_arg branch)%list in
  run_git w args repo_path.

(** ** app/api/remotes.py *)

Record RemoteActionRequest := mk_RemoteActionRequest {
  req_remote : string;
  req_branch : option string;
  req_repo_path : option string
}.

(** The [field_validator] of [remote]; it runs when the request object is
    built, before a route handler is entered. *)
Definition validate_remote (v : string) : result string :=
  if is_empty v || startswith "-" v || contains " " v then
    Raise (ValueError "Invalid remote name.")
  else Ok v.

Definition make_request (remote : string) (branch repo_path : option string)
  : result RemoteActionRequest :=
  rbind (validate_remote remote) (fun r => Ok (mk_RemoteActionRequest r branch repo_path)).

Definition do_fetch (w : World) (req : RemoteActionRequest) : M string :=
  fetch w (req_remote req) (req_repo_path req).

Definition do_pull (w : World) (req : RemoteActionRequest) : M string :=
  pull w (req_remote req) (req_branch req) (req_repo_path req).

Definition do_push (w : World) (req : RemoteActionRequest) : M string :=
  push w (req_remote req) (req_branch req) (req_repo_path req).

(** A POST to one of the routes: the body is validated into a
    [RemoteActionRequest] first and the handler runs only when that succeeds
    (the framework reports the validator's [ValueError] as a validation
    error, HTTP 422). *)
Definition post (w : World) (handler : World -> RemoteActionRequest -> M string)
           (remote : string) (branch repo_path : option string) : M string :=
  req <- lift (make_request remote branch repo_path) ;;
  handler w req.

(** ** app/services/ai_service.py *)

Import Re.

Definition _MEDIC_SYSTEM_PROMPT : string :=
  join NL
    [ "You are a senior developer and Git expert.";
      "Given a git error message and context, provide:";
      "1. A plain-language explanation of what went wrong.";
      "2. Step-by-step instructions to fix it (numbered list).";
      "3. If a safe, non-destructive command can fix it automatically, output it on a line starting with: AUTO_FIX:";
      "";
      "Keep your response concise and practical. Never suggest force-pushing to shared branches without a clear warning.";
      "" ].

Definition ws_then_word : re := Seq (Many1 Space) (Many1 NonSpace).

Definition _SAFE_AUTO_FIX_PATTERNS : list re :=
  [ (* ^git fetch(\s+\S+)?$ *)
    seqs [Bol; lit "git fetch"; Opt ws_then_word; Eol];
    (* ^git pull(\s+--rebase)?(\s+\S+\s+\S+)?$ *)
    seqs [Bol; lit "git pull"; Opt (Seq (Many1 Space) (lit "--rebase"));
          Opt (Seq ws_then_word ws_then_word); Eol];
    (* ^git stash( pop)?$ *)
    seqs [Bol; lit "git stash"; Opt (lit " pop"); Eol];
    (* ^git checkout -- \.$ *)
    seqs [Bol; lit "git checkout -- ."; Eol];
    (* ^git merge --abort$ *)
    seqs [Bol; lit "git merge --abort"; Eol];
    (* ^git rebase --abort$ *)
    seqs [Bol; lit "git rebase --abort"; Eol];
    (* ^git cherry-pick --abort$ *)
    seqs [Bol; lit "git cherry-pick --abort"; Eol];
    (* ^git reset HEAD~1$ *)
    seqs [Bol; lit "git reset HEAD~1"; Eol];
    (* ^git restore --staged \.$ *)
    seqs [Bol; lit "git restore --staged ."; Eol] ].

Definition _is_safe_auto_fix (cmd : string) : bool :=
  existsb (fun pattern => fullmatch pattern (strip cmd)) _SAFE_AUTO_FIX_PATTERNS.

Record Diagnosis := mk_Diagnosis {
  explanation : string;
  steps : list string;
  auto_fix : option string
}.

Definition AUTO_FIX_MARK : string := "AUTO_FIX:".

(** The loop over [raw.splitlines()], threading [(auto_fix, clean_lines)]. *)
Fixpoint scan_lines (lines : list string) (auto_fix : option string)
         (clean_lines : list string) : option string * list string :=
  match lines with
  | [] => (auto_fix, clean_lines)
  | line :: rest =>
      if startswith AUTO_FIX_MARK line then
        let auto_fix_candidate := strip (drop (String.length AUTO_FIX_MARK) line) in
        if _is_safe_auto_fix auto_fix_candidate then
          scan_lines rest (Some auto_fix_candidate) clean_lines
        else scan_lines rest auto_fix clean_lines
      else scan_lines rest auto_fix (clean_lines ++ [line])%list
  end.

(** [^\d+\.] and [^\d+\.\s*] *)
Definition step_number : re := seqs [Bol; Many1 Digit; Chr "."].
Definition step_prefix : re := seqs [Bol; Many1 Digit; Chr "."; Opt (Many1 Space)].

Definition is_step (line : string) : bool :=
  match match_rest step_number (strip line) with
  | Some _ => true
  | None => false
  end.

Definition steps_of (steps_raw : string) : list string :=
  map (fun line => strip (sub_anchored step_prefix line))
      (filter is_step (splitlines steps_raw)).

(** Explanation and steps, from the lines kept by the loop. *)
Definition explain (clean_lines : list string) : string * list string :=
  let explanation_text := strip (join NL clean_lines) in
  let paragraphs := split_max (NL ++ NL) 1 explanation_text in
  let explanation := strip (hd EmptyString paragraphs) in
  let steps_raw := match paragraphs with
                   | _ :: p1 :: _ => p1
                   | _ => EmptyString
                   end in
  (explanation, steps_of steps_raw).

(** Everything [diagnose_error] does with the text the model returned. *)
Definition diagnosis_of_response (raw : string) : Diagnosis :=
  let '(auto_fix, clean_lines) := scan_lines (splitlines raw) None [] in
  let '(explanation, steps) := explain clean_lines in
  mk_Diagnosis explanation steps auto_fix.

(** The prompt [diagnose_error] sends. *)
Definition diagnosis_prompt (error_output : string) (context : option string)
  : string :=
  let capped_error := take 3000 error_output in
  let prompt := "Git error output:" ++ NL ++ NL ++ capped_error in
  match context with
  | Some c =>
      if truthy c then
        prompt ++ NL ++ NL ++ "Additional context: " ++ take 500 c
      else prompt
  | None => prompt
  end.

Definition diagnose_error (w : World) (error_output : string)
           (context : option string) : result Diagnosis :=
  if is_empty (strip error_output) then
    Raise (ValueError "Error output cannot be empty.")
  else
    let prompt := diagnosis_prompt error_output context in
    rbind (call_gemini w prompt _MEDIC_SYSTEM_PROMPT) (fun raw =>
      Ok (diagnosis_of_response raw)).

(** ** Further string primitives *)

(** [c in chars] for a character *)
Definition in_chars (chars : string) (c : ascii) : bool :=
  contains (String c EmptyString) chars.

Fixpoint lstrip_by (p : ascii -> bool) (s : string) : string :=
  match s with
  | EmptyString => EmptyString
  | String c s' => if p c then lstrip_by p s' else s
  end.

Fixpoint rstrip_by (p : ascii -> bool) (s : string) : string :=
  match s with
  | EmptyString => EmptyString
  | String c s' =>
      match rstrip_by p s' with
      | EmptyString => if p c then EmptyString else String c EmptyString
      | r => String c r
      end
  end.

(** [s.strip(chars)] *)
Definition strip_chars (chars : string) (s : string) : string :=
  rstrip_by (in_chars chars) (lstrip_by (in_chars chars) s).

(** The class [[a-z]] *)
Definition is_lower (c : ascii) : bool :=
  let n := code c in ((97 <=? n) && (n <=? 122))%N.

Definition is_newline (c : ascii) : bool := Ascii.eqb c "010".

(** ** app/core/git_runner.py, continued *)

(** [except (RepoNotFoundError, InvalidPathError)]: any other exception of
    [_resolve_repo] leaves [is_repo] as it is. *)
Definition is_repo (w : World) (path : string) : result bool :=
  match _resolve_repo w (Some path) with
  | Ok _ => Ok true
  | Raise e =>
      match exn_class_of e with
      | K_RepoNotFoundError | K_InvalidPathError => Ok false
      | _ => Raise e
      end
  end.

(** ** app/services/status_service.py, continued *)

Definition stage_all (w : World) (repo_path : option string) : M unit :=
  _ <- run_git w ["add"; "-A"] repo_path ;; ret tt.

(** [settings.MAX_DIFF_BYTES] is the argument [max_bytes], a length (the
    setting is 50000 unless the environment overrides it; a negative value
    is not modelled); the notice appended to a truncated diff holds a
    character outside the modelled range and is the argument [notice]. *)
Definition get_staged_diff (w : World) (max_bytes : nat) (notice : string)
           (repo_path : option string) : M string :=
  diff <- run_git w ["diff"; "--cached"] repo_path ;;
  if (max_bytes <? String.length diff)%nat then ret (take max_bytes diff ++ notice)
  else ret diff.

(** ** app/services/branch_service.py, continued *)

Record Branch := mk_Branch {
  branch_name : string;
  is_current : bool;
  is_remote : bool;
  last_commit_sha : string;
  last_commit_message : string
}.

Definition branch_format : string :=
  join US ["%(refname:short)"; "%(HEAD)"; "%(objectname:short)"; "%(subject)"].

Definition parse_branch_line (line : string) : list Branch :=
  match split US line with
  | [p0; p1; p2; p3] => [mk_Branch p0 (String.eqb p1 "*") false p2 p3]
  | _ => []
  end.

Definition list_branches (w : World) (repo_path : option string) : M (list Branch) :=
  raw <- run_git w ["for-each-ref"; "--format=" ++ branch_format; "refs/heads/"]
                 repo_path ;;
  ret (flat_map parse_branch_line (splitlines raw)).

Definition delete_branch (w : World) (name : string) (force : bool)
           (repo_path : option string) : M unit :=
  if negb (_is_valid_ref_name name) then
    raise (ValueError ("Invalid branch name: " ++ repr name))
  else
    let flag := if force then "-D" else "-d" in
    _ <- run_git w ["branch"; flag; name] repo_path ;; ret tt.

Definition merge_branch (w : World) (source : string) (repo_path : option string)
  : M string :=
  if negb (_is_valid_ref_name source) then
    raise (ValueError ("Invalid branch name: " ++ repr source))
  else run_git w ["merge"; "--no-ff"; source] repo_path.

(** One entry of the commit graph (a dict in the source). *)
Record GraphEntry := mk_GraphEntry {
  graph_sha : string;
  graph_message : string;
  graph_author : string;
  graph_date : string;
  graph_refs : list string
}.

Definition graph_format : string :=
  join US ["%h"; "%s"; "%an"; "%ci"; "%D"].

(** [[r.strip() for r in text.split(",") if r.strip()]] *)
Definition refs_of (text : string) : list string :=
  map strip (filter (fun r => truthy (strip r)) (split "," text)).

Definition parse_graph_line (line : string) : list GraphEntry :=
  match split US line with
  | [p0; p1; p2; p3; p4] => [mk_GraphEntry p0 p1 p2 p3 (refs_of p4)]
  | _ => []
  end.

Definition get_branch_graph (w : World) (repo_path : option string)
  : M (list GraphEntry) :=
  raw <- run_git w ["log"; "--all"; "--decorate=short";
                    "--format=" ++ graph_format; "--max-count=100"] repo_path ;;
  ret (flat_map parse_graph_line (splitlines raw)).

(** ** app/services/remote_service.py, continued *)

Record Remote := mk_Remote {
  remote_name : string;
  fetch_url : string;
  push_url : string
}.

(** The dict [seen], in insertion order. *)
Definition seen_dict := list (string * Remote).

Fixpoint seen_has (name : string) (seen : seen_dict) : bool :=
  match seen with
  | [] => false
  | (k, _) :: rest => String.eqb k name || seen_has name rest
  end.

(** [seen[name][field] = value], for a key that is present *)
Fixpoint seen_update (name : string) (f : Remote -> Remote) (seen : seen_dict)
  : seen_dict :=
  match seen with
  | [] => []
  | (k, r) :: rest =>
      if String.eqb k name then (k, f r) :: rest
      else (k, r) :: seen_update name f rest
  end.

Definition set_fetch_url (url : string) (r : Remote) : Remote :=
  mk_Remote (remote_name r) url (push_url r).

Definition set_push_url (url : string) (r : Remote) : Remote :=
  mk_Remote (remote_name r) (fetch_url r) url.

(** One turn of the loop of [list_remotes]. *)
Definition remote_step (seen : seen_dict) (line : string) : seen_dict :=
  match split_ws line with
  | name :: url :: word2 :: _ =>
      let direction := strip_chars "()" word2 in
      let seen :=
        if negb (seen_has name seen) then (seen ++ [(name, mk_Remote name "" "")])%list
        else seen in
      if String.eqb direction "fetch" then seen_update name (set_fetch_url url) seen
      else if String.eqb direction "push" then seen_update name (set_push_url url) seen
      else seen
  | _ => seen
  end.

(** Everything [list_remotes] does with the text git printed. *)
Definition remotes_of_output (raw : string) : list Remote :=
  map snd (fold_left remote_step (splitlines raw) []).

Definition list_remotes (w : World) (repo_path : option string) : M (list Remote) :=
  raw <- run_git w ["remote"; "-v"] repo_path ;;
  ret (remotes_of_output raw).

(** ** app/services/ai_service.py, continued *)

(** Length of the match of [```[a-z]*\n?] at the head of [s], which starts
    with the three backticks. *)
Fixpoint lower_run (s : string) : nat :=
  match s with
  | String c s' => if is_lower c then S (lower_run s') else O
  | EmptyString => O
  end.

Definition open_fence_len (s : string) : nat :=
  let n := lower_run (drop 3 s) in
  match drop (3 + n) s with
  | String c _ => if is_newline c then 3 + n + 1 else 3 + n
  | EmptyString => 3 + n
  end.

(** [re.sub(r"^```[a-z]*\n?", "", s, flags=re.MULTILINE)]: [bol] tells
    whether the position is the start of a line, [skip] counts the characters
    of the current match still to be removed. *)
Fixpoint sub_open_fence_go (bol : bool) (skip : nat) (s : string) : string :=
  match s with
  | EmptyString => EmptyString
  | String c s' =>
      match skip with
      | S k => sub_open_fence_go (is_newline c) k s'
      | O =>
          if bol && startswith "```" s then
            sub_open_fence_go (is_newline c) (open_fence_len s - 1) s'
          else String c (sub_open_fence_go (is_newline c) O s')
      end
  end.

Definition sub_open_fence (s : string) : string := sub_open_fence_go true O s.

(** [$] under MULTILINE: the end of the text or the position before a
    newline. *)
Definition at_eol (s : string) : bool :=
  match s with
  | EmptyString => true
  | String c _ => is_newline c
  end.

(** [re.sub(r"\n?```$", "", s, flags=re.MULTILINE)] *)
Fixpoint sub_close_fence_go (skip : nat) (s : string) : string :=
  match s with
  | EmptyString => EmptyString
  | String c s' =>
      match skip with
      | S k => sub_close_fence_go k s'
      | O =>
          if is_newline c && startswith "```" s' && at_eol (drop 3 s') then
            sub_close_fence_go 3 s'
          else if startswith "```" s && at_eol (drop 3 s) then
            sub_close_fence_go 2 s'
          else String c (sub_close_fence_go O s')
      end
  end.

Definition sub_close_fence (s : string) : string := sub_close_fence_go O s.

(** What [generate_commit_message] makes of the text the model returned. *)
Definition clean_commit_message (raw : string) : string :=
  strip (sub_close_fence (sub_open_fence raw)).

Definition commit_prompt (diff : string) : string :=
  "Git diff to summarize:" ++ NL ++ NL ++ "```diff" ++ NL ++ diff ++ NL ++ "```".

(** [_COMMIT_SYSTEM_PROMPT] holds a character outside the modelled range
    and is the argument [system_prompt]. *)
Definition generate_commit_message (w : World) (system_prompt : string)
           (diff : string) : result string :=
  if is_empty (strip diff) then
    Raise (ValueError "No staged changes to generate a message for.")
  else
    rbind (call_gemini w (commit_prompt diff) system_prompt) (fun raw =>
      Ok (clean_commit_message raw)).

(** ** Request validators and routes of app/api *)

(** [CommitRequest.validate_message] *)
Definition validate_message (v : string) : result string :=
  let stripped := strip v in
  if is_empty stripped then Raise (ValueError "Commit message cannot be empty.")
  else if (4096 <? String.length stripped)%nat then
    Raise (ValueError "Commit message too long.")
  else Ok stripped.

(** [FileActionRequest.validate_file_path] *)
Definition validate_file_path (v : string) : result string :=
  if is_empty v || startswith "-" v || contains NUL v || contains ".." v then
    Raise (ValueError "Invalid file path.")
  else Ok v.

(** [DiagnoseRequest.validate_error] *)
Definition validate_error (v : string) : result string :=
  if is_empty (strip v) then Raise (ValueError "Error output cannot be empty.")
  else Ok (take 3000 v).

(** [_validate_ref] of app/api/branches.py *)
Definition _validate_ref (name : string) : result string :=
  if negb (_is_valid_ref_name name) then
    Raise (ValueError ("Invalid branch name: " ++ repr name))
  else Ok name.

(** A request whose field is validated before the handler runs. *)
Definition validated {A B} (validator : A -> result A) (handler : A -> M B)
           (v : A) : M B :=
  checked <- lift (validator v) ;;
  handler checked.

(** POST /api/commits *)
Definition commit_route (w : World) (message : string) (repo_path : option string)
  : M string :=
  validated validate_message (fun m => create_commit w m repo_path) message.

(** POST /api/status/stage and /api/status/unstage *)
Definition stage_route (w : World) (file_path : string) (repo_path : option string)
  : M unit :=
  validated validate_file_path (fun p => stage_file w p repo_path) file_path.

Definition unstage_route (w : World) (file_path : string) (repo_path : option string)
  : M unit :=
  validated validate_file_path (fun p => unstage_file w p repo_path) file_path.

(** What an AI route answers: the body, or the 400 reply it builds from a
    [ValueError]. *)
Inductive reply (A : Type) :=
| Body (a : A)
| BadRequest (detail : string).
Arguments Body {A} a.
Arguments BadRequest {A} detail.

Definition catch_value_error {A} (r : result A) : result (reply A) :=
  match r with
  | Ok a => Ok (Body a)
  | Raise e =>
      if is_value_error (exn_class_of e) then Ok (BadRequest (exn_message e))
      else Raise e
  end.

(** POST /api/ai/commit-message *)
Definition ai_commit_message (w : World) (max_bytes : nat) (notice : string)
           (system_prompt : string) (repo_path : option string)
  : M (reply string) :=
  fun tr =>
    match get_staged_diff w max_bytes notice repo_path tr with
    | (Ok diff, tr') =>
        (catch_value_error (generate_commit_message w system_prompt diff), tr')
    | (Raise e, tr') => (catch_value_error (Raise e), tr')
    end.

(** POST /api/ai/diagnose, the body already validated into
    [(error_output, context)] *)
Definition ai_diagnose (w : World) (error_output : string) (context : option string)
  : result (reply Diagnosis) :=
  catch_value_error (diagnose_error w error_output context).

(** ** Notions used in the statements *)

(** Letters, digits, [/], [-] and [_]. *)
Definition is_ordinary (c : ascii) : bool :=
  let n := code c in
  (((65 <=? n) && (n <=? 90)) || ((97 <=? n) && (n <=? 122))
   || ((48 <=? n) && (n <=? 57)) || (n =? 47) || (n =? 45) || (n =? 95))%N.

(** The characters [~ ^ : ? * [] of the claim. *)
Definition special_chars : list string := ["~"; "^"; ":"; "?"; "*"; "["].

(** A line the diagnosis loop keeps as text. *)
Definition unmarked (line : string) : bool := negb (startswith AUTO_FIX_MARK line).

(** The argument vector [get_log] builds before calling [run_git]. *)
Definition log_args (limit : Z) (branch : option string) : list string :=
  (["log"; ("--format=" ++ log_format)%string;
    ("-" ++ str_of_int (clamp_limit limit))%string] ++ opt_arg branch)%list.

(** The branch argument is refused by [get_log]. *)
Definition branch_refused (branch : option string) : bool :=
  match branch with
  | Some b => truthy b && negb (_is_valid_ref_name b)
  | None => false
  end.

(** ** app/core/config.py *)

(** [Settings.validate_repo_path] of app/core/config.py *)
Definition validate_repo_path (w : World) (v : string) : result string :=
  rbind (of_answer (fs_resolve w v)) (fun path =>
  rbind (of_answer (fs_exists w path)) (fun path_exists =>
  if negb path_exists then
    Raise (ValueError ("Repo path does not exist: " ++ path))
  else Ok path)).

(** ** Further notions used in the statements *)

(** [s * n] *)
Fixpoint repeat_string (s : string) (n : nat) : string :=
  match n with
  | O => EmptyString
  | S k => s ++ repeat_string s k
  end.

(** A text that holds no line boundary. *)
Definition one_line (s : string) : bool := all (fun c => negb (islinebreak c)) s.

Definition keeps_char (c : ascii) : bool := negb (is_stripped_control c).

(** The two commands of [create_commit]. *)
Definition commit_cmd (cwd clean_message : string) : argv :=
  ["git"; "-C"; cwd; "commit"; "-m"; clean_message].

Definition rev_parse_cmd (cwd : string) : argv :=
  ["git"; "-C"; cwd; "rev-parse"; "--short"; "HEAD"].

(** A process outcome with exit code 0. *)
Definition succeeded (outcome : proc_outcome) : bool :=
  match outcome with
  | Completed rc _ _ => (rc =? 0)%Z
  | _ => false
  end.

(** Lines as git prints them, each ended by a newline. *)
Fixpoint unlines (ls : list string) : string :=
  match ls with
  | [] => EmptyString
  | l :: rest => l ++ NL ++ unlines rest
  end.

(** A field that can be printed between unit separators on one line. *)
Definition field_ok (f : string) : bool :=
  all (fun c => negb (Ascii.eqb "031" c)) f && one_line f.

(** The line git prints for a commit under [log_format]. *)
Definition log_line (c : Commit) : string :=
  join US [sha c; short_sha c; author c; email c; date c; message c].

Definition commit_ok (c : Commit) : bool :=
  forallb field_ok [sha c; short_sha c; author c; email c; date c; message c].

(** The line git prints for a local branch under [branch_format]. *)
Definition branch_line (b : Branch) : string :=
  join US [branch_name b; if is_current b then "*" else " ";
           last_commit_sha b; last_commit_message b].

Definition branch_ok (b : Branch) : bool :=
  negb (is_remote b)
  && forallb field_ok [branch_name b; last_commit_sha b; last_commit_message b].

(** The commands the ref-name operations start, each ending in the name. *)
Definition ref_command (cwd : string) (verb : list string) (name : string) : argv :=
  (["git"; "-C"; cwd] ++ verb ++ [name])%list.

(** The remote name a line of [git remote -v] contributes, when the line
    has at least three words. *)
Definition line_remote (line : string) : option string :=
  match split_ws line with
  | name :: _ :: _ :: _ => Some name
  | _ => None
  end.

(** [seen] has distinct keys and every value carries its key as name. *)
Definition seen_ok (seen : seen_dict) : Prop :=
  NoDup (map fst seen)
  /\ Forall (fun kr => remote_name (snd kr) = fst kr) seen.

(** A word: non-empty and free of whitespace. *)
Definition is_word (s : string) : bool :=
  truthy s && all (fun c => negb (isspace c)) s.

(** The two lines [git remote -v] prints for a remote. *)
Definition fetch_line (r : Remote) : string :=
  remote_name r ++ String "009" (fetch_url r ++ String " " "(fetch)").

Definition push_line (r : Remote) : string :=
  remote_name r ++ String "009" (push_url r ++ String " " "(push)").

Definition remote_lines (r : Remote) : list string := [fetch_line r; push_line r].

Definition remote_ok (r : Remote) : bool :=
  is_word (remote_name r) && is_word (fetch_url r) && is_word (push_url r).

(** The command a marked line proposes. *)
Definition candidate_of (line : string) : string :=
  strip (drop (String.length AUTO_FIX_MARK) line).

(** The proposals of a response that pass the whitelist, in order. *)
Definition safe_candidates (lines : list string) : list string :=
  filter _is_safe_auto_fix
         (map candidate_of (filter (startswith AUTO_FIX_MARK) lines)).

Definition last_or {A} (l : list A) (default : option A) : option A :=
  List.last (map Some l) default.

(** A text without a backtick. *)
Definition no_tick (s : string) : bool := all (fun c => negb (Ascii.eqb "`" c)) s.

(** The value [digits_go] reads from the digits of [u], started at [acc]. *)
Fixpoint uint_val (acc : Z) (u : Decimal.uint) : Z :=
  match u with
  | Decimal.Nil => acc
  | Decimal.D0 l => uint_val (10 * acc + 0) l
  | Decimal.D1 l => uint_val (10 * acc + 1) l
  | Decimal.D2 l => uint_val (10 * acc + 2) l
  | Decimal.D3 l => uint_val (10 * acc + 3) l
  | Decimal.D4 l => uint_val (10 * acc + 4) l
  | Decimal.D5 l => uint_val (10 * acc + 5) l
  | Decimal.D6 l => uint_val (10 * acc + 6) l
  | Decimal.D7 l => uint_val (10 * acc + 7) l
  | Decimal.D8 l => uint_val (10 * acc + 8) l
  | Decimal.D9 l => uint_val (10 * acc + 9) l
  end.

Definition not_char (x : ascii) (c : ascii) : bool := negb (Ascii.eqb x c).

(** The header git prints for a branch that is ahead of and behind its
    upstream. *)
Definition header_line (b u : string) (n m : Z) : string :=
  "## " ++ b ++ "..." ++ u ++ " [ahead " ++ str_of_int n
        ++ ", behind " ++ str_of_int m ++ "]".

Definition branch_char (c : ascii) : bool :=
  not_char "." c && not_char "[" c && not_char "]" c.

Definition upstream_char (c : ascii) : bool := not_char "[" c && not_char "]" c.

(** The end of every pattern: [$], then the end of the text. *)
Definition at_end (start : bool) (s : string) : option unit :=
  run (seqs [Eol]) start s (fun _ rest => if is_empty rest then Some tt else None).

(** What a pattern means: [consumes r start s start' rest] when [r]
    matches a prefix of [s] and leaves [rest]; [start] tells whether the
    position is the start of the text. *)
Inductive consumes : re -> bool -> string -> bool -> string -> Prop :=
| consumes_eps start s : consumes Eps start s start s
| consumes_bol s : consumes Bol true s true s
| consumes_eol start s :
    s = EmptyString \/ s = NL -> consumes Eol start s start s
| consumes_chr c start s : consumes (Chr c) start (String c s) false s
| consumes_many1 cl start word rest :
    word <> EmptyString -> all (in_cls cl) word = true ->
    consumes (Many1 cl) start (word ++ rest) false rest
| consumes_seq r1 r2 start s start1 s1 start2 s2 :
    consumes r1 start s start1 s1 -> consumes r2 start1 s1 start2 s2 ->
    consumes (Seq r1 r2) start s start2 s2
| consumes_opt_some r start s start' rest :
    consumes r start s start' rest -> consumes (Opt r) start s start' rest
| consumes_opt_none r start s : consumes (Opt r) start s start s.

(** A run of whitespace: non-empty, whitespace only. *)
Definition is_blank (s : string) : bool := truthy s && all isspace s.

(** The commands of the whitelist, pattern by pattern: the eight fixed
    ones, [git fetch] with an optional word, [git pull] with an optional
    [--rebase] and an optional pair of words. *)
Definition fixed_commands : list string :=
  ["git stash"; "git stash pop"; "git checkout -- ."; "git merge --abort";
   "git rebase --abort"; "git cherry-pick --abort"; "git reset HEAD~1";
   "git restore --staged ."].

Definition fetch_shape (s : string) : Prop :=
  s = "git fetch"
  \/ exists sp word,
      s = "git fetch" ++ sp ++ word /\ is_blank sp = true /\ is_word word = true.

Definition pull_shape (s : string) : Prop :=
  exists rebase words,
    s = "git pull" ++ rebase ++ words
    /\ (rebase = EmptyString
        \/ exists sp, rebase = sp ++ "--rebase" /\ is_blank sp = true)
    /\ (words = EmptyString
        \/ exists sp1 word1 sp2 word2,
            words = sp1 ++ word1 ++ sp2 ++ word2
            /\ is_blank sp1 = true /\ is_word word1 = true
            /\ is_blank sp2 = true /\ is_word word2 = true).

Definition safe_command (s : string) : Prop :=
  fetch_shape s \/ pull_shape s \/ In s fixed_commands.

(** ** A concrete environment for running the definitions

    One repository at [/repo], which is also the working directory; a path
    with a NUL is refused by [resolve()] and a name of more than 255
    characters by [exists()], as on Linux; [git] prints a fixed status. *)
Module Sample.

Definition status_text : string :=
  join NL ["## main...origin/main [ahead 2, behind 1]";
           "M  file.txt"; "?? newfile.txt"; "R  old.txt -> new.txt"; ""].

Definition response_text : string :=
  join NL ["Your branch is behind the remote."; "";
           "1. Fetch the remote."; "2.  Merge."; "AUTO_FIX: git push --force";
           "AUTO_FIX:  git fetch origin "].

Definition world (outcome : proc_outcome) : World :=
  mk_World
    (fun raw =>
       if contains NUL raw then Fails B_ValueError
       else if String.eqb raw "." then Returns "/repo"
       else if startswith "/" raw then Returns raw
       else Returns ("/repo/" ++ raw))
    (fun p =>
       if existsb (fun name => (255 <? String.length name)%nat) (split "/" p) then
         Fails (B_OSError 36 ("File name too long: " ++ repr p))
       else
         Returns (String.eqb p "/repo" || String.eqb p "/repo/.git"
                  || String.eqb p "/tmp"))
    (fun p name => p ++ "/" ++ name)
    (fun _ => None)
    (fun _ _ _ _ => outcome)
    (fun _ _ => Ok response_text)
    ".".

Definition ok_world : World := world (Completed 0 status_text "").

End Sample.

(** * Properties *)

(** ** The definitions at work *)

Example splitlines_crlf :
  splitlines ("a" ++ CR ++ NL ++ "b" ++ NL ++ NL ++ "c" ++ NL) = ["a"; "b"; ""; "c"].
Proof. reflexivity. Qed.

Example split_arrow : split " -> " "old.txt -> new.txt" = ["old.txt"; "new.txt"].
Proof. reflexivity. Qed.

Example split_max_once : split_max "--" 1 "a--b--c" = ["a"; "b--c"].
Proof. reflexivity. Qed.

Example split_dots : split "..." "main...origin/main [ahead 2]" = ["main"; "origin/main [ahead 2]"].
Proof. reflexivity. Qed.

Example split_ws_runs : split_ws "  ahead   2 " = ["ahead"; "2"].
Proof. reflexivity. Qed.

Example int_examples :
  int "12" = Some 12%Z /\ int "-3" = Some (-3)%Z /\ int "1_000" = Some 1000%Z
  /\ int "x" = None /\ int "" = None /\ int "1__0" = None /\ int "ahead" = None.
Proof. repeat split; reflexivity. Qed.

Example strip_example : strip ("  fix: bug " ++ NL) = "fix: bug".
Proof. reflexivity. Qed.

Example repr_examples :
  repr "-d" = "'-d'" /\ repr ("a" ++ NUL ++ "b") = "'a\x00b'" /\ repr "it's" = String "034" (snoc "it's" "034").
Proof. repeat split; reflexivity. Qed.

Example sample_status :
  exec (get_status Sample.ok_world None) =
  (Ok (mk_RepoStatus "main" 2 1
         [mk_FileStatus "file.txt" "M" " "; mk_FileStatus "new.txt" "R" " "]
         []
         [mk_FileStatus "newfile.txt" "?" "?"]),
   [["git"; "-C"; "/repo"; "status"; "--porcelain=v1"; "--branch"]]).
Proof. vm_compute. reflexivity. Qed.

Example sample_diagnosis :
  diagnose_error Sample.ok_world "fatal: not up to date" None =
  Ok (mk_Diagnosis "Your branch is behind the remote."
        ["Fetch the remote."; "Merge."] (Some "git fetch origin")).
Proof. vm_compute. reflexivity. Qed.

Example sample_log_args :
  snd (exec (get_log Sample.ok_world 1000 (Some "main") None)) =
  [["git"; "-C"; "/repo"; "log"; "--format=" ++ log_format; "-200"; "main"]].
Proof. vm_compute. reflexivity. Qed.

(** ** Facts about the string primitives *)

Section StringFacts.

Variable p : ascii -> bool.

Lemma all_keep (s : string) : all p (keep p s) = true.
Proof.
  induction s as [|c s IH]; simpl; auto.
  destruct (p c) eqn:E; simpl; auto. now rewrite E.
Qed.

Lemma keep_fixed (s : string) : all p s = true -> keep p s = s.
Proof.
  induction s as [|c s IH]; simpl; auto.
  intros H. apply andb_prop in H as [Hc Hs]. rewrite Hc. f_equal. auto.
Qed.

Lemma all_lstrip (s : string) : all p s = true -> all p (lstrip s) = true.
Proof.
  induction s as [|c s IH]; simpl; auto.
  intros H. destruct (isspace c); auto.
  apply andb_prop in H as [_ Hs]. auto.
Qed.

Lemma all_rstrip (s : string) : all p s = true -> all p (rstrip s) = true.
Proof.
  induction s as [|c s IH]; simpl; auto.
  intros H. apply andb_prop in H as [Hc Hs]. specialize (IH Hs).
  destruct (rstrip s) as [|d r].
  - destruct (isspace c); simpl; auto. now rewrite Hc.
  - change (all p (String c (String d r))) with (p c && all p (String d r)).
    now rewrite Hc, IH.
Qed.

Lemma all_strip (s : string) : all p s = true -> all p (strip s) = true.
Proof. intros H. unfold strip. now apply all_rstrip, all_lstrip. Qed.

(** No text that starts with a character outside [p] occurs in a string
    made of characters inside [p]. *)
Lemma contains_outside (c : ascii) (sub s : string) :
  p c = false -> all p s = true -> contains (String c sub) s = false.
Proof.
  intros Hc. induction s as [|b s IH]; simpl; auto.
  intros H. apply andb_prop in H as [Hb Hs].
  rewrite (IH Hs), orb_false_r.
  destruct (Ascii.eqb c b) eqn:E; simpl; auto.
  apply Ascii.eqb_eq in E. congruence.
Qed.

End StringFacts.

Lemma rstrip_fixed (s : string) : rstrip (rstrip s) = rstrip s.
Proof.
  induction s as [|c s IH]; simpl; auto.
  destruct (rstrip s) as [|d r] eqn:E.
  - destruct (isspace c) eqn:Ec; simpl; auto. now rewrite Ec.
  - change (rstrip (String c (String d r)))
      with (match rstrip (String d r) with
            | EmptyString => if isspace c then EmptyString else String c EmptyString
            | r' => String c r'
            end).
    now rewrite IH.
Qed.

Lemma lstrip_head (s : string) :
  lstrip s = EmptyString \/
  exists c t, lstrip s = String c t /\ isspace c = false.
Proof.
  induction s as [|c s IH]; simpl; auto.
  destruct (isspace c) eqn:E; auto. right. now exists c, s.
Qed.

Lemma rstrip_keeps_head (c : ascii) (t : string) :
  isspace c = false -> exists r, rstrip (String c t) = String c r.
Proof.
  intros Hc. simpl. destruct (rstrip t) as [|d r].
  - rewrite Hc. now exists EmptyString.
  - now exists (String d r).
Qed.

Lemma strip_fixed (s : string) : strip (strip s) = strip s.
Proof.
  unfold strip.
  destruct (lstrip_head s) as [E | (c & t & E & Hc)]; rewrite E.
  - reflexivity.
  - destruct (rstrip_keeps_head c t Hc) as [r Er]. rewrite Er.
    simpl lstrip. rewrite Hc. rewrite <- Er. apply rstrip_fixed.
Qed.

Lemma startswith_take (n : nat) (w s : string) :
  startswith w s = true -> startswith (take n w) s = true.
Proof.
  revert w s. induction n as [|n IH]; intros [|a w] [|b s]; simpl; auto.
  intros H. apply andb_prop in H as [Hab Hw]. rewrite Hab. simpl. auto.
Qed.

(** ** Commit-message sanitizer *)

(** C9. The commit-message sanitizer is idempotent: stripping the control
    characters other than newline and tab and trimming the surrounding
    whitespace a second time changes nothing. *)
Theorem sanitize_commit_message_idempotent (message : string) :
  _sanitize_commit_message (_sanitize_commit_message message)
  = _sanitize_commit_message message.
Proof.
  unfold _sanitize_commit_message.
  set (ok := fun c => negb (is_stripped_control c)).
  rewrite (keep_fixed ok).
  - apply strip_fixed.
  - apply all_strip, all_keep.
Qed.

Example sanitize_examples :
  _sanitize_commit_message ("fix: bug" ++ NUL ++ " fix") = "fix: bug fix"
  /\ _sanitize_commit_message "  fix: bug  " = "fix: bug"
  /\ _sanitize_commit_message ("feat: add" ++ NL ++ NL ++ "Longer." ++ US ++ CR)
     = "feat: add" ++ NL ++ NL ++ "Longer.".
Proof. repeat split; reflexivity. Qed.

(** ** Ref-name validator *)

Lemma forbidden_rejected (f name : string) :
  In f forbidden -> contains f name = true -> _is_valid_ref_name name = false.
Proof.
  intros Hin Hc. unfold _is_valid_ref_name.
  destruct (is_empty name || (250 <? String.length name)%nat); auto.
  assert (E : existsb (fun c => contains c name) forbidden = true).
  { apply existsb_exists. now exists f. }
  now rewrite E.
Qed.

Lemma forbidden_absent (name : string) :
  all is_ordinary name = true ->
  existsb (fun c => contains c name) forbidden = false.
Proof.
  intros H. unfold forbidden, existsb, TAB, NL, NUL, BACKSLASH, chr.
  repeat rewrite (contains_outside is_ordinary) by (reflexivity || exact H).
  reflexivity.
Qed.

Lemma is_empty_spec (s : string) : is_empty s = true <-> s = EmptyString.
Proof. destruct s; simpl; split; congruence. Qed.

(** C3 (as the code has it).  The validator rejects every name that is
    empty, longer than 250 characters, contains a space, a tab, a newline,
    NUL, a backslash, the text [..] or one of [~ ^ : ? * [], or starts with
    [-]; and it accepts every non-empty name under 250 characters made of
    letters, digits, [/], [-] and [_] that does not start with [-]. *)
Theorem ref_name_validator :
  (forall name : string,
      name = EmptyString
      \/ (250 < String.length name)%nat
      \/ contains " " name = true
      \/ contains TAB name = true
      \/ contains NL name = true
      \/ contains NUL name = true
      \/ contains BACKSLASH name = true
      \/ contains ".." name = true
      \/ (exists c, In c special_chars /\ contains c name = true)
      \/ startswith "-" name = true ->
      _is_valid_ref_name name = false)
  /\ (forall name : string,
         name <> EmptyString ->
         (String.length name < 250)%nat ->
         all is_ordinary name = true ->
         startswith "-" name = false ->
         _is_valid_ref_name name = true).
Proof.
  split.
  - intros name H.
    destruct H as [H | [H | H]].
    + subst. reflexivity.
    + unfold _is_valid_ref_name. apply Nat.ltb_lt in H. rewrite H.
      now rewrite orb_true_r.
    + assert (R : forall f, In f forbidden -> contains f name = true ->
                            _is_valid_ref_name name = false)
        by (intros f; apply forbidden_rejected).
      destruct H as [H | [H | [H | [H | [H | [H | [H | H]]]]]]];
        try (eapply R; [ | exact H]; simpl; tauto).
      * destruct H as (c & Hin & Hc). eapply R; [ | exact Hc].
        simpl in Hin. simpl. intuition auto.
      * unfold _is_valid_ref_name.
        destruct (is_empty name || (250 <? String.length name)%nat); auto.
        rewrite H. simpl. apply andb_false_r.
  - intros name Hne Hlen Hall Hdash. unfold _is_valid_ref_name.
    assert (E1 : is_empty name = false).
    { destruct (is_empty name) eqn:E; auto. apply is_empty_spec in E. contradiction. }
    assert (E2 : (250 <? String.length name)%nat = false)
      by (apply Nat.ltb_ge; lia).
    rewrite E1, E2, (forbidden_absent name Hall), Hdash. reflexivity.
Qed.

Lemma ref_name_validator_witness :
  _is_valid_ref_name "branch..name" = false
  /\ _is_valid_ref_name "feature/my-feature" = true.
Proof.
  split.
  - apply (proj1 ref_name_validator "branch..name").
    do 7 right. left. reflexivity.
  - apply (proj2 ref_name_validator "feature/my-feature").
    + discriminate.
    + simpl. lia.
    + reflexivity.
    + reflexivity.
Defined.

(** C3 as worded does not hold: a carriage return is whitespace and the name
    [a<CR>b] is accepted, and [-d] is made of ordinary characters only and is
    rejected. *)
Lemma ref_name_claim_fails :
  ~ (forall name : string,
        (exists c, isspace c = true /\ contains (String c "") name = true) ->
        _is_valid_ref_name name = false)
  /\ ~ (forall name : string,
          name <> EmptyString ->
          (String.length name < 250)%nat ->
          all is_ordinary name = true ->
          _is_valid_ref_name name = true).
Proof.
  split.
  - intros H. specialize (H ("a" ++ CR ++ "b")).
    assert (E : _is_valid_ref_name ("a" ++ CR ++ "b") = true) by reflexivity.
    rewrite H in E; [discriminate | ].
    exists "013"%char. split; reflexivity.
  - intros H. specialize (H "-d").
    assert (E : _is_valid_ref_name "-d" = false) by reflexivity.
    rewrite H in E; [discriminate | discriminate | simpl; lia | reflexivity].
Qed.

(** ** Command-safety whitelist *)

Lemma run_lit_prefix {A} (w : string) :
  forall (start : bool) (s : string) (k : bool -> string -> option A) (a : A),
    run (lit w) start s k = Some a -> startswith w s = true.
Proof.
  induction w as [|c w IH]; intros start s k a H; simpl; auto.
  simpl in H. destruct s as [|b s]; [discriminate | ].
  destruct (Ascii.eqb c b) eqn:E; [ | discriminate].
  simpl. eapply IH. exact H.
Qed.

(** A pattern of the shape [^<literal>...] only matches text that starts
    with the literal. *)
Lemma fullmatch_literal_head (w : string) (rest : list re) (s : string) :
  fullmatch (seqs (Bol :: lit w :: rest)) s = true -> startswith w s = true.
Proof.
  unfold fullmatch. simpl.
  destruct (run (lit w) true s _) eqn:E; [ | discriminate].
  intros _. eapply run_lit_prefix. exact E.
Qed.

Lemma safe_pattern_names_git (pattern : re) (s : string) :
  In pattern _SAFE_AUTO_FIX_PATTERNS ->
  fullmatch pattern s = true -> startswith "git " s = true.
Proof.
  intros Hin Hm. unfold _SAFE_AUTO_FIX_PATTERNS in Hin.
  repeat (destruct Hin as [Hin | Hin];
          [ subst pattern; apply fullmatch_literal_head in Hm;
            exact (startswith_take 4 _ _ Hm) | ]).
  contradiction.
Qed.

(** C1 (as the code has it).  The check trims its argument and accepts it
    exactly when one of the fixed patterns matches the trimmed text from end
    to end.  It accepts [git fetch], [git fetch origin], [git stash],
    [git stash pop] and [git merge --abort]; it rejects
    [git fetch && rm -rf /], [git push origin --force],
    [git reset --hard HEAD~5], [rm -rf /] and the empty string; whatever it
    accepts names the program [git].  Both directions hold: a command is
    accepted if and only if some pattern of the list matches its trimmed
    text from end to end. *)
Theorem whitelist_accepts_only_matched :
  (_is_safe_auto_fix "git fetch" = true
   /\ _is_safe_auto_fix "git fetch origin" = true
   /\ _is_safe_auto_fix "git stash" = true
   /\ _is_safe_auto_fix "git stash pop" = true
   /\ _is_safe_auto_fix "git merge --abort" = true)
  /\ (_is_safe_auto_fix "git fetch && rm -rf /" = false
      /\ _is_safe_auto_fix "git push origin --force" = false
      /\ _is_safe_auto_fix "git reset --hard HEAD~5" = false
      /\ _is_safe_auto_fix "rm -rf /" = false
      /\ _is_safe_auto_fix "" = false)
  /\ (forall cmd : string,
         (forall pattern, In pattern _SAFE_AUTO_FIX_PATTERNS ->
                          fullmatch pattern (strip cmd) = false) ->
         _is_safe_auto_fix cmd = false)
  /\ (forall cmd : string,
         _is_safe_auto_fix cmd = true ->
         (exists pattern, In pattern _SAFE_AUTO_FIX_PATTERNS
                          /\ fullmatch pattern (strip cmd) = true)
         /\ startswith "git " (strip cmd) = true)
  /\ (forall cmd : string,
         _is_safe_auto_fix cmd = true
         <-> exists pattern, In pattern _SAFE_AUTO_FIX_PATTERNS
                             /\ fullmatch pattern (strip cmd) = true).
Proof.
  split; [ | split; [ | split; [ | split]]].
  - repeat split; reflexivity.
  - repeat split; reflexivity.
  - intros cmd H. unfold _is_safe_auto_fix.
    destruct (existsb _ _) eqn:E; auto.
    apply existsb_exists in E as (pattern & Hin & Hm).
    rewrite (H pattern Hin) in Hm. discriminate.
  - intros cmd H. unfold _is_safe_auto_fix in H.
    apply existsb_exists in H as (pattern & Hin & Hm).
    split.
    + now exists pattern.
    + eapply safe_pattern_names_git; eauto.
  - intros cmd. unfold _is_safe_auto_fix. rewrite existsb_exists. reflexivity.
Qed.

Lemma whitelist_accepts_only_matched_witness :
  _is_safe_auto_fix "sudo git fetch" = false
  /\ startswith "git " (strip "  git pull --rebase origin main ") = true.
Proof.
  split.
  - apply (proj1 (proj2 (proj2 whitelist_accepts_only_matched)) "sudo git fetch").
    intros pattern Hin. simpl in Hin.
    repeat (destruct Hin as [Hin | Hin]; [subst pattern; reflexivity | ]).
    contradiction.
  - apply (proj1 (proj2 (proj2 (proj2 whitelist_accepts_only_matched)))
             "  git pull --rebase origin main ").
    reflexivity.
Defined.

(** C1 as worded does not hold: [ git fetch] (leading space) is matched
    end-to-end by no pattern and is accepted, because the check trims
    first. *)
Lemma whitelist_claim_fails :
  ~ (forall cmd : string,
        (forall pattern, In pattern _SAFE_AUTO_FIX_PATTERNS ->
                         fullmatch pattern cmd = false) ->
        _is_safe_auto_fix cmd = false).
Proof.
  intros H. specialize (H " git fetch").
  assert (E : _is_safe_auto_fix " git fetch" = true) by reflexivity.
  rewrite H in E; [discriminate | ].
  intros pattern Hin. simpl in Hin.
  repeat (destruct Hin as [Hin | Hin]; [subst pattern; reflexivity | ]).
  contradiction.
Qed.

(** More inputs.  The last two are chained commands that the patterns let
    through, their last word being one run of non-whitespace characters:
    the test [test_chained_commands_blocked] and the docstring of the check
    say the opposite. *)
Example whitelist_more_examples :
  _is_safe_auto_fix "git rebase --abort" = true
  /\ _is_safe_auto_fix "git pull --rebase origin main" = true
  /\ _is_safe_auto_fix "git pull origin" = false
  /\ _is_safe_auto_fix "git fetch origin main" = false
  /\ _is_safe_auto_fix "git stash  pop" = false
  /\ _is_safe_auto_fix "git fetch |sh" = true
  /\ _is_safe_auto_fix "git fetch origin;reboot" = true.
Proof. repeat split; reflexivity. Qed.

(** ** Error diagnosis *)

Lemma scan_lines_spec (lines : list string) :
  forall (auto_fix0 : option string) (clean0 : list string),
    (forall c, auto_fix0 = Some c -> _is_safe_auto_fix c = true) ->
    (forall c, fst (scan_lines lines auto_fix0 clean0) = Some c ->
               _is_safe_auto_fix c = true)
    /\ snd (scan_lines lines auto_fix0 clean0)
       = (clean0 ++ filter unmarked lines)%list.
Proof.
  induction lines as [|line rest IH]; intros auto_fix0 clean0 H0;
    cbn [scan_lines filter].
  - split; auto. now rewrite app_nil_r.
  - unfold unmarked at 1.
    destruct (startswith AUTO_FIX_MARK line) eqn:Em; cbn [negb].
    + destruct (_is_safe_auto_fix _) eqn:Es.
      * apply IH. intros c Hc. injection Hc as <-. exact Es.
      * apply IH. exact H0.
    + destruct (IH auto_fix0 (clean0 ++ [line])%list H0) as [Ha Hc].
      split; auto. rewrite Hc, <- app_assoc. reflexivity.
Qed.

Lemma diagnosis_of_response_spec (raw : string) :
  (forall c, auto_fix (diagnosis_of_response raw) = Some c ->
             _is_safe_auto_fix c = true)
  /\ (explanation (diagnosis_of_response raw), steps (diagnosis_of_response raw))
     = explain (filter unmarked (splitlines raw)).
Proof.
  unfold diagnosis_of_response.
  destruct (scan_lines_spec (splitlines raw) None [])
    as [Ha Hc]; [discriminate | ].
  destruct (scan_lines (splitlines raw) None []) as [af cl].
  simpl in Ha, Hc. subst cl.
  destruct (explain (filter unmarked (splitlines raw))) as [e s].
  simpl. split; auto.
Qed.

(** C2. Whatever text the model returns for a non-blank error output, the
    diagnosis is produced; its [auto_fix] field is [None] or a command that
    passes the whitelist, so a candidate that fails the whitelist is never in
    that field; and the explanation and the steps are computed from the
    lines that do not start with [AUTO_FIX:] only. *)
Theorem diagnosis_auto_fix_whitelisted
        (w : World) (error_output : string) (context : option string)
        (raw : string) :
  strip error_output <> EmptyString ->
  call_gemini w (diagnosis_prompt error_output context) _MEDIC_SYSTEM_PROMPT
  = Ok raw ->
  exists d,
    diagnose_error w error_output context = Ok d
    /\ (auto_fix d = None
        \/ exists c, auto_fix d = Some c /\ _is_safe_auto_fix c = true)
    /\ (forall line,
           In line (splitlines raw) ->
           startswith AUTO_FIX_MARK line = true ->
           let candidate := strip (drop (String.length AUTO_FIX_MARK) line) in
           _is_safe_auto_fix candidate = false ->
           auto_fix d <> Some candidate)
    /\ (explanation d, steps d) = explain (filter unmarked (splitlines raw))
    /\ (forall line,
           In line (splitlines raw) ->
           startswith AUTO_FIX_MARK line = true ->
           ~ In line (filter unmarked (splitlines raw))).
Proof.
  intros Hne Hg. unfold diagnose_error.
  destruct (is_empty (strip error_output)) eqn:Ee.
  - apply is_empty_spec in Ee. contradiction.
  - rewrite Hg. cbv zeta. cbn [rbind].
    exists (diagnosis_of_response raw).
    destruct (diagnosis_of_response_spec raw) as [Hsafe Hexp].
    split; [reflexivity | split; [ | split; [ | split]]].
    + destruct (auto_fix (diagnosis_of_response raw)) as [c | ] eqn:E; auto.
      right. exists c. auto.
    + intros line _ _ Hc E. apply Hsafe in E. congruence.
    + exact Hexp.
    + intros line _ Hm Hin. apply filter_In in Hin as [_ Hu].
      unfold unmarked in Hu. rewrite Hm in Hu. discriminate.
Qed.

Lemma diagnosis_auto_fix_whitelisted_witness :
  exists d,
    diagnose_error Sample.ok_world "fatal: not up to date" None = Ok d
    /\ auto_fix d = Some "git fetch origin"
    /\ (explanation d, steps d)
       = ("Your branch is behind the remote.", ["Fetch the remote."; "Merge."]).
Proof.
  destruct (diagnosis_auto_fix_whitelisted
              Sample.ok_world "fatal: not up to date" None Sample.response_text)
    as (d & Hd & _ & _ & Hexp & _).
  - discriminate.
  - reflexivity.
  - exists d. split; [exact Hd | ].
    split.
    + injection Hd as <-. reflexivity.
    + rewrite Hexp. reflexivity.
Defined.

(** A line that merely contains the marker is kept as text; a marked line
    whose command fails the whitelist leaves [auto_fix] as it was. *)
Example diagnosis_examples :
  diagnosis_of_response
    (join NL ["Detached HEAD."; ""; "1. Run the fix."; "AUTO_FIX: git reset --hard HEAD~5"])
  = mk_Diagnosis "Detached HEAD." ["Run the fix."] None
  /\ diagnosis_of_response
       (join NL ["AUTO_FIX: git stash"; "AUTO_FIX: rm -rf /"; "Stash first."])
     = mk_Diagnosis "Stash first." [] (Some "git stash").
Proof. split; vm_compute; reflexivity. Qed.

(** ** Path resolver and command executor *)

(** What [run_git] does, started with nothing spawned: either the path is
    refused and no process starts, or exactly one call of [subprocess.run] is
    made and its outcome decides the result. *)
Lemma run_git_exec (w : World) (args : list string) (repo_path : option string) :
  exec (run_git w args repo_path) =
  match _resolve_repo w repo_path with
  | Raise e => (Raise e, [])
  | Ok cwd =>
      let cmd := (["git"; "-C"; cwd] ++ args)%list in
      (match subprocess_run w [] cmd (git_env w) _GIT_TIMEOUT with
       | TimeoutExpired => Raise (GitCommandError "Git command timed out." "")
       | FileNotFound =>
           Raise (GitCommandError "git executable not found. Is git installed?" "")
       | Failed b => Raise (builtin b)
       | Completed returncode stdout stderr =>
           if negb (returncode =? 0)%Z then
             Raise (GitCommandError
                      ("Git command failed: " ++ join " " (firstn 2 args))
                      (strip stderr))
           else Ok stdout
       end, [cmd])
  end.
Proof.
  unfold exec, run_git, bind, lift, spawn.
  destruct (_resolve_repo w repo_path) as [cwd | e]; auto.
  cbn [app].
  destruct (subprocess_run w [] _ (git_env w) _GIT_TIMEOUT) as [ | | b | rc out err];
    auto.
  destruct (negb (rc =? 0)%Z); auto.
Qed.

(** What [_resolve_repo] does when [resolve()] and [exists()] return:
    [InvalidPathError] when the canonical path does not exist,
    [RepoNotFoundError] when it exists and has no [.git] entry, and
    otherwise the canonical path. *)
Lemma resolve_repo_outcomes
      (w : World) (repo_path : option string) (resolved : string) :
  fs_resolve w (or_default repo_path (DEFAULT_REPO_PATH w)) = Returns resolved ->
  (fs_exists w resolved = Returns false ->
   exists e, _resolve_repo w repo_path = Raise e
             /\ exn_class_of e = K_InvalidPathError)
  /\ (fs_exists w resolved = Returns true ->
      fs_exists w (fs_join w resolved ".git") = Returns false ->
      exists e, _resolve_repo w repo_path = Raise e
                /\ exn_class_of e = K_RepoNotFoundError
                /\ exn_class_of e <> K_InvalidPathError)
  /\ (fs_exists w resolved = Returns true ->
      fs_exists w (fs_join w resolved ".git") = Returns true ->
      _resolve_repo w repo_path = Ok resolved).
Proof.
  intros Hr. unfold _resolve_repo. rewrite Hr. cbn [of_answer rbind].
  split; [ | split].
  - intros ->. simpl. eexists. split; reflexivity.
  - intros -> ->. simpl. eexists. repeat split. discriminate.
  - intros -> ->. reflexivity.
Qed.

Lemma resolve_repo_outcomes_witness :
  (exists e, _resolve_repo Sample.ok_world (Some "/missing") = Raise e
             /\ exn_class_of e = K_InvalidPathError)
  /\ (exists e, _resolve_repo Sample.ok_world (Some "/tmp") = Raise e
                /\ exn_class_of e = K_RepoNotFoundError
                /\ exn_class_of e <> K_InvalidPathError)
  /\ _resolve_repo Sample.ok_world None = Ok "/repo".
Proof.
  split; [ | split].
  - apply (proj1 (resolve_repo_outcomes Sample.ok_world (Some "/missing")
                    "/missing" eq_refl)).
    reflexivity.
  - apply (proj1 (proj2 (resolve_repo_outcomes Sample.ok_world (Some "/tmp")
                           "/tmp" eq_refl)));
      reflexivity.
  - apply (proj2 (proj2 (resolve_repo_outcomes Sample.ok_world None
                           "/repo" eq_refl)));
      reflexivity.
Defined.

(** Every outcome of [_resolve_repo]: the canonical path, one of its own two
    errors, or the builtin exception that [resolve()] or one of the two
    [exists()] calls raised, unchanged. *)
Lemma resolve_repo_cases (w : World) (repo_path : option string) :
  (exists cwd, _resolve_repo w repo_path = Ok cwd)
  \/ (exists resolved,
        _resolve_repo w repo_path
        = Raise (InvalidPathError (Some ("Path does not exist: " ++ resolved))))
  \/ _resolve_repo w repo_path = Raise (RepoNotFoundError None)
  \/ (exists b, _resolve_repo w repo_path = Raise (builtin b)).
Proof.
  unfold _resolve_repo.
  destruct (fs_resolve w _) as [resolved | b]; cbn [of_answer rbind];
    [ | right; right; right; eauto].
  destruct (fs_exists w resolved) as [[] | b]; cbn [of_answer rbind negb];
    [ | right; left; eauto | right; right; right; eauto].
  destruct (fs_exists w (fs_join w resolved ".git")) as [[] | b];
    cbn [of_answer rbind negb]; eauto 6.
Qed.

Lemma builtin_class (b : builtin_exn) :
  exn_class_of (builtin b) = K_ValueError
  \/ exn_class_of (builtin b) = K_UnicodeDecodeError
  \/ exn_class_of (builtin b) = K_OSError
  \/ exn_class_of (builtin b) = K_RuntimeError.
Proof. destruct b; simpl; auto. Qed.

(** C5 (what the code does at a path it cannot canonicalize).  A path with
    a NUL names nothing that exists, yet resolving it raises the
    [ValueError] of [resolve()], not [InvalidPathError]; a name of 300
    characters does not exist either, and resolving it raises the [OSError]
    of [exists()].  [is_repo] raises the same exceptions instead of
    answering. *)
Theorem resolve_repo_unsafe_path :
  let nul_path := "a" ++ NUL ++ "b" in
  let long_path := repeat_string "a" 300 in
  _resolve_repo Sample.ok_world (Some nul_path)
  = Raise (ValueError "embedded null byte")
  /\ exn_class_of (ValueError "embedded null byte") <> K_InvalidPathError
  /\ (exists e, _resolve_repo Sample.ok_world (Some long_path) = Raise e
                /\ exn_class_of e = K_OSError)
  /\ is_repo Sample.ok_world nul_path = Raise (ValueError "embedded null byte")
  /\ (exists e, is_repo Sample.ok_world long_path = Raise e).
Proof.
  cbv zeta. split; [reflexivity | ].
  split; [discriminate | ].
  split; [eexists; split; vm_compute; reflexivity | ].
  split; [reflexivity | eexists; vm_compute; reflexivity].
Qed.

(** C6 (as the code has it).  In a resolved repository the single process
    is started with the 30-second timeout; a timeout raises
    [GitCommandError] with the message [Git command timed out.] and empty
    stderr, a missing executable raises [GitCommandError] with the message
    [git executable not found. Is git installed?], and a non-zero exit
    raises [GitCommandError] with a message that starts
    [Git command failed: ] and the trimmed stderr.  The three share one
    class and differ in their message. *)
Theorem run_git_failures
        (w : World) (args : list string) (repo_path : option string)
        (cwd : string) :
  _resolve_repo w repo_path = Ok cwd ->
  let cmd := (["git"; "-C"; cwd] ++ args)%list in
  let failed_message := "Git command failed: " ++ join " " (firstn 2 args) in
  (subprocess_run w [] cmd (git_env w) 30 = TimeoutExpired ->
   exec (run_git w args repo_path)
   = (Raise (mk_exn K_GitCommandError "Git command timed out." (Some "")), [cmd]))
  /\ (subprocess_run w [] cmd (git_env w) 30 = FileNotFound ->
      exec (run_git w args repo_path)
      = (Raise (mk_exn K_GitCommandError
                       "git executable not found. Is git installed?" (Some "")),
         [cmd]))
  /\ (forall returncode stdout stderr,
         subprocess_run w [] cmd (git_env w) 30
         = Completed returncode stdout stderr ->
         returncode <> 0%Z ->
         exec (run_git w args repo_path)
         = (Raise (mk_exn K_GitCommandError failed_message (Some (strip stderr))),
            [cmd]))
  /\ "Git command timed out." <> failed_message
  /\ "git executable not found. Is git installed?" <> failed_message
  /\ "Git command timed out." <> "git executable not found. Is git installed?".
Proof.
  intros Hr cmd failed_message.
  rewrite run_git_exec, Hr. cbv zeta. change _GIT_TIMEOUT with 30%Z. fold cmd.
  repeat split.
  - intros H. rewrite H. reflexivity.
  - intros H. rewrite H. reflexivity.
  - intros rc out err H Hrc. rewrite H.
    apply Z.eqb_neq in Hrc. rewrite Hrc. reflexivity.
  - unfold failed_message. simpl. congruence.
  - unfold failed_message. simpl. congruence.
  - congruence.
Qed.

Lemma run_git_failures_witness :
  exec (run_git (Sample.world TimeoutExpired) ["status"] None)
  = (Raise (mk_exn K_GitCommandError "Git command timed out." (Some "")),
     [["git"; "-C"; "/repo"; "status"]])
  /\ exec (run_git (Sample.world (Completed 128 "" ("fatal: bad revision" ++ NL)))
                   ["log"; "-1"; "nope"] None)
     = (Raise (mk_exn K_GitCommandError "Git command failed: log -1"
                      (Some "fatal: bad revision")),
        [["git"; "-C"; "/repo"; "log"; "-1"; "nope"]]).
Proof.
  split.
  - apply (proj1 (run_git_failures (Sample.world TimeoutExpired) ["status"] None
                                   "/repo" eq_refl)).
    reflexivity.
  - apply (proj1 (proj2 (proj2
             (run_git_failures
                (Sample.world (Completed 128 "" ("fatal: bad revision" ++ NL)))
                ["log"; "-1"; "nope"] None "/repo" eq_refl)))
             128%Z "" ("fatal: bad revision" ++ NL)).
    + reflexivity.
    + discriminate.
Defined.

(** C6 as worded does not hold: the error raised on a timeout and the one
    raised when git is missing are of the same class as the error raised on
    a non-zero exit. *)
Lemma command_failure_kinds_coincide :
  let kind (outcome : proc_outcome) :=
    match fst (exec (run_git (Sample.world outcome) ["status"] None)) with
    | Raise e => Some (exn_class_of e)
    | Ok _ => None
    end in
  kind TimeoutExpired = kind (Completed 1 "" "")
  /\ kind FileNotFound = kind (Completed 1 "" "")
  /\ kind (Completed 1 "" "") = Some K_GitCommandError.
Proof. repeat split; reflexivity. Qed.

(** ** Status parser *)

Lemma get_status_exec (w : World) (repo_path : option string) :
  exec (get_status w repo_path) =
  (rbind (fst (exec (run_git w ["status"; "--porcelain=v1"; "--branch"] repo_path)))
         status_of_output,
   snd (exec (run_git w ["status"; "--porcelain=v1"; "--branch"] repo_path))).
Proof.
  unfold get_status, exec, bind, lift.
  destruct (run_git w _ repo_path []) as [[raw | e] tr]; reflexivity.
Qed.

(** C7. The line [M  file.txt] yields [file.txt] with codes [M] and space,
    which goes to the staged list and to neither other list; the line
    [?? newfile.txt] yields a file that goes to the untracked list only; a
    file is in the untracked list exactly when both of its codes are [?];
    and the rename line [R  old.txt -> new.txt] yields the path [new.txt]. *)
Theorem porcelain_classification :
  let modified := mk_FileStatus "file.txt" "M" " " in
  let fresh := mk_FileStatus "newfile.txt" "?" "?" in
  (_parse_porcelain "M  file.txt" = [modified]
   /\ in_staged modified = true
   /\ in_unstaged modified = false
   /\ in_untracked modified = false)
  /\ (_parse_porcelain "?? newfile.txt" = [fresh]
      /\ in_staged fresh = false
      /\ in_unstaged fresh = false
      /\ in_untracked fresh = true)
  /\ (forall f : FileStatus,
         in_untracked f = true <-> index_status f = "?" /\ work_status f = "?")
  /\ map path (_parse_porcelain "R  old.txt -> new.txt") = ["new.txt"]
  /\ status_of_output
       (join NL ["## main"; "M  file.txt"; "?? newfile.txt"; "R  old.txt -> new.txt"])
     = Ok (mk_RepoStatus "main" 0 0
             [modified; mk_FileStatus "new.txt" "R" " "] [] [fresh]).
Proof.
  intros modified fresh.
  split; [ | split; [ | split; [ | split]]].
  - repeat split; reflexivity.
  - repeat split; reflexivity.
  - intros f. unfold in_untracked.
    rewrite andb_true_iff, !String.eqb_eq. tauto.
  - reflexivity.
  - vm_compute. reflexivity.
Qed.

(** C8 (as the code has it).  When the first line git printed is
    [## main...origin/main [ahead 2, behind 1]] the status has branch
    [main], ahead 2 and behind 1.  When there is no first line, or the first
    line does not start with [## ], the status is produced with branch
    [unknown], ahead 0 and behind 0, and its lists come from the lines after
    the first. *)
Theorem status_header_parsing
        (w : World) (repo_path : option string) (raw : string) (tr : list argv) :
  exec (run_git w ["status"; "--porcelain=v1"; "--branch"] repo_path) = (Ok raw, tr) ->
  (forall rest,
      splitlines raw = "## main...origin/main [ahead 2, behind 1]" :: rest ->
      exists st, exec (get_status w repo_path) = (Ok st, tr)
                 /\ branch st = "main" /\ ahead st = 2%Z /\ behind st = 1%Z)
  /\ (splitlines raw = []
      \/ (exists line0 rest, splitlines raw = line0 :: rest
                             /\ startswith "## " line0 = false) ->
      let all_files := _parse_porcelain (join NL (tl (splitlines raw))) in
      exec (get_status w repo_path)
      = (Ok (mk_RepoStatus "unknown" 0 0
               (filter in_staged all_files)
               (filter in_unstaged all_files)
               (filter in_untracked all_files)), tr)).
Proof.
  intros Hrun. rewrite get_status_exec, Hrun. cbn [fst snd rbind].
  unfold status_of_output. split.
  - intros rest E. rewrite E.
    eexists. split; [reflexivity | ]. repeat split.
  - intros [E | (line0 & rest & E & Hh)]; rewrite E.
    + reflexivity.
    + unfold parse_header. rewrite Hh. reflexivity.
Qed.

Lemma status_header_parsing_witness :
  (exists st, exec (get_status Sample.ok_world None)
              = (Ok st, [["git"; "-C"; "/repo"; "status"; "--porcelain=v1"; "--branch"]])
              /\ branch st = "main" /\ ahead st = 2%Z /\ behind st = 1%Z)
  /\ exec (get_status (Sample.world (Completed 0 ("M  a.txt" ++ NL ++ " M b.txt") ""))
                      None)
     = (Ok (mk_RepoStatus "unknown" 0 0 [] [mk_FileStatus "b.txt" " " "M"] []),
        [["git"; "-C"; "/repo"; "status"; "--porcelain=v1"; "--branch"]]).
Proof.
  split.
  - apply (proj1 (status_header_parsing Sample.ok_world None Sample.status_text
                    [["git"; "-C"; "/repo"; "status"; "--porcelain=v1"; "--branch"]]
                    eq_refl)
             ["M  file.txt"; "?? newfile.txt"; "R  old.txt -> new.txt"]).
    reflexivity.
  - apply (proj2 (status_header_parsing
                    (Sample.world (Completed 0 ("M  a.txt" ++ NL ++ " M b.txt") ""))
                    None ("M  a.txt" ++ NL ++ " M b.txt")
                    [["git"; "-C"; "/repo"; "status"; "--porcelain=v1"; "--branch"]]
                    eq_refl)).
    right. exists "M  a.txt", [" M b.txt"]. split; reflexivity.
Defined.

(** C8 as worded does not hold for every malformed header: a header whose
    count is not a number, or whose bracket is not closed, makes the parser
    raise [ValueError] instead of falling back to the defaults. *)
Lemma status_header_claim_fails :
  fst (exec (get_status
               (Sample.world
                  (Completed 0 ("## main...origin/main [ahead x, behind 1]" ++ NL
                                ++ "M  file.txt") ""))
               None))
  = Raise (ValueError "invalid literal for int() with base 10: 'x'")
  /\ fst (exec (get_status
                  (Sample.world
                     (Completed 0 ("## main...origin/main [ahead 2" ++ NL
                                   ++ "M  file.txt") ""))
                  None))
     = Raise (ValueError "substring not found").
Proof. split; vm_compute; reflexivity. Qed.

Example header_examples :
  parse_header ["## main"] = Ok ("main", (0, 0))%Z
  /\ parse_header ["## feature/x...origin/feature/x [behind 3]"]
     = Ok ("feature/x", (0, 3))%Z
  /\ parse_header ["## No commits yet on main"] = Ok ("No commits yet on main", (0, 0))%Z
  /\ parse_header ["M  file.txt"] = Ok ("unknown", (0, 0))%Z.
Proof. repeat split; reflexivity. Qed.

(** ** Commit log *)

Lemma clamp_limit_range (limit : Z) : (1 <= clamp_limit limit <= 200)%Z.
Proof. unfold clamp_limit. lia. Qed.

Lemma get_log_trace (w : World) (limit : Z) (branch : option string)
      (repo_path : option string) :
  snd (exec (get_log w limit branch repo_path)) =
  if branch_refused branch then []
  else match _resolve_repo w repo_path with
       | Ok cwd => [(["git"; "-C"; cwd] ++ log_args limit branch)%list]
       | Raise _ => []
       end.
Proof.
  unfold get_log, log_args, opt_arg, branch_refused, exec, bind, ret, raise.
  destruct branch as [b | ];
    [ destruct (truthy b);
      [ destruct (_is_valid_ref_name b); cbn [negb andb] | cbn [andb] ] | ];
    try reflexivity;
    match goal with
    | |- context [run_git w ?a repo_path []] =>
        change (run_git w a repo_path []) with (exec (run_git w a repo_path))
    end;
    rewrite run_git_exec;
    (destruct (_resolve_repo w repo_path) as [cwd | e]; [ | reflexivity]);
    cbv zeta;
    destruct (subprocess_run w [] _ (git_env w) _GIT_TIMEOUT) as [ | | bx | rc out err];
    try destruct (negb (rc =? 0)%Z);
    rewrite ?app_nil_r; reflexivity.
Qed.

(** C10. The count [get_log] passes to git is [min(max(1, limit), 200)],
    which lies between 1 and 200: every process the operation starts carries
    it as its [-N] argument, and one such process is started whenever the
    repository resolves and the branch argument is not refused. *)
Theorem get_log_limit_clamped
        (w : World) (limit : Z) (branch : option string)
        (repo_path : option string) :
  clamp_limit limit = Z.min (Z.max 1 limit) 200
  /\ (1 <= clamp_limit limit <= 200)%Z
  /\ (forall cmd,
         In cmd (snd (exec (get_log w limit branch repo_path))) ->
         nth_error cmd 5 = Some ("-" ++ str_of_int (clamp_limit limit)))
  /\ (forall cwd,
         _resolve_repo w repo_path = Ok cwd ->
         branch_refused branch = false ->
         snd (exec (get_log w limit branch repo_path))
         = [(["git"; "-C"; cwd] ++ log_args limit branch)%list]).
Proof.
  split; [reflexivity | split; [apply clamp_limit_range | split]].
  - intros cmd. rewrite get_log_trace.
    destruct (branch_refused branch); [intros [] | ].
    destruct (_resolve_repo w repo_path) as [cwd | e]; [ | intros []].
    intros [<- | []]. reflexivity.
  - intros cwd Hr Hb. rewrite get_log_trace, Hb, Hr. reflexivity.
Qed.

Lemma get_log_limit_clamped_witness :
  nth_error ["git"; "-C"; "/repo"; "log"; "--format=" ++ log_format; "-200"; "main"] 5
  = Some ("-" ++ str_of_int (clamp_limit 100000))
  /\ snd (exec (get_log Sample.ok_world (-7) None None))
     = [["git"; "-C"; "/repo"; "log"; "--format=" ++ log_format; "-1"]].
Proof.
  split.
  - apply (proj1 (proj2 (proj2 (get_log_limit_clamped
                                  Sample.ok_world 100000 (Some "main") None)))).
    vm_compute. left. reflexivity.
  - apply (proj2 (proj2 (proj2 (get_log_limit_clamped
                                  Sample.ok_world (-7) None None))) "/repo");
      reflexivity.
Defined.

Example clamp_examples :
  clamp_limit 0 = 1%Z /\ clamp_limit 30 = 30%Z /\ clamp_limit 200 = 200%Z
  /\ clamp_limit 201 = 200%Z /\ clamp_limit (-5) = 1%Z.
Proof. repeat split; reflexivity. Qed.

(** ** Remote operations *)

(** The service functions hand any remote name to git. *)
Lemma remote_ops_trace (w : World) (remote : string) (branch repo_path : option string)
      (cwd : string) :
  _resolve_repo w repo_path = Ok cwd ->
  snd (exec (fetch w remote repo_path)) = [["git"; "-C"; cwd; "fetch"; "--prune"; remote]]
  /\ snd (exec (pull w remote branch repo_path))
     = [(["git"; "-C"; cwd; "pull"; remote] ++ opt_arg branch)%list]
  /\ snd (exec (push w remote branch repo_path))
     = [(["git"; "-C"; cwd; "push"; remote] ++ opt_arg branch)%list].
Proof.
  intros Hr. unfold fetch, pull, push.
  rewrite !run_git_exec, Hr. repeat split.
Qed.

Lemma validate_remote_rejects (remote : string) :
  remote = EmptyString \/ startswith "-" remote = true \/ contains " " remote = true ->
  validate_remote remote = Raise (ValueError "Invalid remote name.").
Proof.
  unfold validate_remote. intros [-> | [H | H]].
  - reflexivity.
  - rewrite H. now rewrite orb_true_r.
  - rewrite H. now rewrite orb_true_r.
Qed.

(** Where remote names are checked.  A remote name that is empty, starts
    with [-] or contains a space is refused by the validator of the request
    schema: a POST to the fetch, pull or push route fails with the
    validation error and starts no process.  The service functions [fetch],
    [pull] and [push] apply no validator of their own: in a repository that
    resolves, each starts git with whatever remote name it is given. *)
Theorem remote_names_checked_by_schema
        (w : World) (remote : string) (branch repo_path : option string) :
  (remote = EmptyString \/ startswith "-" remote = true
   \/ contains " " remote = true ->
   exec (post w do_fetch remote branch repo_path)
   = (Raise (ValueError "Invalid remote name."), [])
   /\ exec (post w do_pull remote branch repo_path)
      = (Raise (ValueError "Invalid remote name."), [])
   /\ exec (post w do_push remote branch repo_path)
      = (Raise (ValueError "Invalid remote name."), []))
  /\ (forall cwd,
         _resolve_repo w repo_path = Ok cwd ->
         snd (exec (fetch w remote repo_path))
         = [["git"; "-C"; cwd; "fetch"; "--prune"; remote]]
         /\ snd (exec (pull w remote branch repo_path))
            = [(["git"; "-C"; cwd; "pull"; remote] ++ opt_arg branch)%list]
         /\ snd (exec (push w remote branch repo_path))
            = [(["git"; "-C"; cwd; "push"; remote] ++ opt_arg branch)%list]).
Proof.
  split.
  - intros H. unfold post, make_request, exec, bind, lift.
    rewrite (validate_remote_rejects remote H). repeat split.
  - intros cwd Hr. now apply remote_ops_trace.
Qed.

Lemma remote_names_checked_by_schema_witness :
  exec (post Sample.ok_world do_fetch "-origin" None None)
  = (Raise (ValueError "Invalid remote name."), [])
  /\ snd (exec (push Sample.ok_world "origin" (Some "main") None))
     = [["git"; "-C"; "/repo"; "push"; "origin"; "main"]].
Proof.
  split.
  - apply (proj1 (remote_names_checked_by_schema
                    Sample.ok_world "-origin" None None)).
    right. left. reflexivity.
  - apply (proj2 (remote_names_checked_by_schema
                    Sample.ok_world "origin" (Some "main") None) "/repo").
    reflexivity.
Defined.

(** C4 (what the code does with the names the claim has it refuse).
    Called with the names [-origin], the empty name and [my remote], the
    service functions [fetch], [pull] and [push] raise nothing and start
    git with the name as an argument, where the sibling operation
    [create_branch] refuses [-d] before anything is started. *)
Lemma remote_core_claim_fails :
  exec (fetch Sample.ok_world "-origin" None)
  = (Ok Sample.status_text, [["git"; "-C"; "/repo"; "fetch"; "--prune"; "-origin"]])
  /\ exec (fetch Sample.ok_world "" None)
     = (Ok Sample.status_text, [["git"; "-C"; "/repo"; "fetch"; "--prune"; ""]])
  /\ exec (fetch Sample.ok_world "my remote" None)
     = (Ok Sample.status_text, [["git"; "-C"; "/repo"; "fetch"; "--prune"; "my remote"]])
  /\ exec (pull Sample.ok_world "-origin" None None)
     = (Ok Sample.status_text, [["git"; "-C"; "/repo"; "pull"; "-origin"]])
  /\ exec (push Sample.ok_world "-origin" (Some "main") None)
     = (Ok Sample.status_text, [["git"; "-C"; "/repo"; "push"; "-origin"; "main"]])
  /\ exec (create_branch Sample.ok_world "-d" true None)
     = (Raise (ValueError "Invalid branch name: '-d'"), []).
Proof. repeat split; vm_compute; reflexivity. Qed.

(** * Further properties *)

(** ** More facts about strings *)

Lemma sapp_nil_r (s : string) : s ++ "" = s.
Proof. induction s as [|c s IH]; simpl; congruence. Qed.

Lemma sapp_assoc (a b c : string) : (a ++ b) ++ c = a ++ (b ++ c).
Proof. induction a as [|x a IH]; simpl; congruence. Qed.

Lemma length_sapp (a b : string) :
  String.length (a ++ b) = String.length a + String.length b.
Proof. induction a as [|x a IH]; simpl; congruence. Qed.

Lemma snoc_sapp (cur : string) (c : ascii) (s : string) :
  snoc cur c ++ s = cur ++ String c s.
Proof. unfold snoc. now rewrite sapp_assoc. Qed.

Lemma all_sapp (p : ascii -> bool) (a b : string) :
  all p (a ++ b) = all p a && all p b.
Proof.
  induction a as [|x a IH]; simpl; auto. now rewrite IH, andb_assoc.
Qed.

Lemma all_snoc (p : ascii -> bool) (cur : string) (c : ascii) :
  all p (snoc cur c) = all p cur && p c.
Proof. unfold snoc. rewrite all_sapp. simpl. now rewrite andb_true_r. Qed.

Lemma length_take (n : nat) (s : string) :
  String.length (take n s) = Nat.min n (String.length s).
Proof.
  revert s. induction n as [|n IH]; intros [|c s]; simpl; auto.
Qed.

Lemma take_drop (n : nat) (s : string) : take n s ++ drop n s = s.
Proof.
  revert s. induction n as [|n IH]; intros [|c s]; simpl; auto.
  now rewrite IH.
Qed.

Lemma length_keep (p : ascii -> bool) (s : string) :
  String.length (keep p s) <= String.length s.
Proof.
  induction s as [|c s IH]; simpl; auto.
  destruct (p c); simpl; lia.
Qed.

Lemma length_lstrip (s : string) : String.length (lstrip s) <= String.length s.
Proof.
  induction s as [|c s IH]; simpl; auto.
  destruct (isspace c); simpl; lia.
Qed.

Lemma length_rstrip (s : string) : String.length (rstrip s) <= String.length s.
Proof.
  induction s as [|c s IH]; simpl; auto.
  destruct (rstrip s) as [|d r].
  - destruct (isspace c); simpl; lia.
  - simpl in *. lia.
Qed.

Lemma length_strip (s : string) : String.length (strip s) <= String.length s.
Proof.
  unfold strip. pose proof (length_rstrip (lstrip s)). pose proof (length_lstrip s). lia.
Qed.

Lemma startswith_sapp (p s : string) : startswith p (p ++ s) = true.
Proof.
  induction p as [|c p IH]; simpl; auto. now rewrite Ascii.eqb_refl.
Qed.

Lemma is_empty_false (s : string) : is_empty s = false <-> s <> EmptyString.
Proof. destruct s; simpl; split; congruence. Qed.

(** A text without the separator is one piece. *)
Lemma split_go_absent (sep : string) (s : string) :
  forall cur, contains sep s = false ->
              split_go sep None 0 cur s = [cur ++ s].
Proof.
  induction s as [|c s IH]; intros cur H.
  - simpl. now rewrite sapp_nil_r.
  - cbn [contains] in H. apply orb_false_elim in H as [Hs Hc].
    cbn [split_go]. rewrite Hs. cbn [andb].
    rewrite (IH _ Hc). now rewrite snoc_sapp.
Qed.

Lemma split_absent (sep s : string) :
  contains sep s = false -> split sep s = [s].
Proof. intros H. unfold split. now rewrite split_go_absent. Qed.

(** Splitting at a one-character separator. *)
Section OneCharSeparator.

Variable sc : ascii.

Let sep : string := String sc EmptyString.
Let clean (c : ascii) : bool := negb (Ascii.eqb sc c).

Lemma split_go_clean (p : string) :
  forall cur, all clean p = true ->
              split_go sep None 0 cur p = [cur ++ p].
Proof.
  induction p as [|c p IH]; intros cur H.
  - simpl. now rewrite sapp_nil_r.
  - simpl in H. apply andb_prop in H as [Hc Hp].
    unfold clean in Hc. apply negb_true_iff in Hc.
    cbn [split_go sep startswith]. rewrite Hc. cbn [andb].
    rewrite (IH _ Hp). now rewrite snoc_sapp.
Qed.

Lemma split_go_field (p rest : string) :
  forall cur, all clean p = true ->
              split_go sep None 0 cur (p ++ sep ++ rest)
              = (cur ++ p) :: split_go sep None 0 EmptyString rest.
Proof.
  induction p as [|c p IH]; intros cur H.
  - cbn [append sep split_go startswith].
    rewrite Ascii.eqb_refl. cbn [andb String.length Nat.sub].
    now rewrite sapp_nil_r.
  - simpl in H. apply andb_prop in H as [Hc Hp].
    unfold clean in Hc. apply negb_true_iff in Hc.
    cbn [append split_go sep startswith]. rewrite Hc. cbn [andb].
    fold sep. rewrite (IH _ Hp). now rewrite snoc_sapp.
Qed.

(** Joining fields that are free of the separator and splitting again
    gives the fields back. *)
Lemma split_join_fields (fields : list string) :
  fields <> [] ->
  Forall (fun p => all clean p = true) fields ->
  split sep (join sep fields) = fields.
Proof.
  unfold split. induction fields as [|p rest IH]; intros Hne H; [congruence | ].
  inversion H as [|? ? Hp Hrest]; subst.
  destruct rest as [|q rest'].
  - simpl. now rewrite split_go_clean.
  - cbn [join]. rewrite split_go_field by assumption.
    simpl append. f_equal. apply IH; [discriminate | assumption].
Qed.

(** No piece of a split holds the separator. *)
Lemma split_go_pieces_clean (s : string) :
  forall cur, all clean cur = true ->
              Forall (fun p => all clean p = true) (split_go sep None 0 cur s).
Proof.
  induction s as [|c s IH]; intros cur H.
  - simpl. auto.
  - cbn [split_go sep startswith].
    destruct (Ascii.eqb sc c) eqn:E; cbn [andb].
    + constructor; auto.
    + apply IH. rewrite all_snoc, H. unfold clean. now rewrite E.
Qed.

End OneCharSeparator.

(** ** Lines *)

Lemma not_linebreak_not_cr (c : ascii) :
  islinebreak c = false -> Ascii.eqb c "013" = false.
Proof.
  intros H. destruct (Ascii.eqb c "013") eqn:E; auto.
  apply Ascii.eqb_eq in E. subst c. discriminate.
Qed.

Lemma splitlines_go_one_line (l : string) :
  forall cur, one_line l = true ->
              splitlines_go cur l
              = if is_empty (cur ++ l) then [] else [cur ++ l].
Proof.
  induction l as [|c l IH]; intros cur H.
  - simpl. rewrite sapp_nil_r. reflexivity.
  - unfold one_line in H. simpl in H. apply andb_prop in H as [Hc Hl].
    apply negb_true_iff in Hc.
    cbn [splitlines_go]. rewrite (not_linebreak_not_cr c Hc), Hc.
    rewrite (IH _ Hl), snoc_sapp. reflexivity.
Qed.

Lemma splitlines_go_first_line (l rest : string) :
  forall cur, one_line l = true ->
              splitlines_go cur (l ++ NL ++ rest)
              = (cur ++ l) :: splitlines_go EmptyString rest.
Proof.
  induction l as [|c l IH]; intros cur H.
  - simpl. now rewrite sapp_nil_r.
  - unfold one_line in H. simpl in H. apply andb_prop in H as [Hc Hl].
    apply negb_true_iff in Hc.
    cbn [append splitlines_go]. rewrite (not_linebreak_not_cr c Hc), Hc.
    rewrite (IH _ Hl), snoc_sapp. reflexivity.
Qed.

(** Every line [splitlines] returns is free of line boundaries. *)
Lemma splitlines_go_lines (s : string) :
  forall cur, one_line cur = true ->
              Forall (fun l => one_line l = true) (splitlines_go cur s).
Proof.
  induction s as [|c s IH]; intros cur H.
  - simpl. destruct (is_empty cur); auto.
  - cbn [splitlines_go].
    destruct (Ascii.eqb c "013").
    + destruct s as [|d s'].
      * constructor; [exact H | apply (IH EmptyString); reflexivity].
      * assert (T : Forall (fun l => one_line l = true)
                           (splitlines_go EmptyString (String d s')))
          by (apply IH; reflexivity).
        destruct d as [[] [] [] [] [] [] [] []];
          try (constructor; [exact H | exact T]).
        constructor; [exact H | ].
        cbn [splitlines_go] in T. simpl in T.
        inversion T; assumption.
    + destruct (islinebreak c) eqn:E.
      * constructor; [exact H | apply IH; reflexivity].
      * apply IH. unfold one_line. rewrite all_snoc. unfold one_line in H.
        now rewrite H, E.
Qed.

Lemma splitlines_lines (s : string) :
  Forall (fun l => one_line l = true) (splitlines s).
Proof. apply splitlines_go_lines. reflexivity. Qed.

(** Joining lines with newlines and splitting again loses at most a final
    empty line, which a per-line parser that ignores empty lines does not
    see. *)
Lemma flat_map_splitlines_join {A} (f : string -> list A) (ls : list string) :
  f EmptyString = [] ->
  Forall (fun l => one_line l = true) ls ->
  flat_map f (splitlines (join NL ls)) = flat_map f ls.
Proof.
  intros Hf. unfold splitlines. induction ls as [|l rest IH]; intros H; auto.
  inversion H as [|? ? Hl Hrest]; subst.
  destruct rest as [|l2 rest'].
  - cbn [join]. rewrite splitlines_go_one_line by assumption.
    cbn [append]. destruct l; simpl; [now rewrite Hf | now rewrite app_nil_r].
  - cbn [join]. rewrite splitlines_go_first_line by assumption.
    cbn [append flat_map]. f_equal. apply IH. assumption.
Qed.

Lemma splitlines_join (ls : list string) :
  Forall (fun l => one_line l = true /\ l <> EmptyString) ls ->
  splitlines (join NL ls) = ls.
Proof.
  unfold splitlines. induction ls as [|l rest IH]; intros H; auto.
  inversion H as [|? ? [Hl Hne] Hrest]; subst.
  destruct rest as [|l2 rest'].
  - cbn [join]. rewrite splitlines_go_one_line by assumption.
    cbn [append]. destruct l; [congruence | reflexivity].
  - cbn [join]. rewrite splitlines_go_first_line by assumption.
    cbn [append]. f_equal. apply IH. assumption.
Qed.

(** ** The command executor, continued *)

(** [run_git] started after the processes in [tr]. *)
Lemma run_git_from (w : World) (args : list string) (repo_path : option string)
      (tr : list argv) :
  run_git w args repo_path tr =
  match _resolve_repo w repo_path with
  | Raise e => (Raise e, tr)
  | Ok cwd =>
      let cmd : argv := (["git"; "-C"; cwd] ++ args)%list in
      (match subprocess_run w tr cmd (git_env w) _GIT_TIMEOUT with
       | TimeoutExpired => Raise (GitCommandError "Git command timed out." "")
       | FileNotFound =>
           Raise (GitCommandError "git executable not found. Is git installed?" "")
       | Failed b => Raise (builtin b)
       | Completed returncode stdout stderr =>
           if negb (returncode =? 0)%Z then
             Raise (GitCommandError
                      ("Git command failed: " ++ join " " (firstn 2 args))
                      (strip stderr))
           else Ok stdout
       end, (tr ++ [cmd])%list)
  end.
Proof.
  unfold run_git, bind, lift, spawn.
  destruct (_resolve_repo w repo_path) as [cwd | e]; auto.
  destruct (subprocess_run w tr _ (git_env w) _GIT_TIMEOUT) as [ | | b | rc out err];
    auto.
  destruct (negb (rc =? 0)%Z); auto.
Qed.

(** X1. [run_git] returns normally exactly when the repository resolves and
    the one process it starts exits with code 0; what it returns is then the
    standard output of that process, unchanged. *)
Theorem run_git_succeeds_iff
        (w : World) (args : list string) (repo_path : option string)
        (out : string) (tr : list argv) :
  exec (run_git w args repo_path) = (Ok out, tr) <->
  exists cwd stderr,
    _resolve_repo w repo_path = Ok cwd
    /\ subprocess_run w [] (["git"; "-C"; cwd] ++ args)%list (git_env w) 30
       = Completed 0 out stderr
    /\ tr = [(["git"; "-C"; cwd] ++ args)%list].
Proof.
  unfold exec. rewrite run_git_from. change _GIT_TIMEOUT with 30%Z. split.
  - destruct (_resolve_repo w repo_path) as [cwd | e]; [ | discriminate].
    cbv zeta. cbn [app].
    destruct (subprocess_run w [] _ (git_env w) 30) as [ | | bx | rc o err] eqn:E;
      try discriminate.
    destruct (rc =? 0)%Z eqn:Erc; cbn [negb]; [ | discriminate].
    intros H. injection H as <- <-. apply Z.eqb_eq in Erc. subst rc.
    exists cwd, err. auto.
  - intros (cwd & err & -> & E & ->). cbv zeta. cbn [app] in *.
    rewrite E. reflexivity.
Qed.

Lemma run_git_succeeds_iff_witness :
  exec (run_git Sample.ok_world ["status"] None)
  = (Ok Sample.status_text, [["git"; "-C"; "/repo"; "status"]]).
Proof.
  apply (proj2 (run_git_succeeds_iff Sample.ok_world ["status"] None
                  Sample.status_text [["git"; "-C"; "/repo"; "status"]])).
  exists "/repo", "". repeat split.
Defined.

(** X2. [is_repo] tells in advance whether [run_git] will start a process
    on that path: when it answers true exactly one process is started, and
    when it answers false none is and the call fails with
    [InvalidPathError] or [RepoNotFoundError].  When [is_repo] raises
    instead of answering, what it raises is the builtin exception of
    [resolve()] or [exists()], and [run_git] raises the same and starts
    nothing. *)
Theorem is_repo_decides_spawn (w : World) (path : string) (args : list string) :
  (is_repo w path = Ok true ->
   exists cmd, snd (exec (run_git w args (Some path))) = [cmd])
  /\ (is_repo w path = Ok false ->
      exists e, exec (run_git w args (Some path)) = (Raise e, [])
                /\ (exn_class_of e = K_InvalidPathError
                    \/ exn_class_of e = K_RepoNotFoundError))
  /\ (forall e, is_repo w path = Raise e ->
                exec (run_git w args (Some path)) = (Raise e, [])
                /\ exists b, e = builtin b).
Proof.
  unfold is_repo. rewrite run_git_exec.
  destruct (resolve_repo_cases w (Some path))
    as [[cwd E] | [[resolved E] | [E | [b E]]]]; rewrite E.
  - split; [ | split; [discriminate | intros e; discriminate]].
    intros _. eexists. reflexivity.
  - cbn. split; [discriminate | split; [ | intros e; discriminate]].
    intros _. eexists. split; [reflexivity | left; reflexivity].
  - cbn. split; [discriminate | split; [ | intros e; discriminate]].
    intros _. eexists. split; [reflexivity | right; reflexivity].
  - assert (C : match exn_class_of (builtin b) with
                 | K_RepoNotFoundError | K_InvalidPathError => @Ok bool false
                 | _ => Raise (builtin b)
                 end = Raise (builtin b)) by (destruct b; reflexivity).
    rewrite C. split; [discriminate | split; [discriminate | ]].
    intros e H. injection H as <-. split; [reflexivity | now exists b].
Qed.

Lemma is_repo_decides_spawn_witness :
  (exists cmd, snd (exec (run_git Sample.ok_world ["status"] (Some "/repo"))) = [cmd])
  /\ (exists e, exec (run_git Sample.ok_world ["status"] (Some "/tmp")) = (Raise e, [])
                /\ (exn_class_of e = K_InvalidPathError
                    \/ exn_class_of e = K_RepoNotFoundError))
  /\ exec (run_git Sample.ok_world ["status"] (Some ("a" ++ NUL ++ "b")))
     = (Raise (ValueError "embedded null byte"), []).
Proof.
  split; [ | split].
  - apply (proj1 (is_repo_decides_spawn Sample.ok_world "/repo" ["status"])).
    reflexivity.
  - apply (proj1 (proj2 (is_repo_decides_spawn Sample.ok_world "/tmp" ["status"]))).
    reflexivity.
  - apply (proj2 (proj2 (is_repo_decides_spawn Sample.ok_world ("a" ++ NUL ++ "b")
                           ["status"]))).
    reflexivity.
Defined.

(** ** Commits, continued *)

(** X3. What the sanitizer returns holds none of the control characters it
    strips, has no whitespace at either end and is no longer than the
    message; and a message is returned unchanged exactly when it already has
    these two properties. *)
Theorem sanitize_commit_message_output (message : string) :
  all keeps_char (_sanitize_commit_message message) = true
  /\ strip (_sanitize_commit_message message) = _sanitize_commit_message message
  /\ String.length (_sanitize_commit_message message) <= String.length message
  /\ (_sanitize_commit_message message = message
      <-> all keeps_char message = true /\ strip message = message).
Proof.
  unfold _sanitize_commit_message. fold keeps_char.
  assert (A : all keeps_char (strip (keep keeps_char message)) = true)
    by apply all_strip, all_keep.
  split; [exact A | split; [apply strip_fixed | split]].
  - pose proof (length_strip (keep keeps_char message)).
    pose proof (length_keep keeps_char message). lia.
  - split.
    + intros E. rewrite E in A. split; [exact A | ].
      rewrite <- E at 1. rewrite strip_fixed. exact E.
    + intros [Hk Hs]. now rewrite keep_fixed.
Qed.

Lemma sanitize_commit_message_output_witness :
  _sanitize_commit_message "feat(api): add endpoint for status"
  = "feat(api): add endpoint for status".
Proof.
  apply (proj2 (proj2 (proj2 (proj2 (sanitize_commit_message_output
                                       "feat(api): add endpoint for status"))))).
  split; reflexivity.
Defined.

Lemma run_git_from_trace (w : World) (args : list string)
      (repo_path : option string) (tr : list argv) (cwd : string) :
  _resolve_repo w repo_path = Ok cwd ->
  snd (run_git w args repo_path tr) = (tr ++ [(["git"; "-C"; cwd] ++ args)%list])%list
  /\ (forall a, fst (run_git w args repo_path tr) = Ok a <->
                exists err, subprocess_run w tr (["git"; "-C"; cwd] ++ args)%list
                                           (git_env w) 30
                            = Completed 0 a err).
Proof.
  intros Hr. rewrite run_git_from, Hr. cbv zeta. change _GIT_TIMEOUT with 30%Z.
  split; [reflexivity | ].
  intros a. cbn [fst].
  destruct (subprocess_run w tr _ (git_env w) 30) as [ | | bx | rc o err].
  - split; [discriminate | intros [? ?]; discriminate].
  - split; [discriminate | intros [? ?]; discriminate].
  - split; [discriminate | intros [? ?]; discriminate].
  - destruct (rc =? 0)%Z eqn:E; cbn [negb].
    + apply Z.eqb_eq in E. subst rc. split.
      * intros H. injection H as <-. now exists err.
      * intros [err' H]. injection H as <- _. reflexivity.
    + split; [discriminate | ].
      intros [err' H]. injection H as -> _ _. discriminate.
Qed.

(** X4. [create_commit] starts nothing when the sanitized message is empty
    or longer than 4096 characters, and raises [ValueError].  Every process
    it does start is [git commit -m] with the sanitized message, which is
    then non-empty and within the limit, or [git rev-parse --short HEAD]. *)
Theorem create_commit_guards
        (w : World) (message : string) (repo_path : option string) :
  let clean := _sanitize_commit_message message in
  (clean = EmptyString ->
   exec (create_commit w message repo_path)
   = (Raise (ValueError "Commit message cannot be empty."), []))
  /\ (4096 < String.length clean ->
      exec (create_commit w message repo_path)
      = (Raise (ValueError
                  "Commit message exceeds maximum length of 4096 characters."), []))
  /\ (forall cmd,
         In cmd (snd (exec (create_commit w message repo_path))) ->
         clean <> EmptyString
         /\ String.length clean <= 4096
         /\ exists cwd, _resolve_repo w repo_path = Ok cwd
                        /\ (cmd = commit_cmd cwd clean \/ cmd = rev_parse_cmd cwd)).
Proof.
  intros clean. unfold create_commit. fold clean.
  split; [ | split].
  - intros ->. reflexivity.
  - intros H. destruct (is_empty clean) eqn:E.
    + apply is_empty_spec in E. rewrite E in H. simpl in H. lia.
    + apply Nat.ltb_lt in H. rewrite H. reflexivity.
  - intros cmd. destruct (is_empty clean) eqn:E; [intros [] | ].
    destruct (4096 <? String.length clean)%nat eqn:L; [intros [] | ].
    apply is_empty_false in E. apply Nat.ltb_ge in L.
    unfold exec, bind, ret.
    destruct (_resolve_repo w repo_path) as [cwd | e] eqn:Hr.
    + destruct (run_git_from_trace w ["commit"; "-m"; clean] repo_path [] cwd Hr)
        as [T1 _].
      destruct (run_git w ["commit"; "-m"; clean] repo_path []) as [[o1 | e1] tr1];
        cbn [snd] in T1; subst tr1.
      * destruct (run_git_from_trace w ["rev-parse"; "--short"; "HEAD"] repo_path
                    ([] ++ [(["git"; "-C"; cwd] ++ ["commit"; "-m"; clean])%list])%list
                    cwd Hr) as [T2 _].
        destruct (run_git w ["rev-parse"; "--short"; "HEAD"] repo_path _)
          as [[o2 | e2] tr2]; cbn [snd] in T2; subst tr2;
          (intros [<- | [<- | []]];
           (split; [exact E | split; [exact L | ]]; exists cwd; split; auto)).
      * intros [<- | []].
        split; [exact E | split; [exact L | ]]. exists cwd. split; auto.
    + rewrite run_git_from, Hr. intros [].
Qed.

Lemma create_commit_guards_witness :
  exec (create_commit Sample.ok_world (NUL ++ "  " ++ CR) None)
  = (Raise (ValueError "Commit message cannot be empty."), []).
Proof.
  apply (proj1 (create_commit_guards Sample.ok_world (NUL ++ "  " ++ CR) None)).
  reflexivity.
Defined.

(** X5. [create_commit] returns a hash exactly when the repository resolves,
    the message passes the two checks, [git commit] exits 0 and the
    [git rev-parse] started after it exits 0 as well; the hash is the
    trimmed output of [rev-parse].  When [git commit] does not exit 0,
    [rev-parse] is not started. *)
Theorem create_commit_sequence
        (w : World) (message : string) (repo_path : option string) (cwd : string) :
  let clean := _sanitize_commit_message message in
  let first := subprocess_run w [] (commit_cmd cwd clean) (git_env w) 30 in
  let second :=
    subprocess_run w [commit_cmd cwd clean] (rev_parse_cmd cwd) (git_env w) 30 in
  _resolve_repo w repo_path = Ok cwd ->
  clean <> EmptyString ->
  String.length clean <= 4096 ->
  (succeeded first = false ->
   snd (exec (create_commit w message repo_path)) = [commit_cmd cwd clean]
   /\ forall sha, fst (exec (create_commit w message repo_path)) <> Ok sha)
  /\ (succeeded first = true ->
      snd (exec (create_commit w message repo_path))
      = [commit_cmd cwd clean; rev_parse_cmd cwd]
      /\ forall sha,
          fst (exec (create_commit w message repo_path)) = Ok sha
          <-> exists out err, second = Completed 0 out err /\ sha = strip out).
Proof.
  intros clean first second Hr Hne Hlen. subst first second.
  unfold create_commit. fold clean.
  apply is_empty_false in Hne. rewrite Hne.
  apply Nat.ltb_ge in Hlen. rewrite Hlen.
  unfold exec, bind, ret.
  rewrite (run_git_from w ["commit"; "-m"; clean]), Hr. cbv zeta.
  change _GIT_TIMEOUT with 30%Z.
  change (["git"; "-C"; cwd] ++ ["commit"; "-m"; clean])%list
    with (commit_cmd cwd clean).
  cbn [app].
  destruct (subprocess_run w [] (commit_cmd cwd clean) (git_env w) 30)
    as [ | | bx | rc o err]; cbn [succeeded].
  - split; [ | discriminate]. intros _. split; [reflexivity | discriminate].
  - split; [ | discriminate]. intros _. split; [reflexivity | discriminate].
  - split; [ | discriminate]. intros _. split; [reflexivity | discriminate].
  - destruct (rc =? 0)%Z; cbn [negb].
    + split; [discriminate | ]. intros _.
      rewrite (run_git_from w ["rev-parse"; "--short"; "HEAD"]), Hr. cbv zeta.
      change _GIT_TIMEOUT with 30%Z.
      change (["git"; "-C"; cwd] ++ ["rev-parse"; "--short"; "HEAD"])%list
        with (rev_parse_cmd cwd).
      cbn [app].
      destruct (subprocess_run w [commit_cmd cwd clean] (rev_parse_cmd cwd)
                               (git_env w) 30) as [ | | bx2 | rc2 o2 err2].
      * split; [reflexivity | ]. intros sha. cbn [fst].
        split; [discriminate | intros (? & ? & ? & _); discriminate].
      * split; [reflexivity | ]. intros sha. cbn [fst].
        split; [discriminate | intros (? & ? & ? & _); discriminate].
      * split; [reflexivity | ]. intros sha. cbn [fst].
        split; [discriminate | intros (? & ? & ? & _); discriminate].
      * destruct (rc2 =? 0)%Z eqn:E2; cbn [negb].
        -- split; [reflexivity | ]. intros sha. cbn [fst].
           apply Z.eqb_eq in E2. subst rc2. split.
           ++ intros H. injection H as <-. now exists o2, err2.
           ++ intros (out & err' & H & ->). injection H as <- _. reflexivity.
        -- split; [reflexivity | ]. intros sha. cbn [fst].
           split; [discriminate | ].
           intros (out & err' & H & _). injection H as -> _ _. discriminate.
    + split; [ | discriminate]. intros _. split; [reflexivity | discriminate].
Qed.

Lemma create_commit_sequence_witness :
  snd (exec (create_commit (Sample.world (Completed 1 "" "nothing to commit"))
                           "fix: bug" None))
  = [["git"; "-C"; "/repo"; "commit"; "-m"; "fix: bug"]]
  /\ snd (exec (create_commit (Sample.world (Completed 0 ("abc1234" ++ NL) ""))
                              "  fix: bug  " None))
     = [["git"; "-C"; "/repo"; "commit"; "-m"; "fix: bug"];
        ["git"; "-C"; "/repo"; "rev-parse"; "--short"; "HEAD"]].
Proof.
  split.
  - destruct (create_commit_sequence
                (Sample.world (Completed 1 "" "nothing to commit"))
                "fix: bug" None "/repo" eq_refl) as [Hfail _];
      [discriminate | simpl; lia | ].
    apply Hfail. reflexivity.
  - destruct (create_commit_sequence
                (Sample.world (Completed 0 ("abc1234" ++ NL) ""))
                "  fix: bug  " None "/repo" eq_refl) as [_ Hok];
      [discriminate | simpl; lia | ].
    apply Hok. reflexivity.
Defined.

(** The errors [run_git] raises: the two of the path resolver, its own
    three, or a builtin exception of [pathlib] or [subprocess.run]. *)
Lemma run_git_errors (w : World) (args : list string)
      (repo_path : option string) (tr : list argv) (e : exn) :
  fst (run_git w args repo_path tr) = Raise e ->
  (exists p, e = InvalidPathError (Some ("Path does not exist: " ++ p)))
  \/ e = RepoNotFoundError None
  \/ e = GitCommandError "Git command timed out." ""
  \/ e = GitCommandError "git executable not found. Is git installed?" ""
  \/ (exists err,
         e = GitCommandError ("Git command failed: " ++ join " " (firstn 2 args)) err)
  \/ (exists b, e = builtin b).
Proof.
  rewrite run_git_from.
  destruct (resolve_repo_cases w repo_path)
    as [[cwd E] | [[resolved E] | [E | [b E]]]]; rewrite E; cbn [fst].
  - cbv zeta. cbn [fst].
    destruct (subprocess_run w tr _ (git_env w) _GIT_TIMEOUT)
      as [ | | bx | rc o err].
    + intros H. injection H as <-. auto.
    + intros H. injection H as <-. auto.
    + intros H. injection H as <-. do 5 right. now exists bx.
    + destruct (negb (rc =? 0)%Z); [ | discriminate].
      intros H. injection H as <-. do 4 right. left. eexists. reflexivity.
  - intros H. injection H as <-. left. eexists. reflexivity.
  - intros H. injection H as <-. auto.
  - intros H. injection H as <-. do 5 right. now exists b.
Qed.

(** No builtin exception carries a message of the code's own. *)
Lemma builtin_message (b : builtin_exn) :
  exists c rest,
    exn_message (builtin b) = String c rest
    /\ (c = "e" \/ c = "'" \/ c = "[" \/ c = "S")%char.
Proof. destruct b; cbn; eauto 7. Qed.

Lemma run_git_error_not_length (w : World) (args : list string)
      (repo_path : option string) (tr : list argv) (e : exn) :
  fst (run_git w args repo_path tr) = Raise e ->
  exn_message e <> "Commit message exceeds maximum length of 4096 characters.".
Proof.
  intros H. apply run_git_errors in H.
  destruct H as [[p ->] | [-> | [-> | [-> | [[err ->] | [b ->]]]]]];
    try (cbn; discriminate).
  destruct (builtin_message b) as (c & rest & -> & [-> | [-> | [-> | ->]]]);
    discriminate.
Qed.

(** An error of [run_git] is a [ValueError] only when it is a builtin one:
    the NUL that [resolve()] or [subprocess.run] refuses, or output that
    cannot be decoded. *)
Lemma run_git_value_error (w : World) (args : list string)
      (repo_path : option string) (tr : list argv) (e : exn) :
  fst (run_git w args repo_path tr) = Raise e ->
  is_value_error (exn_class_of e) = true ->
  exists b, e = builtin b.
Proof.
  intros H V. apply run_git_errors in H.
  destruct H as [[p ->] | [-> | [-> | [-> | [[err ->] | [b ->]]]]]];
    try (cbn in V; discriminate).
  now exists b.
Qed.

(** X6. A message the request validator of the commit route accepts is the
    trimmed text, non-empty and at most 4096 characters long; [create_commit]
    then never answers that the message exceeds the maximum length.  It can
    still refuse the message as empty, before any process is started, when
    nothing but stripped control characters and whitespace is in it. *)
Theorem commit_route_length_checked
        (w : World) (v : string) (repo_path : option string) :
  (forall m, validate_message v = Ok m ->
             m = strip v /\ m <> EmptyString /\ String.length m <= 4096)
  /\ (forall e, fst (exec (commit_route w v repo_path)) = Raise e ->
                exn_message e
                <> "Commit message exceeds maximum length of 4096 characters.")
  /\ (forall m, validate_message v = Ok m ->
                _sanitize_commit_message m = EmptyString ->
                exec (commit_route w v repo_path)
                = (Raise (ValueError "Commit message cannot be empty."), [])).
Proof.
  assert (V : forall m, validate_message v = Ok m ->
                        m = strip v /\ m <> EmptyString /\ String.length m <= 4096).
  { intros m. unfold validate_message.
    destruct (is_empty (strip v)) eqn:E; [discriminate | ].
    destruct (4096 <? String.length (strip v))%nat eqn:L; [discriminate | ].
    intros H. injection H as <-.
    apply is_empty_false in E. apply Nat.ltb_ge in L. auto. }
  split; [exact V | split].
  - intros e. unfold commit_route, validated, exec, bind, lift.
    destruct (validate_message v) as [m | e0] eqn:Ev.
    + destruct (V m eq_refl) as (_ & _ & Hlen).
      unfold create_commit.
      destruct (is_empty (_sanitize_commit_message m)).
      { cbn. intros H. injection H as <-. discriminate. }
      pose proof (length_strip (keep keeps_char m)) as L1.
      pose proof (length_keep keeps_char m) as L2.
      assert (L : (4096 <? String.length (_sanitize_commit_message m))%nat = false).
      { apply Nat.ltb_ge. unfold _sanitize_commit_message. fold keeps_char. lia. }
      rewrite L. unfold bind, ret.
      destruct (run_git w ["commit"; "-m"; _sanitize_commit_message m] repo_path [])
        as [[o1 | e1] tr1] eqn:R1.
      * destruct (run_git w ["rev-parse"; "--short"; "HEAD"] repo_path tr1)
          as [[o2 | e2] tr2] eqn:R2; cbn [fst]; [discriminate | ].
        intros H. injection H as <-.
        eapply run_git_error_not_length. rewrite R2. reflexivity.
      * cbn [fst]. intros H. injection H as <-.
        eapply run_git_error_not_length. rewrite R1. reflexivity.
    + cbn [fst]. intros H. injection H as <-.
      unfold validate_message in Ev.
      destruct (is_empty (strip v)); [injection Ev as <-; discriminate | ].
      destruct (4096 <? String.length (strip v))%nat;
        [injection Ev as <-; discriminate | discriminate].
  - intros m Hv Hs. unfold commit_route, validated, exec, bind, lift.
    rewrite Hv. unfold create_commit. rewrite Hs. reflexivity.
Qed.

Lemma commit_route_length_checked_witness :
  exec (commit_route Sample.ok_world (" " ++ chr 1 ++ " ") None)
  = (Raise (ValueError "Commit message cannot be empty."), []).
Proof.
  apply (proj2 (proj2 (commit_route_length_checked
                         Sample.ok_world (" " ++ chr 1 ++ " ") None))
           (chr 1)); reflexivity.
Defined.

(** ** Records printed one per line *)

Lemma splitlines_unlines (ls : list string) :
  Forall (fun l => one_line l = true) ls -> splitlines (unlines ls) = ls.
Proof.
  unfold splitlines. induction ls as [|l rest IH]; intros H; auto.
  inversion H as [|? ? Hl Hrest]; subst.
  cbn [unlines]. rewrite splitlines_go_first_line by assumption.
  cbn [append]. f_equal. auto.
Qed.

Lemma field_ok_split (fields : list string) :
  fields <> [] ->
  Forall (fun f => field_ok f = true) fields ->
  split US (join US fields) = fields.
Proof.
  intros Hne H. apply (split_join_fields "031"); auto.
  eapply Forall_impl; [ | exact H].
  intros f Hf. apply andb_prop in Hf. tauto.
Qed.

Lemma field_ok_one_line (fields : list string) :
  Forall (fun f => field_ok f = true) fields ->
  one_line (join US fields) = true.
Proof.
  induction fields as [|f rest IH]; intros H; auto.
  inversion H as [|? ? Hf Hrest]; subst.
  apply andb_prop in Hf as [_ Hf].
  destruct rest as [|g rest'].
  - exact Hf.
  - change (join US (f :: g :: rest')) with (f ++ US ++ join US (g :: rest')).
    unfold one_line in *. rewrite !all_sapp, Hf, (IH Hrest).
    reflexivity.
Qed.

Lemma exec_run_git_then {A} (w : World) (args : list string)
      (repo_path : option string) (f : string -> A) :
  exec (raw <- run_git w args repo_path ;; ret (f raw))
  = (match fst (exec (run_git w args repo_path)) with
     | Ok raw => Ok (f raw)
     | Raise e => Raise e
     end,
     snd (exec (run_git w args repo_path))).
Proof.
  unfold exec, bind, ret.
  destruct (run_git w args repo_path []) as [[raw | e] tr]; reflexivity.
Qed.

Lemma forallb_Forall {A} (p : A -> bool) (l : list A) :
  forallb p l = true -> Forall (fun x => p x = true) l.
Proof.
  induction l as [|x l IH]; simpl; intros H; constructor;
    apply andb_prop in H; tauto.
Qed.

Lemma parse_log_line_round_trip (c : Commit) :
  commit_ok c = true -> parse_log_line (log_line c) = [c].
Proof.
  intros H. unfold parse_log_line, log_line.
  rewrite field_ok_split; [ | discriminate | now apply forallb_Forall].
  destruct c. reflexivity.
Qed.

(** X7. When git exits 0 and prints one line per commit, the six fields
    joined by the unit separator, and no field holds a unit separator or a
    line boundary, [get_log] returns exactly those commits in that order; and
    whatever git prints, it returns at most one commit per line. *)
Theorem get_log_round_trip
        (w : World) (limit : Z) (repo_path : option string)
        (cwd : string) (commits : list Commit) (stderr : string) :
  _resolve_repo w repo_path = Ok cwd ->
  forallb commit_ok commits = true ->
  subprocess_run w [] (["git"; "-C"; cwd] ++ log_args limit None)%list
                 (git_env w) 30
  = Completed 0 (unlines (map log_line commits)) stderr ->
  fst (exec (get_log w limit None repo_path)) = Ok commits
  /\ forall raw,
      List.length (flat_map parse_log_line (splitlines raw))
      <= List.length (splitlines raw).
Proof.
  intros Hr Hc Hrun. split.
  - unfold get_log.
    change (exec _) with
      (exec (raw <- run_git w (log_args limit None) repo_path ;;
             ret (flat_map parse_log_line (splitlines raw)))).
    rewrite exec_run_git_then, run_git_exec, Hr. cbv zeta.
    change _GIT_TIMEOUT with 30%Z. rewrite Hrun. cbn [fst negb Z.eqb].
    f_equal. apply forallb_Forall in Hc. clear Hrun.
    rewrite splitlines_unlines.
    + induction Hc as [|c cs Hc1 _ IH]; auto.
      cbn [map flat_map]. rewrite parse_log_line_round_trip by assumption.
      now rewrite IH.
    + induction Hc as [|c cs Hc1 _ IH]; constructor; auto.
      apply field_ok_one_line. now apply forallb_Forall.
  - intros raw. induction (splitlines raw) as [|l ls IH]; auto.
    cbn [flat_map]. rewrite length_app. unfold parse_log_line at 1.
    destruct (split US l) as [|p0 [|p1 [|p2 [|p3 [|p4 [|p5 [|p6 r]]]]]]];
      simpl; lia.
Qed.

Lemma get_log_round_trip_witness :
  let c1 := mk_Commit "3f2a9c1e" "3f2a9c1" "Ann Lee" "ann@example.org"
                      "2024-05-01 10:00:00 +0200" "fix: handle empty diff" in
  let c2 := mk_Commit "9b1d0a77" "9b1d0a7" "Bo" "bo@example.org"
                      "2024-04-30 09:00:00 +0200" "" in
  fst (exec (get_log (Sample.world (Completed 0 (unlines (map log_line [c1; c2])) ""))
                     30 None None))
  = Ok [c1; c2].
Proof.
  intros c1 c2.
  apply (proj1 (get_log_round_trip
                  (Sample.world (Completed 0 (unlines (map log_line [c1; c2])) ""))
                  30 None "/repo" [c1; c2] "" eq_refl eq_refl eq_refl)).
Defined.

(** ** Branches *)

Lemma parse_branch_line_round_trip (b : Branch) :
  branch_ok b = true -> parse_branch_line (branch_line b) = [b].
Proof.
  intros H. apply andb_prop in H as [Hr Hf]. apply negb_true_iff in Hr.
  apply forallb_Forall in Hf.
  inversion Hf as [|? ? H0 Hf1]; subst. inversion Hf1 as [|? ? H1 Hf2]; subst.
  inversion Hf2 as [|? ? H2 _]; subst.
  unfold parse_branch_line, branch_line.
  rewrite field_ok_split; [ | discriminate | ].
  - destruct b as [n cur rem s m]. cbn in *. subst rem. now destruct cur.
  - repeat constructor; auto. now destruct (is_current b).
Qed.

(** X8. When git exits 0 and prints one line per local branch (name, the
    HEAD mark, hash and subject joined by the unit separator), with fields
    free of unit separators and line boundaries, [list_branches] returns
    exactly those branches in that order, the current one being the line
    marked [*]; and whatever git prints, no branch it returns is marked
    remote. *)
Theorem list_branches_round_trip
        (w : World) (repo_path : option string)
        (cwd : string) (branches : list Branch) (stderr : string) :
  _resolve_repo w repo_path = Ok cwd ->
  forallb branch_ok branches = true ->
  subprocess_run w []
                 ["git"; "-C"; cwd; "for-each-ref";
                  "--format=" ++ branch_format; "refs/heads/"]
                 (git_env w) 30
  = Completed 0 (unlines (map branch_line branches)) stderr ->
  fst (exec (list_branches w repo_path)) = Ok branches
  /\ forall raw b,
      In b (flat_map parse_branch_line (splitlines raw)) -> is_remote b = false.
Proof.
  intros Hr Hb Hrun. split.
  - unfold list_branches.
    rewrite exec_run_git_then, run_git_exec, Hr. cbv zeta.
    change _GIT_TIMEOUT with 30%Z. cbn [app]. rewrite Hrun. cbn [fst negb Z.eqb].
    f_equal. apply forallb_Forall in Hb. clear Hrun.
    rewrite splitlines_unlines.
    + induction Hb as [|b bs Hb1 _ IH]; auto.
      cbn [map flat_map]. rewrite parse_branch_line_round_trip by assumption.
      now rewrite IH.
    + induction Hb as [|b bs Hb1 _ IH]; constructor; auto.
      apply andb_prop in Hb1 as [_ Hf]. apply forallb_Forall in Hf.
      inversion Hf as [|? ? H0 Hf1]; subst. inversion Hf1 as [|? ? H1 Hf2]; subst.
      inversion Hf2 as [|? ? H2 _]; subst.
      apply field_ok_one_line. repeat constructor; auto.
      now destruct (is_current b).
  - intros raw b Hin. apply in_flat_map in Hin as (l & _ & Hl).
    unfold parse_branch_line in Hl.
    destruct (split US l) as [|p0 [|p1 [|p2 [|p3 [|p4 r]]]]]; try contradiction.
    destruct Hl as [<- | []]. reflexivity.
Qed.

Lemma list_branches_round_trip_witness :
  let b1 := mk_Branch "main" true false "3f2a9c1" "fix: handle empty diff" in
  let b2 := mk_Branch "feature/x" false false "9b1d0a7" "wip" in
  fst (exec (list_branches
               (Sample.world (Completed 0 (unlines (map branch_line [b1; b2])) ""))
               None))
  = Ok [b1; b2].
Proof.
  intros b1 b2.
  apply (proj1 (list_branches_round_trip
                  (Sample.world (Completed 0 (unlines (map branch_line [b1; b2])) ""))
                  None "/repo" [b1; b2] "" eq_refl eq_refl eq_refl)).
Defined.

Lemma not_comma_absent (r : string) :
  all (fun c => negb (Ascii.eqb "," c)) r = true -> contains "," r = false.
Proof.
  intros H. apply (contains_outside (fun c => negb (Ascii.eqb "," c))); auto.
Qed.

(** X9. Every ref name in an entry of the commit graph is non-empty, has no
    whitespace at either end and holds no comma. *)
Theorem graph_refs_trimmed
        (w : World) (repo_path : option string) (entries : list GraphEntry) :
  fst (exec (get_branch_graph w repo_path)) = Ok entries ->
  forall entry r,
    In entry entries -> In r (graph_refs entry) ->
    r <> EmptyString /\ strip r = r /\ contains "," r = false.
Proof.
  unfold get_branch_graph. rewrite exec_run_git_then. cbn [fst].
  destruct (fst (exec (run_git w _ repo_path))) as [raw | e]; [ | discriminate].
  intros H. injection H as <-.
  intros entry r Hin Hr.
  apply in_flat_map in Hin as (l & _ & Hl).
  unfold parse_graph_line in Hl.
  destruct (split US l) as [|p0 [|p1 [|p2 [|p3 [|p4 [|p5 rest]]]]]];
    try contradiction.
  destruct Hl as [<- | []]. cbn [graph_refs] in Hr.
  unfold refs_of in Hr. apply in_map_iff in Hr as (piece & <- & Hp).
  apply filter_In in Hp as [Hp Ht].
  split; [ | split].
  - unfold truthy in Ht. apply negb_true_iff in Ht. now apply is_empty_false.
  - apply strip_fixed.
  - apply not_comma_absent, all_strip.
    pose proof (split_go_pieces_clean "," p4 EmptyString eq_refl) as F.
    rewrite Forall_forall in F. apply F. exact Hp.
Qed.

Lemma graph_refs_trimmed_witness :
  "HEAD -> main" <> EmptyString
  /\ strip "HEAD -> main" = "HEAD -> main"
  /\ contains "," "HEAD -> main" = false.
Proof.
  apply (graph_refs_trimmed
           (Sample.world
              (Completed 0
                 (unlines [join US ["3f2a9c1"; "fix"; "Ann"; "2024-05-01";
                                    "HEAD -> main, origin/main, , tag: v1"]]) ""))
           None
           [mk_GraphEntry "3f2a9c1" "fix" "Ann" "2024-05-01"
                          ["HEAD -> main"; "origin/main"; "tag: v1"]]
           eq_refl
           (mk_GraphEntry "3f2a9c1" "fix" "Ann" "2024-05-01"
                          ["HEAD -> main"; "origin/main"; "tag: v1"])
           "HEAD -> main").
  - left. reflexivity.
  - left. reflexivity.
Defined.

(** ** Operations that take a ref name *)

Lemma bind_pure_trace {A B} (m : M A) (k : A -> M B) :
  (forall a tr, snd (k a tr) = tr) ->
  forall tr0, snd (bind m k tr0) = snd (m tr0).
Proof.
  intros Hk tr0. unfold bind. destruct (m tr0) as [[a | e] tr]; auto.
Qed.

Lemma run_git_trace (w : World) (args : list string) (repo_path : option string) :
  forall cmd, In cmd (snd (exec (run_git w args repo_path))) ->
              exists cwd, _resolve_repo w repo_path = Ok cwd
                          /\ cmd = (["git"; "-C"; cwd] ++ args)%list.
Proof.
  intros cmd. rewrite run_git_exec.
  destruct (_resolve_repo w repo_path) as [cwd | e]; [ | intros []].
  intros [<- | []]. now exists cwd.
Qed.

Lemma valid_ref_name_no_dash (name : string) :
  _is_valid_ref_name name = true ->
  startswith "-" name = false
  /\ name <> EmptyString
  /\ contains " " name = false.
Proof.
  unfold _is_valid_ref_name.
  destruct (is_empty name) eqn:E; [discriminate | ]. cbn [orb].
  destruct (250 <? String.length name)%nat; [discriminate | ].
  intros H. apply andb_prop in H as [Hf Hd].
  apply negb_true_iff in Hf, Hd. split; [exact Hd | split].
  - now apply is_empty_false.
  - cbn [existsb forbidden] in Hf. apply orb_false_elim in Hf as [Hs _]. exact Hs.
Qed.

(** X10. [create_branch], [checkout_branch], [delete_branch] and
    [merge_branch] raise [ValueError] and start no process when the
    validator refuses the name.  Every process they start has the name as
    its last argument, and that name passed the validator: it is not empty,
    does not start with [-] and holds no space. *)
Theorem ref_operations_guarded
        (w : World) (name : string) (flag : bool) (repo_path : option string) :
  (_is_valid_ref_name name = false ->
   let refused {A} : result A * list argv :=
     (Raise (ValueError ("Invalid branch name: " ++ repr name)), []) in
   exec (create_branch w name flag repo_path) = refused
   /\ exec (checkout_branch w name repo_path) = refused
   /\ exec (delete_branch w name flag repo_path) = refused
   /\ exec (merge_branch w name repo_path) = refused)
  /\ (forall cmd,
         In cmd (snd (exec (create_branch w name flag repo_path)))
         \/ In cmd (snd (exec (checkout_branch w name repo_path)))
         \/ In cmd (snd (exec (delete_branch w name flag repo_path)))
         \/ In cmd (snd (exec (merge_branch w name repo_path))) ->
         (exists cwd verb, cmd = ref_command cwd verb name)
         /\ startswith "-" name = false
         /\ name <> EmptyString
         /\ contains " " name = false).
Proof.
  split.
  - intros H. unfold create_branch, checkout_branch, delete_branch, merge_branch.
    rewrite H. repeat split.
  - intros cmd.
    unfold create_branch, checkout_branch, delete_branch, merge_branch.
    destruct (_is_valid_ref_name name) eqn:V; cbn [negb].
    + intros H. split; [ | now apply valid_ref_name_no_dash].
      assert (T : forall args,
                 In cmd (snd (exec (_ <- run_git w args repo_path ;; ret tt))) ->
                 In cmd (snd (exec (run_git w args repo_path)))).
      { intros args. unfold exec. rewrite bind_pure_trace; auto. }
      destruct H as [H | [H | [H | H]]].
      * destruct flag; apply T, run_git_trace in H as (cwd & _ & ->).
        -- now exists cwd, ["checkout"; "-b"].
        -- now exists cwd, ["branch"].
      * apply T, run_git_trace in H as (cwd & _ & ->).
        now exists cwd, ["checkout"].
      * apply T, run_git_trace in H as (cwd & _ & ->).
        destruct flag; [now exists cwd, ["branch"; "-D"] | now exists cwd, ["branch"; "-d"]].
      * apply run_git_trace in H as (cwd & _ & ->).
        now exists cwd, ["merge"; "--no-ff"].
    + intros [[] | [[] | [[] | []]]].
Qed.

Lemma ref_operations_guarded_witness :
  exec (delete_branch Sample.ok_world "--force" true None)
  = (Raise (ValueError "Invalid branch name: '--force'"), [])
  /\ startswith "-" "main" = false.
Proof.
  split.
  - apply (proj1 (ref_operations_guarded Sample.ok_world "--force" true None)).
    reflexivity.
  - apply (proj2 (ref_operations_guarded Sample.ok_world "main" true None)
             ["git"; "-C"; "/repo"; "merge"; "--no-ff"; "main"]).
    do 3 right. left. reflexivity.
Defined.

(** ** Status, continued *)

Lemma get_status_result (w : World) (repo_path : option string) (st : RepoStatus) :
  fst (exec (get_status w repo_path)) = Ok st ->
  exists raw,
    fst (exec (run_git w ["status"; "--porcelain=v1"; "--branch"] repo_path)) = Ok raw
    /\ status_of_output raw = Ok st.
Proof.
  rewrite get_status_exec. cbn [fst].
  destruct (fst (exec (run_git w _ repo_path))) as [raw | e]; [ | discriminate].
  intros H. now exists raw.
Qed.

Lemma status_of_output_lists (raw : string) (st : RepoStatus) :
  status_of_output raw = Ok st ->
  let files := _parse_porcelain (join NL (tl (splitlines raw))) in
  staged st = filter in_staged files
  /\ unstaged st = filter in_unstaged files
  /\ untracked st = filter in_untracked files.
Proof.
  unfold status_of_output.
  destruct (parse_header (splitlines raw)) as [h | e]; [ | discriminate].
  cbn [rbind]. intros H. injection H as <-. repeat split.
Qed.

Lemma same_key_same_item {A B} (key : A -> B) (l : list A) (x y : A) :
  NoDup (map key l) -> In x l -> In y l -> key x = key y -> x = y.
Proof.
  induction l as [|a l IH]; intros N Hx Hy E; [destruct Hx | ].
  cbn [map] in N. inversion N as [|? ? Hna N']; subst.
  destruct Hx as [-> | Hx], Hy as [-> | Hy]; auto.
  - exfalso. apply Hna. rewrite E. now apply in_map.
  - exfalso. apply Hna. rewrite <- E. now apply in_map.
Qed.

(** X11. When no two lines git printed after the first name the same path,
    the lists of a status are separate by path: the path of an untracked
    file is the path of no staged and of no unstaged file.  The condition is
    needed: after [?? a.txt] and [MM a.txt] the path [a.txt] is in all
    three lists. *)
Theorem status_lists_separate
        (w : World) (repo_path : option string) (raw : string) (st : RepoStatus) :
  fst (exec (run_git w ["status"; "--porcelain=v1"; "--branch"] repo_path)) = Ok raw ->
  fst (exec (get_status w repo_path)) = Ok st ->
  (NoDup (map path (flat_map parse_porcelain_line (tl (splitlines raw)))) ->
   forall f g : FileStatus,
     In f (untracked st) ->
     In g (staged st) \/ In g (unstaged st) ->
     path f <> path g)
  /\ (forall twice,
        status_of_output (join NL ["## main"; "?? a.txt"; "MM a.txt"]) = Ok twice ->
        map path (staged twice) = ["a.txt"]
        /\ map path (unstaged twice) = ["a.txt"]
        /\ map path (untracked twice) = ["a.txt"]).
Proof.
  intros Hraw H. split.
  - intros N f g Hf Hg E.
    apply get_status_result in H as (raw' & Hraw' & H).
    assert (raw' = raw) by congruence. subst raw'.
    apply status_of_output_lists in H as (Es & Eu & Et). cbv zeta in *.
    rewrite Et in Hf. rewrite Es, Eu in Hg.
    replace (_parse_porcelain (join NL (tl (splitlines raw))))
      with (flat_map parse_porcelain_line (tl (splitlines raw))) in *.
    2:{ symmetry. unfold _parse_porcelain. apply flat_map_splitlines_join.
        - reflexivity.
        - pose proof (splitlines_lines raw) as F.
          destruct (splitlines raw); [constructor | ].
          inversion F; assumption. }
    apply filter_In in Hf as [Hf Hu].
    unfold in_untracked in Hu. apply andb_prop in Hu as [Hi _].
    apply String.eqb_eq in Hi.
    assert (Hg' : In g (flat_map parse_porcelain_line (tl (splitlines raw)))
                  /\ index_status g <> "?").
    { destruct Hg as [Hg | Hg]; apply filter_In in Hg as [Hg Hc]; split; auto.
      - unfold in_staged, is_staged in Hc. intros Q. rewrite Q in Hc. discriminate.
      - unfold in_unstaged in Hc. apply andb_prop in Hc as [_ Hc].
        apply negb_true_iff in Hc. now apply String.eqb_neq. }
    destruct Hg' as [Hg' Hq].
    pose proof (same_key_same_item path _ f g N Hf Hg' E). subst g. contradiction.
  - intros twice T. vm_compute in T. injection T as <-. repeat split.
Qed.

Lemma status_lists_separate_witness :
  path (mk_FileStatus "newfile.txt" "?" "?") <> path (mk_FileStatus "file.txt" "M" " ").
Proof.
  destruct (status_lists_separate Sample.ok_world None Sample.status_text
              (mk_RepoStatus "main" 2 1
                 [mk_FileStatus "file.txt" "M" " ";
                  mk_FileStatus "new.txt" "R" " "]
                 []
                 [mk_FileStatus "newfile.txt" "?" "?"])
              eq_refl eq_refl) as [Sep _].
  apply Sep.
  - vm_compute. repeat constructor; simpl; intuition discriminate.
  - left. reflexivity.
  - left. left. reflexivity.
Defined.

Lemma parse_porcelain_line_empty : parse_porcelain_line EmptyString = [].
Proof. reflexivity. Qed.

Lemma item_length (i : nat) (line : string) :
  i < String.length line -> String.length (item i line) = 1.
Proof.
  revert line. induction i as [|i IH]; intros [|c s] H; simpl in *; try lia.
  apply IH. lia.
Qed.

(** X12. The files of a status are read line by line from the lines after
    the first: a line of fewer than four characters gives no file, every
    other line gives exactly one, whose two codes are the first and second
    character of the line and whose path is the text from the fourth
    character on when that text holds no [ -> ]. *)
Theorem status_files_line_by_line (raw : string) :
  _parse_porcelain (join NL (tl (splitlines raw)))
  = flat_map parse_porcelain_line (tl (splitlines raw))
  /\ forall line,
      (String.length line < 4 -> parse_porcelain_line line = [])
      /\ (4 <= String.length line ->
          exists f,
            parse_porcelain_line line = [f]
            /\ index_status f = item 0 line
            /\ work_status f = item 1 line
            /\ String.length (index_status f) = 1
            /\ String.length (work_status f) = 1
            /\ (contains " -> " (drop 3 line) = false -> path f = drop 3 line)).
Proof.
  split.
  - unfold _parse_porcelain. apply flat_map_splitlines_join.
    + reflexivity.
    + pose proof (splitlines_lines raw) as F.
      destruct (splitlines raw); [constructor | ].
      inversion F; assumption.
  - intros line. unfold parse_porcelain_line. split.
    + intros H. apply Nat.ltb_lt in H. now rewrite H.
    + intros H. assert (E : (String.length line <? 4)%nat = false)
        by (apply Nat.ltb_ge; lia).
      rewrite E. eexists. split; [reflexivity | ]. cbn [index_status work_status path].
      repeat split.
      * apply item_length. lia.
      * apply item_length. lia.
      * intros Hc. now rewrite split_absent.
Qed.

Lemma status_files_line_by_line_witness :
  exists f,
    parse_porcelain_line " M src/my file.py" = [f]
    /\ index_status f = " "
    /\ work_status f = "M"
    /\ String.length (index_status f) = 1
    /\ String.length (work_status f) = 1
    /\ (contains " -> " "src/my file.py" = false -> path f = "src/my file.py").
Proof.
  apply (proj2 (proj2 (status_files_line_by_line "") " M src/my file.py")).
  simpl. lia.
Defined.

(** X13. [get_status] raises a [ValueError] in two ways only: [run_git]
    raised it, and it is then the builtin exception of a NUL in the path or
    in an argument or of output that cannot be decoded; or the first line
    git printed starts with [## ] and holds a [[].  Without a bracket in the
    header, the status of what git printed is always produced. *)
Theorem status_fails_only_on_bracket
        (w : World) (repo_path : option string) (e : exn) :
  fst (exec (get_status w repo_path)) = Raise e ->
  is_value_error (exn_class_of e) = true ->
  (fst (exec (run_git w ["status"; "--porcelain=v1"; "--branch"] repo_path)) = Raise e
   /\ exists b, e = builtin b)
  \/ (exists raw line0 rest,
        fst (exec (run_git w ["status"; "--porcelain=v1"; "--branch"] repo_path))
        = Ok raw
        /\ splitlines raw = line0 :: rest
        /\ startswith "## " line0 = true
        /\ contains "[" (drop 3 line0) = true).
Proof.
  rewrite get_status_exec. cbn [fst].
  destruct (fst (exec (run_git w _ repo_path))) as [raw | e0] eqn:R.
  - cbn [rbind]. unfold status_of_output.
    destruct (splitlines raw) as [|line0 rest] eqn:L; [discriminate | ].
    unfold parse_header.
    destruct (startswith "## " line0) eqn:S; [ | discriminate].
    destruct (contains "[" (drop 3 line0)) eqn:B; [ | discriminate].
    intros _ _. right. now exists raw, line0, rest.
  - cbn [rbind]. intros H Hc. injection H as <-. left. split; [reflexivity | ].
    unfold exec in R. eapply run_git_value_error; eauto.
Qed.

Lemma status_fails_only_on_bracket_witness :
  (fst (exec (run_git (Sample.world (Completed 0 "## main [ahead x]" ""))
                      ["status"; "--porcelain=v1"; "--branch"] None))
   = Raise (ValueError "invalid literal for int() with base 10: 'x'")
   /\ exists b, ValueError "invalid literal for int() with base 10: 'x'" = builtin b)
  \/ (exists raw line0 rest,
        fst (exec (run_git (Sample.world (Completed 0 "## main [ahead x]" ""))
                           ["status"; "--porcelain=v1"; "--branch"] None)) = Ok raw
        /\ splitlines raw = line0 :: rest
        /\ startswith "## " line0 = true
        /\ contains "[" (drop 3 line0) = true).
Proof.
  apply (status_fails_only_on_bracket
           (Sample.world (Completed 0 "## main [ahead x]" "")) None
           (ValueError "invalid literal for int() with base 10: 'x'"));
    reflexivity.
Defined.

(** ** Staging *)

Lemma unit_op_exec (w : World) (args : list string) (repo_path : option string) :
  snd (exec (_ <- run_git w args repo_path ;; ret tt))
  = snd (exec (run_git w args repo_path))
  /\ forall e, fst (exec (_ <- run_git w args repo_path ;; ret tt)) = Raise e ->
               fst (exec (run_git w args repo_path)) = Raise e.
Proof.
  unfold exec, bind, ret.
  destruct (run_git w args repo_path []) as [[a | e0] tr]; cbn [fst snd];
    (split; [reflexivity | ]); intros e H;
    [discriminate | injection H as <-; reflexivity].
Qed.

(** X14. [stage_file] and [unstage_file] raise [ValueError] and start no
    process for a path that starts with [-] or holds a NUL.  For every other
    path, the empty one and ones with [..] included, a repository that
    resolves gets exactly one process, with the path as the argument after
    the [--] separator. *)
Theorem stage_file_guarded
        (w : World) (file_path : string) (repo_path : option string) :
  (startswith "-" file_path = true \/ contains NUL file_path = true ->
   exec (stage_file w file_path repo_path)
   = (Raise (ValueError ("Invalid file path: " ++ repr file_path)), [])
   /\ exec (unstage_file w file_path repo_path)
      = (Raise (ValueError ("Invalid file path: " ++ repr file_path)), []))
  /\ (forall cwd,
         startswith "-" file_path = false ->
         contains NUL file_path = false ->
         _resolve_repo w repo_path = Ok cwd ->
         snd (exec (stage_file w file_path repo_path))
         = [["git"; "-C"; cwd; "add"; "--"; file_path]]
         /\ snd (exec (unstage_file w file_path repo_path))
            = [["git"; "-C"; cwd; "restore"; "--staged"; "--"; file_path]]).
Proof.
  unfold stage_file, unstage_file. split.
  - intros H.
    assert (E : startswith "-" file_path || contains NUL file_path = true)
      by (destruct H as [-> | ->]; [reflexivity | apply orb_true_r]).
    rewrite E. split; reflexivity.
  - intros cwd Hd Hn Hr. rewrite Hd, Hn. cbn [orb].
    rewrite !(proj1 (unit_op_exec _ _ _)), !run_git_exec, Hr. split; reflexivity.
Qed.

Lemma stage_file_guarded_witness :
  exec (stage_file Sample.ok_world "--force" None)
  = (Raise (ValueError "Invalid file path: '--force'"), [])
  /\ snd (exec (stage_file Sample.ok_world "../outside.txt" None))
     = [["git"; "-C"; "/repo"; "add"; "--"; "../outside.txt"]].
Proof.
  split.
  - apply (proj1 (stage_file_guarded Sample.ok_world "--force" None)).
    left. reflexivity.
  - apply (proj2 (stage_file_guarded Sample.ok_world "../outside.txt" None) "/repo");
      reflexivity.
Defined.

(** X15. The stage and unstage routes refuse, before any process is
    started, a path that is empty, starts with [-], holds a NUL or holds
    [..].  A path they let through is handed to the service unchanged, and
    the check of the service then never fires, the validator of the request
    being the stricter of the two: the routes never raise the service's
    [Invalid file path] error, and a [ValueError] they raise is the builtin
    one that reached [run_git] (a NUL in the repository path, output that
    cannot be decoded). *)
Theorem stage_routes_validated
        (w : World) (file_path : string) (repo_path : option string) :
  (file_path = EmptyString \/ startswith "-" file_path = true
   \/ contains NUL file_path = true \/ contains ".." file_path = true ->
   exec (stage_route w file_path repo_path)
   = (Raise (ValueError "Invalid file path."), [])
   /\ exec (unstage_route w file_path repo_path)
      = (Raise (ValueError "Invalid file path."), []))
  /\ (validate_file_path file_path = Ok file_path ->
      exec (stage_route w file_path repo_path) = exec (stage_file w file_path repo_path)
      /\ exec (unstage_route w file_path repo_path)
         = exec (unstage_file w file_path repo_path)
      /\ forall e,
          fst (exec (stage_route w file_path repo_path)) = Raise e
          \/ fst (exec (unstage_route w file_path repo_path)) = Raise e ->
          e <> ValueError ("Invalid file path: " ++ repr file_path)
          /\ (is_value_error (exn_class_of e) = true -> exists b, e = builtin b)).
Proof.
  unfold stage_route, unstage_route, validated. split.
  - intros H.
    assert (E : validate_file_path file_path = Raise (ValueError "Invalid file path.")).
    { unfold validate_file_path.
      destruct H as [-> | [-> | [-> | ->]]]; try reflexivity;
        rewrite ?orb_true_r; reflexivity. }
    unfold exec, bind, lift. rewrite E. split; reflexivity.
  - intros V. unfold exec, bind, lift. rewrite V.
    split; [reflexivity | split; [reflexivity | ]].
    unfold validate_file_path in V.
    destruct (is_empty file_path) eqn:E0; [discriminate | ].
    destruct (startswith "-" file_path) eqn:E1; [discriminate | ].
    destruct (contains NUL file_path) eqn:E2; [discriminate | ].
    intros e. unfold stage_file, unstage_file. rewrite E1, E2. cbn [orb].
    intros [H | H];
      apply (proj2 (unit_op_exec _ _ _)) in H; unfold exec in H;
      (split; [ | intros Hv; eapply run_git_value_error; eauto]);
      apply run_git_errors in H;
      destruct H as [[p ->] | [-> | [-> | [-> | [[err ->] | [b ->]]]]]];
      try discriminate;
      destruct b; discriminate.
Qed.

Lemma stage_routes_validated_witness :
  exec (stage_route Sample.ok_world "../outside.txt" None)
  = (Raise (ValueError "Invalid file path."), [])
  /\ exec (stage_route Sample.ok_world "src/app.py" None)
     = exec (stage_file Sample.ok_world "src/app.py" None).
Proof.
  split.
  - apply (proj1 (stage_routes_validated Sample.ok_world "../outside.txt" None)).
    do 3 right. reflexivity.
  - apply (proj2 (stage_routes_validated Sample.ok_world "src/app.py" None)).
    reflexivity.
Defined.

(** X16. [get_staged_diff] returns the diff unchanged when it has at most
    [MAX_DIFF_BYTES] characters; otherwise it returns the first
    [MAX_DIFF_BYTES] characters followed by the truncation notice.  What it
    returns is never longer than the limit plus the notice. *)
Theorem staged_diff_capped
        (w : World) (max_bytes : nat) (notice : string)
        (repo_path : option string) (diff : string) :
  fst (exec (run_git w ["diff"; "--cached"] repo_path)) = Ok diff ->
  exists out,
    fst (exec (get_staged_diff w max_bytes notice repo_path)) = Ok out
    /\ String.length out <= max_bytes + String.length notice
    /\ (String.length diff <= max_bytes -> out = diff)
    /\ (max_bytes < String.length diff ->
        out = take max_bytes diff ++ notice
        /\ String.length out = max_bytes + String.length notice).
Proof.
  intros H. unfold get_staged_diff, exec, bind, ret in *.
  destruct (run_git w ["diff"; "--cached"] repo_path []) as [[d | e] tr];
    cbn [fst] in H; [ | discriminate].
  injection H as ->.
  destruct (max_bytes <? String.length diff)%nat eqn:L.
  - apply Nat.ltb_lt in L. exists (take max_bytes diff ++ notice).
    cbn [fst]. rewrite length_sapp, length_take.
    repeat split; try lia.
  - apply Nat.ltb_ge in L. exists diff. cbn [fst].
    repeat split; try lia.
Qed.

Lemma staged_diff_capped_witness :
  exists out,
    fst (exec (get_staged_diff (Sample.world (Completed 0 "0123456789abcdef" ""))
                               10 "[cut]" None)) = Ok out
    /\ String.length out <= 10 + String.length "[cut]"
    /\ (String.length "0123456789abcdef" <= 10 -> out = "0123456789abcdef")
    /\ (10 < String.length "0123456789abcdef" ->
        out = take 10 "0123456789abcdef" ++ "[cut]"
        /\ String.length out = 10 + String.length "[cut]").
Proof.
  apply (staged_diff_capped (Sample.world (Completed 0 "0123456789abcdef" ""))
           10 "[cut]" None "0123456789abcdef").
  reflexivity.
Defined.

(** ** Remotes, continued *)

Lemma seen_has_spec (name : string) (seen : seen_dict) :
  seen_has name seen = true <-> In name (map fst seen).
Proof.
  induction seen as [|[k r] rest IH]; simpl.
  - split; [discriminate | tauto].
  - rewrite orb_true_iff, String.eqb_eq, IH. tauto.
Qed.

Lemma seen_update_keys (name : string) (f : Remote -> Remote) (seen : seen_dict) :
  map fst (seen_update name f seen) = map fst seen.
Proof.
  induction seen as [|[k r] rest IH]; simpl; auto.
  destruct (String.eqb k name); simpl; congruence.
Qed.

Lemma seen_update_ok (name : string) (f : Remote -> Remote) (seen : seen_dict) :
  (forall r, remote_name (f r) = remote_name r) ->
  seen_ok seen -> seen_ok (seen_update name f seen).
Proof.
  intros Hf [Hn Hv]. split.
  - now rewrite seen_update_keys.
  - clear Hn. induction Hv as [|[k r] rest Hk Hrest IH]; simpl; [constructor | ].
    destruct (String.eqb k name).
    + constructor; [ | exact Hrest]. simpl in *. now rewrite Hf.
    + constructor; [exact Hk | exact IH].
Qed.

Lemma seen_add_ok (name : string) (seen : seen_dict) :
  seen_ok seen ->
  seen_ok (if negb (seen_has name seen)
           then (seen ++ [(name, mk_Remote name "" "")])%list else seen).
Proof.
  intros [Hn Hv]. destruct (seen_has name seen) eqn:E; cbn [negb]; [now split | ].
  split.
  - rewrite map_app. simpl. apply NoDup_app; auto.
    + repeat constructor. simpl. tauto.
    + intros x Hx [<- | []].
      apply seen_has_spec in Hx. congruence.
  - apply Forall_app. split; auto.
Qed.

Lemma seen_add_keys (name : string) (seen : seen_dict) :
  forall n,
    In n (map fst (if negb (seen_has name seen)
                   then (seen ++ [(name, mk_Remote name "" "")])%list else seen))
    <-> In n (map fst seen) \/ n = name.
Proof.
  intros n. destruct (seen_has name seen) eqn:E; cbn [negb].
  - apply seen_has_spec in E. split; [tauto | ]. intros [H | ->]; auto.
  - rewrite map_app, in_app_iff. simpl. intuition auto.
Qed.

Lemma remote_step_spec (seen : seen_dict) (line : string) :
  seen_ok seen ->
  seen_ok (remote_step seen line)
  /\ forall n, In n (map fst (remote_step seen line))
               <-> In n (map fst seen) \/ line_remote line = Some n.
Proof.
  intros Hok. unfold remote_step, line_remote.
  destruct (split_ws line) as [|name [|url [|word2 rest]]];
    try (split; [exact Hok | intros n; split; [tauto | intros [H | H]; [auto | discriminate]]]).
  cbv zeta.
  pose proof (seen_add_ok name seen Hok) as Hadd.
  assert (K : forall n,
             In n (map fst (if negb (seen_has name seen)
                            then (seen ++ [(name, mk_Remote name "" "")])%list
                            else seen))
             <-> In n (map fst seen) \/ Some name = Some n).
  { intros n. destruct (seen_add_keys name seen n) as [A B]. split.
    - intros H. destruct (A H) as [H1 | ->]; auto.
    - intros [H | H]; apply B; auto. injection H as ->. auto. }
  destruct (String.eqb (strip_chars "()" word2) "fetch").
  - split; [apply seen_update_ok; [reflexivity | exact Hadd] | ].
    intros n. rewrite seen_update_keys. apply K.
  - destruct (String.eqb (strip_chars "()" word2) "push").
    + split; [apply seen_update_ok; [reflexivity | exact Hadd] | ].
      intros n. rewrite seen_update_keys. apply K.
    + split; [exact Hadd | exact K].
Qed.

Lemma remote_fold_spec (lines : list string) :
  forall seen,
    seen_ok seen ->
    seen_ok (fold_left remote_step lines seen)
    /\ forall n, In n (map fst (fold_left remote_step lines seen))
                 <-> In n (map fst seen)
                     \/ exists line, In line lines /\ line_remote line = Some n.
Proof.
  induction lines as [|line rest IH]; intros seen Hok; cbn [fold_left].
  - split; auto. intros n. split; [tauto | ].
    intros [H | (l & [] & _)]. exact H.
  - destruct (remote_step_spec seen line Hok) as [Hok1 Hk1].
    destruct (IH _ Hok1) as [Hok2 Hk2]. split; auto.
    intros n. rewrite Hk2, Hk1. split.
    + intros [[H | H] | (l & Hl & Hn)]; auto.
      * right. exists line. simpl. auto.
      * right. exists l. simpl. auto.
    + intros [H | (l & [<- | Hl] & Hn)]; auto.
      right. now exists l.
Qed.

Lemma seen_names (seen : seen_dict) :
  seen_ok seen -> map remote_name (map snd seen) = map fst seen.
Proof.
  intros [_ Hv]. induction Hv as [|[k r] rest Hk _ IH]; simpl; auto.
  simpl in Hk. congruence.
Qed.

(** X17. [list_remotes] returns one record per remote name: the names of
    the records are pairwise distinct, and a name is among them exactly when
    it is the first word of a printed line that has at least three words. *)
Theorem list_remotes_names
        (w : World) (repo_path : option string) (remotes : list Remote) :
  fst (exec (list_remotes w repo_path)) = Ok remotes ->
  NoDup (map remote_name remotes)
  /\ exists raw,
      fst (exec (run_git w ["remote"; "-v"] repo_path)) = Ok raw
      /\ forall n, In n (map remote_name remotes)
                   <-> exists line, In line (splitlines raw)
                                    /\ line_remote line = Some n.
Proof.
  unfold list_remotes. rewrite exec_run_git_then. cbn [fst].
  destruct (fst (exec (run_git w _ repo_path))) as [raw | e]; [ | discriminate].
  intros H. injection H as <-. unfold remotes_of_output.
  assert (Hnil : seen_ok []) by (split; constructor).
  destruct (remote_fold_spec (splitlines raw) [] Hnil) as [Hok Hk].
  rewrite (seen_names _ Hok). split; [apply Hok | ].
  exists raw. split; auto.
  intros n. rewrite Hk. simpl. tauto.
Qed.

Lemma list_remotes_names_witness :
  let text := unlines ["origin" ++ TAB ++ "https://example.org/a.git (fetch)";
                       "origin" ++ TAB ++ "ssh://example.org/a.git (push)";
                       "backup" ++ TAB ++ "/srv/git/a.git (fetch)";
                       "backup" ++ TAB ++ "/srv/git/a.git (push)"] in
  NoDup (map remote_name
             [mk_Remote "origin" "https://example.org/a.git" "ssh://example.org/a.git";
              mk_Remote "backup" "/srv/git/a.git" "/srv/git/a.git"]).
Proof.
  intros text.
  apply (proj1 (list_remotes_names (Sample.world (Completed 0 text "")) None
                  [mk_Remote "origin" "https://example.org/a.git"
                             "ssh://example.org/a.git";
                   mk_Remote "backup" "/srv/git/a.git" "/srv/git/a.git"]
                  eq_refl)).
Defined.

Lemma split_ws_go_word (w rest : string) (c : ascii) :
  forall cur,
    all (fun c => negb (isspace c)) w = true ->
    isspace c = true ->
    split_ws_go cur (w ++ String c rest)
    = if is_empty (cur ++ w) then split_ws_go EmptyString rest
      else (cur ++ w) :: split_ws_go EmptyString rest.
Proof.
  induction w as [|x w IH]; intros cur Hw Hc.
  - cbn [append split_ws_go]. rewrite Hc, sapp_nil_r. reflexivity.
  - simpl in Hw. apply andb_prop in Hw as [Hx Hw]. apply negb_true_iff in Hx.
    cbn [append split_ws_go]. rewrite Hx, (IH _ Hw Hc), snoc_sapp. reflexivity.
Qed.

Lemma split_ws_go_end (w : string) :
  forall cur,
    all (fun c => negb (isspace c)) w = true ->
    split_ws_go cur w = if is_empty (cur ++ w) then [] else [cur ++ w].
Proof.
  induction w as [|x w IH]; intros cur Hw.
  - cbn [split_ws_go]. now rewrite sapp_nil_r.
  - simpl in Hw. apply andb_prop in Hw as [Hx Hw]. apply negb_true_iff in Hx.
    cbn [split_ws_go]. rewrite Hx, (IH _ Hw), snoc_sapp. reflexivity.
Qed.

Lemma split_ws_three (a b c : string) (s1 s2 : ascii) :
  is_word a = true -> is_word b = true -> is_word c = true ->
  isspace s1 = true -> isspace s2 = true ->
  split_ws (a ++ String s1 (b ++ String s2 c)) = [a; b; c].
Proof.
  unfold is_word, truthy, split_ws.
  intros Ha Hb Hc H1 H2.
  apply andb_prop in Ha as [Na Wa]. apply andb_prop in Hb as [Nb Wb].
  apply andb_prop in Hc as [Nc Wc]. apply negb_true_iff in Na, Nb, Nc.
  rewrite (split_ws_go_word a _ s1 EmptyString Wa H1). cbn [append]. rewrite Na.
  rewrite (split_ws_go_word b _ s2 EmptyString Wb H2). cbn [append]. rewrite Nb.
  rewrite (split_ws_go_end c EmptyString Wc). cbn [append]. rewrite Nc.
  reflexivity.
Qed.

Lemma not_space_not_linebreak (c : ascii) :
  isspace c = false -> islinebreak c = false.
Proof.
  destruct c as [[] [] [] [] [] [] [] []]; intros H;
    try reflexivity; discriminate H.
Qed.

Lemma word_one_line (s : string) :
  all (fun c => negb (isspace c)) s = true -> one_line s = true.
Proof.
  unfold one_line. induction s as [|c s IH]; simpl; auto.
  intros H. apply andb_prop in H as [Hc Hs]. apply negb_true_iff in Hc.
  now rewrite (not_space_not_linebreak c Hc), IH.
Qed.

Lemma seen_update_last (name : string) (f : Remote -> Remote)
      (seen : seen_dict) (r : Remote) :
  ~ In name (map fst seen) ->
  seen_update name f (seen ++ [(name, r)])%list = (seen ++ [(name, f r)])%list.
Proof.
  induction seen as [|[k r0] rest IH]; simpl; intros H.
  - now rewrite String.eqb_refl.
  - destruct (String.eqb k name) eqn:E.
    + apply String.eqb_eq in E. tauto.
    + f_equal. apply IH. tauto.
Qed.

Lemma seen_has_last (name : string) (seen : seen_dict) (r : Remote) :
  seen_has name (seen ++ [(name, r)])%list = true.
Proof.
  apply seen_has_spec. rewrite map_app, in_app_iff. simpl. auto.
Qed.

Lemma remote_pair_steps (seen : seen_dict) (r : Remote) :
  remote_ok r = true ->
  ~ In (remote_name r) (map fst seen) ->
  remote_step (remote_step seen (fetch_line r)) (push_line r)
  = (seen ++ [(remote_name r, r)])%list.
Proof.
  intros Hok Hnew. unfold remote_ok in Hok.
  apply andb_prop in Hok as [Hok Hp]. apply andb_prop in Hok as [Hn Hf].
  assert (Hs : seen_has (remote_name r) seen = false).
  { destruct (seen_has (remote_name r) seen) eqn:E; auto.
    apply seen_has_spec in E. contradiction. }
  unfold remote_step at 2. unfold fetch_line.
  rewrite (split_ws_three _ _ "(fetch)" "009" " " Hn Hf eq_refl eq_refl eq_refl).
  cbv zeta. rewrite Hs. cbn [negb].
  change (String.eqb (strip_chars "()" "(fetch)") "fetch") with true. cbv iota.
  rewrite (seen_update_last _ _ _ _ Hnew).
  unfold remote_step, push_line.
  rewrite (split_ws_three _ _ "(push)" "009" " " Hn Hp eq_refl eq_refl eq_refl).
  cbv zeta. rewrite seen_has_last. cbn [negb].
  change (String.eqb (strip_chars "()" "(push)") "fetch") with false.
  change (String.eqb (strip_chars "()" "(push)") "push") with true. cbv iota.
  rewrite (seen_update_last _ _ _ _ Hnew).
  destruct r. reflexivity.
Qed.

Lemma remote_lines_fold (rs : list Remote) :
  forall seen,
    forallb remote_ok rs = true ->
    NoDup (map remote_name rs) ->
    (forall r, In r rs -> ~ In (remote_name r) (map fst seen)) ->
    fold_left remote_step (flat_map remote_lines rs) seen
    = (seen ++ map (fun r => (remote_name r, r)) rs)%list.
Proof.
  induction rs as [|r rest IH]; intros seen Hok Hnd Hnew.
  - simpl. now rewrite app_nil_r.
  - simpl in Hok. apply andb_prop in Hok as [Hr Hrest].
    inversion Hnd as [|? ? Hnotin Hnd']; subst.
    cbn [flat_map remote_lines app fold_left].
    rewrite remote_pair_steps; [ | exact Hr | apply Hnew; left; reflexivity].
    rewrite IH; auto.
    + rewrite <- app_assoc. reflexivity.
    + intros r' Hin. rewrite map_app, in_app_iff. simpl.
      intros [H | [H | []]].
      * apply (Hnew r'); [right; exact Hin | exact H].
      * apply Hnotin. rewrite H. now apply in_map.
Qed.

Lemma remote_lines_one_line (rs : list Remote) :
  forallb remote_ok rs = true ->
  Forall (fun l => one_line l = true) (flat_map remote_lines rs).
Proof.
  induction rs as [|r rest IH]; simpl; intros H; [constructor | ].
  apply andb_prop in H as [Hr Hrest]. unfold remote_ok in Hr.
  apply andb_prop in Hr as [Hr Hp]. apply andb_prop in Hr as [Hn Hf].
  unfold is_word in *.
  apply andb_prop in Hn as [_ Hn]. apply andb_prop in Hf as [_ Hf].
  apply andb_prop in Hp as [_ Hp].
  apply word_one_line in Hn, Hf, Hp. unfold one_line in *.
  constructor; [ | constructor; [ | now apply IH]].
  - unfold fetch_line.
    change (String "009" (fetch_url r ++ String " " "(fetch)"))
      with (String "009" "" ++ (fetch_url r ++ String " " "(fetch)")).
    now rewrite !all_sapp, Hn, Hf.
  - unfold push_line.
    change (String "009" (push_url r ++ String " " "(push)"))
      with (String "009" "" ++ (push_url r ++ String " " "(push)")).
    now rewrite !all_sapp, Hn, Hp.
Qed.

(** X18. When git exits 0 and prints, for each remote, a fetch line and a
    push line ([name<TAB>url (fetch)], [name<TAB>url (push)]), with distinct
    names and with names and URLs that are non-empty and free of whitespace,
    [list_remotes] returns exactly those remotes in that order, each with
    its own fetch and push URL. *)
Theorem list_remotes_round_trip
        (w : World) (repo_path : option string)
        (cwd : string) (remotes : list Remote) (stderr : string) :
  _resolve_repo w repo_path = Ok cwd ->
  forallb remote_ok remotes = true ->
  NoDup (map remote_name remotes) ->
  subprocess_run w [] ["git"; "-C"; cwd; "remote"; "-v"] (git_env w) 30
  = Completed 0 (unlines (flat_map remote_lines remotes)) stderr ->
  fst (exec (list_remotes w repo_path)) = Ok remotes.
Proof.
  intros Hr Hok Hnd Hrun. unfold list_remotes.
  rewrite exec_run_git_then, run_git_exec, Hr. cbv zeta.
  change _GIT_TIMEOUT with 30%Z. cbn [app]. rewrite Hrun. cbn [fst negb Z.eqb].
  f_equal. unfold remotes_of_output.
  rewrite splitlines_unlines by (now apply remote_lines_one_line).
  rewrite remote_lines_fold; auto.
  cbn [app]. rewrite map_map. cbn [snd]. apply map_id.
Qed.

Lemma list_remotes_round_trip_witness :
  let r1 := mk_Remote "origin" "https://example.org/a.git" "ssh://example.org/a.git" in
  let r2 := mk_Remote "backup" "/srv/git/a.git" "/srv/git/a.git" in
  fst (exec (list_remotes
               (Sample.world
                  (Completed 0 (unlines (flat_map remote_lines [r1; r2])) ""))
               None))
  = Ok [r1; r2].
Proof.
  intros r1 r2.
  apply (list_remotes_round_trip
           (Sample.world (Completed 0 (unlines (flat_map remote_lines [r1; r2])) ""))
           None "/repo" [r1; r2] "" eq_refl eq_refl).
  - repeat constructor; simpl; intuition discriminate.
  - reflexivity.
Defined.

(** ** Diagnosis, continued *)

Lemma last_or_cons {A} (x : A) (l : list A) (default : option A) :
  last_or (x :: l) default = last_or l (Some x).
Proof.
  unfold last_or. revert x default.
  induction l as [|y l IH]; intros x default; auto.
  change (last (map Some (x :: y :: l)) default)
    with (last (map Some (y :: l)) default).
  rewrite (IH y default). symmetry. apply IH.
Qed.

Lemma scan_lines_last (lines : list string) :
  forall auto_fix0 clean0,
    fst (scan_lines lines auto_fix0 clean0)
    = last_or (safe_candidates lines) auto_fix0.
Proof.
  induction lines as [|line rest IH]; intros auto_fix0 clean0; auto.
  cbn [scan_lines]. unfold safe_candidates. cbn [filter].
  destruct (startswith AUTO_FIX_MARK line) eqn:M.
  - cbn [map filter]. fold (candidate_of line).
    destruct (_is_safe_auto_fix (candidate_of line)) eqn:S.
    + rewrite IH. fold (safe_candidates rest). now rewrite last_or_cons.
    + apply IH.
  - apply IH.
Qed.

Lemma last_or_from {A} (l : list A) :
  forall (default : option A) (x : A),
    last_or l default = Some x -> In x l \/ default = Some x.
Proof.
  induction l as [|y l IH]; intros default x.
  - intros H. right. exact H.
  - rewrite last_or_cons. intros H. apply IH in H as [H | H].
    + left. now right.
    + injection H as ->. left. now left.
Qed.

Lemma last_or_in {A} (l : list A) (x : A) :
  last_or l None = Some x -> In x l.
Proof.
  intros H. apply last_or_from in H as [H | H]; [exact H | discriminate].
Qed.

(** X19. The [auto_fix] of a diagnosis is the last line of the response
    that starts with [AUTO_FIX:] and whose command passes the whitelist, and
    [None] when there is no such line.  Whatever is offered is a trimmed
    command that starts with [git]. *)
Theorem auto_fix_last_safe_candidate
        (w : World) (error_output : string) (context : option string)
        (d : Diagnosis) :
  diagnose_error w error_output context = Ok d ->
  exists raw,
    call_gemini w (diagnosis_prompt error_output context) _MEDIC_SYSTEM_PROMPT
    = Ok raw
    /\ auto_fix d = last_or (safe_candidates (splitlines raw)) None
    /\ forall c, auto_fix d = Some c ->
                 strip c = c
                 /\ startswith "git " c = true
                 /\ exists line, In line (splitlines raw)
                                 /\ startswith AUTO_FIX_MARK line = true
                                 /\ c = candidate_of line.
Proof.
  unfold diagnose_error.
  destruct (is_empty (strip error_output)); [discriminate | ]. cbv zeta.
  destruct (call_gemini w _ _MEDIC_SYSTEM_PROMPT) as [raw | e]; [ | discriminate].
  cbn [rbind]. intros H. injection H as <-. exists raw. split; auto.
  assert (E : auto_fix (diagnosis_of_response raw)
              = last_or (safe_candidates (splitlines raw)) None).
  { unfold diagnosis_of_response.
    rewrite <- (scan_lines_last (splitlines raw) None []).
    destruct (scan_lines (splitlines raw) None []) as [af cl].
    destruct (explain cl). reflexivity. }
  split; [exact E | ].
  intros c Hc. rewrite E in Hc. apply last_or_in in Hc.
  unfold safe_candidates in Hc. apply filter_In in Hc as [Hin Hsafe].
  apply in_map_iff in Hin as (line & <- & Hl). apply filter_In in Hl as [Hl Hm].
  split; [apply strip_fixed | split].
  - unfold _is_safe_auto_fix in Hsafe.
    apply existsb_exists in Hsafe as (pattern & Hp & Hmatch).
    unfold candidate_of in *. rewrite strip_fixed in Hmatch.
    eapply safe_pattern_names_git; eauto.
  - now exists line.
Qed.

Lemma auto_fix_last_safe_candidate_witness :
  exists raw,
    call_gemini Sample.ok_world (diagnosis_prompt "fatal: not up to date" None)
                _MEDIC_SYSTEM_PROMPT = Ok raw
    /\ auto_fix (diagnosis_of_response Sample.response_text)
       = last_or (safe_candidates (splitlines raw)) None
    /\ forall c, auto_fix (diagnosis_of_response Sample.response_text) = Some c ->
                 strip c = c
                 /\ startswith "git " c = true
                 /\ exists line, In line (splitlines raw)
                                 /\ startswith AUTO_FIX_MARK line = true
                                 /\ c = candidate_of line.
Proof.
  apply (auto_fix_last_safe_candidate Sample.ok_world "fatal: not up to date" None).
  reflexivity.
Defined.

(** X20. The prompt [diagnose_error] sends holds at most 3000 characters of
    the error output and 500 of the context: it is never longer than 3541
    characters, and capping the error output beforehand, as the request
    validator does, does not change it. *)
Theorem diagnosis_prompt_bounded (error_output : string) (context : option string) :
  String.length (diagnosis_prompt error_output context) <= 3541
  /\ startswith ("Git error output:" ++ NL ++ NL ++ take 3000 error_output)
                (diagnosis_prompt error_output context) = true
  /\ (forall v, validate_error error_output = Ok v ->
                diagnosis_prompt v context = diagnosis_prompt error_output context).
Proof.
  assert (T : forall n s, take n (take n s) = take n s).
  { induction n as [|n IH]; intros [|c s]; simpl; auto. now rewrite IH. }
  split; [ | split].
  - unfold diagnosis_prompt.
    pose proof (length_take 3000 error_output) as L1.
    assert (N : String.length NL = 1) by reflexivity.
    assert (G : String.length "Git error output:" = 17) by reflexivity.
    assert (C : String.length "Additional context: " = 20) by reflexivity.
    destruct context as [c | ].
    + pose proof (length_take 500 c) as L2.
      destruct (truthy c); rewrite !length_sapp, ?N, ?G, ?C; lia.
    + rewrite !length_sapp, N, G. lia.
  - unfold diagnosis_prompt.
    destruct context as [c | ]; [destruct (truthy c) | ].
    + apply startswith_sapp.
    + rewrite <- (sapp_nil_r (_ ++ _ ++ _ ++ take 3000 error_output)) at 2.
      apply startswith_sapp.
    + rewrite <- (sapp_nil_r (_ ++ _ ++ _ ++ take 3000 error_output)) at 2.
      apply startswith_sapp.
  - intros v. unfold validate_error.
    destruct (is_empty (strip error_output)); [discriminate | ].
    intros H. assert (Hv : take 3000 error_output = v) by congruence.
    subst v. unfold diagnosis_prompt. cbv zeta.
    now rewrite (T 3000 error_output).
Qed.

Lemma diagnosis_prompt_bounded_witness :
  String.length (diagnosis_prompt "fatal: bad object" (Some "on main")) <= 3541
  /\ diagnosis_prompt (take 3000 "fatal: bad object") (Some "on main")
     = diagnosis_prompt "fatal: bad object" (Some "on main").
Proof.
  split.
  - apply (proj1 (diagnosis_prompt_bounded "fatal: bad object" (Some "on main"))).
  - apply (proj2 (proj2 (diagnosis_prompt_bounded "fatal: bad object"
                                                   (Some "on main")))).
    reflexivity.
Defined.

(** ** Commit-message generation *)

Lemma no_tick_no_fence (s : string) :
  no_tick s = true -> startswith "```" s = false.
Proof.
  destruct s as [|c s]; [reflexivity | ].
  unfold no_tick. simpl. intros H. apply andb_prop in H as [Hc _].
  apply negb_true_iff in Hc. now rewrite Hc.
Qed.

Lemma sub_open_fence_plain (s : string) :
  no_tick s = true -> forall bol, sub_open_fence_go bol 0 s = s.
Proof.
  induction s as [|c s IH]; intros H bol; [reflexivity | ].
  cbn [sub_open_fence_go]. rewrite (no_tick_no_fence _ H), andb_false_r.
  f_equal. apply IH. unfold no_tick in *. simpl in H.
  apply andb_prop in H. tauto.
Qed.

Lemma sub_close_fence_plain (s : string) :
  no_tick s = true -> sub_close_fence_go 0 s = s.
Proof.
  induction s as [|c s IH]; intros H; [reflexivity | ].
  assert (Hs : no_tick s = true).
  { unfold no_tick in *. simpl in H. apply andb_prop in H. tauto. }
  cbn [sub_close_fence_go].
  rewrite (no_tick_no_fence _ H), (no_tick_no_fence _ Hs), andb_false_r.
  cbn [andb]. f_equal. auto.
Qed.

Lemma rstrip_snoc_space (t : string) (c : ascii) :
  isspace c = true -> rstrip (t ++ String c "") = rstrip t.
Proof.
  intros Hc. induction t as [|x t IH].
  - simpl. now rewrite Hc.
  - cbn [append rstrip]. now rewrite IH.
Qed.

Lemma strip_snoc_space (s : string) (c : ascii) :
  isspace c = true -> strip (s ++ String c "") = strip s.
Proof.
  intros Hc. unfold strip. induction s as [|x s IH].
  - simpl. now rewrite Hc.
  - cbn [append lstrip]. destruct (isspace x); [exact IH | ].
    change (String x (s ++ String c "")) with (String x s ++ String c "").
    now apply rstrip_snoc_space.
Qed.

Lemma lower_run_stop (lang rest : string) (c : ascii) :
  all is_lower lang = true -> is_lower c = false ->
  lower_run (lang ++ String c rest) = String.length lang.
Proof.
  intros Hl Hc. induction lang as [|x lang IH]; simpl.
  - now rewrite Hc.
  - simpl in Hl. apply andb_prop in Hl as [Hx Hl]. rewrite Hx. f_equal. auto.
Qed.

Lemma sub_open_fence_skip (p rest : string) (c : ascii) :
  forall bol,
    sub_open_fence_go bol (String.length (p ++ String c "")) (p ++ String c rest)
    = sub_open_fence_go (is_newline c) 0 rest.
Proof.
  induction p as [|x p IH]; intros bol; [reflexivity | ].
  cbn [append String.length sub_open_fence_go]. apply IH.
Qed.

Lemma sub_open_fence_body (body : string) :
  no_tick body = true ->
  forall bol,
    sub_open_fence_go bol 0 (body ++ String "010" "```") = body ++ NL.
Proof.
  induction body as [|c body IH]; intros H bol.
  - cbn [append sub_open_fence_go]. rewrite andb_false_r. reflexivity.
  - assert (Hb : no_tick body = true).
    { unfold no_tick in *. simpl in H. apply andb_prop in H. tauto. }
    assert (Hc : Ascii.eqb "`" c = false).
    { unfold no_tick in H. simpl in H. apply andb_prop in H as [Hc _].
      now apply negb_true_iff in Hc. }
    cbn [append sub_open_fence_go startswith]. rewrite Hc.
    cbn [andb]. rewrite andb_false_r. f_equal. now apply IH.
Qed.

Lemma drop_sapp (p s : string) : drop (String.length p) (p ++ s) = s.
Proof. induction p as [|x p IH]; simpl; auto. Qed.

(** X21. A reply of the model that holds no backtick is returned trimmed
    and otherwise unchanged; a reply wrapped in a code fence (three
    backticks, an optional lower-case language tag, the text, three
    backticks on a line of their own) gives the trimmed text inside the
    fence; and a blank diff raises [ValueError] whatever the model would
    answer. *)
Theorem generate_commit_message_cleans
        (w : World) (system_prompt : string) (diff : string) :
  (strip diff = EmptyString ->
   generate_commit_message w system_prompt diff
   = Raise (ValueError "No staged changes to generate a message for."))
  /\ (forall raw,
         strip diff <> EmptyString ->
         call_gemini w (commit_prompt diff) system_prompt = Ok raw ->
         no_tick raw = true ->
         generate_commit_message w system_prompt diff = Ok (strip raw))
  /\ (forall lang body,
         strip diff <> EmptyString ->
         call_gemini w (commit_prompt diff) system_prompt
         = Ok ("```" ++ lang ++ NL ++ body ++ NL ++ "```") ->
         all is_lower lang = true ->
         no_tick body = true ->
         generate_commit_message w system_prompt diff = Ok (strip body)).
Proof.
  unfold generate_commit_message. split; [ | split].
  - intros ->. reflexivity.
  - intros raw Hne Hg Ht. apply is_empty_false in Hne. rewrite Hne, Hg.
    cbn [rbind]. f_equal. unfold clean_commit_message, sub_open_fence, sub_close_fence.
    now rewrite sub_open_fence_plain, sub_close_fence_plain.
  - intros lang body Hne Hg Hl Ht. apply is_empty_false in Hne. rewrite Hne, Hg.
    cbn [rbind]. f_equal. unfold clean_commit_message.
    assert (E : sub_open_fence ("```" ++ lang ++ NL ++ body ++ NL ++ "```")
                = body ++ NL).
    { unfold sub_open_fence.
      change ("```" ++ lang ++ NL ++ body ++ NL ++ "```")
        with (String "`" ("``" ++ lang ++ String "010" (body ++ String "010" "```"))).
      cbn [sub_open_fence_go andb].
      change (startswith "```"
                (String "`" ("``" ++ lang
                                  ++ String "010" (body ++ String "010" "```"))))
        with true.
      cbv iota.
      assert (N : open_fence_len
                    (String "`" ("``" ++ lang
                                      ++ String "010" (body ++ String "010" "```")))
                  = S (String.length (("``" ++ lang) ++ String "010" ""))).
      { unfold open_fence_len.
        change (drop 3 (String "`" ("``" ++ lang
                                         ++ String "010" (body ++ String "010" "```"))))
          with (lang ++ String "010" (body ++ String "010" "```")).
        rewrite (lower_run_stop lang _ "010" Hl eq_refl).
        change (drop (3 + String.length lang)
                     (String "`" ("``" ++ lang
                                       ++ String "010" (body ++ String "010" "```"))))
          with (drop (String.length lang)
                     (lang ++ String "010" (body ++ String "010" "```"))).
        rewrite drop_sapp. change (is_newline "010") with true. cbv iota.
        rewrite !length_sapp.
        change (String.length "``") with 2.
        change (String.length (String "010" "")) with 1. lia. }
      rewrite N. cbn [Nat.sub]. rewrite Nat.sub_0_r.
      rewrite <- (sapp_assoc "``" lang (String "010" (body ++ String "010" "```"))).
      rewrite sub_open_fence_skip. now apply sub_open_fence_body. }
    rewrite E. unfold sub_close_fence.
    rewrite sub_close_fence_plain.
    + apply strip_snoc_space. reflexivity.
    + unfold no_tick in *. rewrite all_sapp, Ht. reflexivity.
Qed.

Lemma generate_commit_message_cleans_witness :
  generate_commit_message Sample.ok_world "system" ("  " ++ NL)
  = Raise (ValueError "No staged changes to generate a message for.")
  /\ generate_commit_message
       (mk_World (fun p => Returns p) (fun _ => Returns true)
                 (fun p n => p ++ "/" ++ n)
                 (fun _ => None) (fun _ _ _ _ => TimeoutExpired)
                 (fun _ _ => Ok ("```text" ++ NL ++ "fix: trim input " ++ NL ++ "```"))
                 ".")
       "system" "diff --git a/x b/x"
     = Ok "fix: trim input".
Proof.
  split.
  - apply (proj1 (generate_commit_message_cleans Sample.ok_world "system"
                    ("  " ++ NL))).
    reflexivity.
  - apply (proj2 (proj2 (generate_commit_message_cleans _ "system"
                           "diff --git a/x b/x"))
             "text" "fix: trim input ");
      (discriminate || reflexivity).
Defined.

(** ** Routes *)

(** X22. The commit-message route answers 400 with the text of the
    [ValueError] when the staged diff git printed is blank (and within the
    size limit), after that one [git diff --cached] process and whatever the
    model would answer.  An error of [run_git] that is no [ValueError] (the
    errors of the path resolver and every [GitCommandError] among them) is
    not turned into a 400 but raised as it is; one that is a [ValueError]
    is a builtin exception (a NUL in the repository path, a diff that
    cannot be decoded) and is answered with a 400 carrying its text. *)
Theorem ai_commit_message_replies
        (w : World) (max_bytes : nat) (notice system_prompt : string)
        (repo_path : option string) (tr : list argv) :
  (forall diff,
      exec (run_git w ["diff"; "--cached"] repo_path) = (Ok diff, tr) ->
      strip diff = EmptyString ->
      String.length diff <= max_bytes ->
      exec (ai_commit_message w max_bytes notice system_prompt repo_path)
      = (Ok (BadRequest "No staged changes to generate a message for."), tr))
  /\ (forall e,
         exec (run_git w ["diff"; "--cached"] repo_path) = (Raise e, tr) ->
         is_value_error (exn_class_of e) = false ->
         exec (ai_commit_message w max_bytes notice system_prompt repo_path)
         = (Raise e, tr))
  /\ (forall e,
         exec (run_git w ["diff"; "--cached"] repo_path) = (Raise e, tr) ->
         exn_class_of e = K_GitCommandError \/ exn_class_of e = K_InvalidPathError
         \/ exn_class_of e = K_RepoNotFoundError ->
         exec (ai_commit_message w max_bytes notice system_prompt repo_path)
         = (Raise e, tr))
  /\ (forall e,
         exec (run_git w ["diff"; "--cached"] repo_path) = (Raise e, tr) ->
         is_value_error (exn_class_of e) = true ->
         exec (ai_commit_message w max_bytes notice system_prompt repo_path)
         = (Ok (BadRequest (exn_message e)), tr)
         /\ exists b, e = builtin b).
Proof.
  unfold ai_commit_message, get_staged_diff, exec, bind, ret.
  split; [ | split; [ | split]].
  - intros diff Hrun Hblank Hlen. rewrite Hrun.
    apply Nat.ltb_ge in Hlen. rewrite Hlen.
    unfold generate_commit_message. rewrite Hblank. reflexivity.
  - intros e Hrun V. rewrite Hrun. unfold catch_value_error. now rewrite V.
  - intros e Hrun C. rewrite Hrun. unfold catch_value_error.
    destruct C as [C | [C | C]]; rewrite C; reflexivity.
  - intros e Hrun V. rewrite Hrun. unfold catch_value_error. rewrite V.
    split; [reflexivity | ].
    eapply run_git_value_error; [rewrite Hrun; reflexivity | exact V].
Qed.

Lemma ai_commit_message_replies_witness :
  exec (ai_commit_message (Sample.world (Completed 0 NL "")) 50 "[cut]" "system" None)
  = (Ok (BadRequest "No staged changes to generate a message for."),
     [["git"; "-C"; "/repo"; "diff"; "--cached"]])
  /\ exec (ai_commit_message (Sample.world (Completed 0 NL "")) 50 "[cut]" "system"
                             (Some "/tmp"))
     = (Raise (RepoNotFoundError None), [])
  /\ exec (ai_commit_message (Sample.world (Completed 0 NL "")) 50 "[cut]" "system"
                             (Some ("a" ++ NUL ++ "b")))
     = (Ok (BadRequest "embedded null byte"), []).
Proof.
  split; [ | split].
  - apply (proj1 (ai_commit_message_replies (Sample.world (Completed 0 NL ""))
                    50 "[cut]" "system" None
                    [["git"; "-C"; "/repo"; "diff"; "--cached"]]) NL).
    + reflexivity.
    + reflexivity.
    + simpl. lia.
  - apply (proj1 (proj2 (ai_commit_message_replies (Sample.world (Completed 0 NL ""))
                           50 "[cut]" "system" (Some "/tmp") []))).
    + reflexivity.
    + reflexivity.
  - apply (proj2 (proj2 (proj2 (ai_commit_message_replies
                                  (Sample.world (Completed 0 NL ""))
                                  50 "[cut]" "system" (Some ("a" ++ NUL ++ "b")) [])))
             (ValueError "embedded null byte")).
    + reflexivity.
    + reflexivity.
Defined.

(** X23. A remote name the request schema lets through is not empty, does
    not start with [-] and holds no space; the branch of a pull or push
    request is checked by nobody: whatever non-empty text it is, a leading
    [-] included, it reaches git as the argument after the remote. *)
Theorem remote_routes_pass_branch
        (w : World) (remote branch : string) (repo_path : option string)
        (cwd : string) :
  validate_remote remote = Ok remote ->
  branch <> EmptyString ->
  _resolve_repo w repo_path = Ok cwd ->
  (remote <> EmptyString /\ startswith "-" remote = false
   /\ contains " " remote = false)
  /\ snd (exec (post w do_pull remote (Some branch) repo_path))
     = [["git"; "-C"; cwd; "pull"; remote; branch]]
  /\ snd (exec (post w do_push remote (Some branch) repo_path))
     = [["git"; "-C"; cwd; "push"; remote; branch]].
Proof.
  intros Hv Hb Hr. split.
  - unfold validate_remote in Hv.
    destruct (is_empty remote) eqn:E0; [discriminate | ].
    destruct (startswith "-" remote) eqn:E1; [discriminate | ].
    destruct (contains " " remote) eqn:E2; [discriminate | ].
    apply is_empty_false in E0. auto.
  - unfold post, make_request, do_pull, do_push, pull, push, exec, bind, lift.
    rewrite Hv. cbn [rbind req_remote req_branch req_repo_path opt_arg].
    apply is_empty_false in Hb. unfold truthy. rewrite Hb. cbn [negb app].
    rewrite !run_git_from, Hr. split; reflexivity.
Qed.

Lemma remote_routes_pass_branch_witness :
  snd (exec (post Sample.ok_world do_pull "origin"
                  (Some "--upload-pack=touch /tmp/x") None))
  = [["git"; "-C"; "/repo"; "pull"; "origin"; "--upload-pack=touch /tmp/x"]].
Proof.
  apply (proj1 (proj2 (remote_routes_pass_branch
                         Sample.ok_world "origin" "--upload-pack=touch /tmp/x"
                         None "/repo" eq_refl ltac:(discriminate) eq_refl))).
Defined.

(** ** Decimal numbers *)

Lemma digits_go_uint (u : Decimal.uint) :
  forall acc prev,
    digits_go acc prev (NilEmpty.string_of_uint u)
    = match u with
      | Decimal.Nil => if prev then Some acc else None
      | _ => Some (uint_val acc u)
      end.
Proof.
  induction u as [ |l IH|l IH|l IH|l IH|l IH|l IH|l IH|l IH|l IH|l IH];
    intros acc prev; [reflexivity | ..];
    cbn [NilEmpty.string_of_uint digits_go uint_val];
    (match goal with
     | |- context [isdigit ?c] => change (isdigit c) with true
     end);
    cbv iota; rewrite IH; destruct l; reflexivity.
Qed.

Lemma uint_val_pos (u : Decimal.uint) :
  forall a : positive, uint_val (Z.pos a) u = Z.pos (Pos.of_uint_acc u a).
Proof.
  induction u as [ |l IH|l IH|l IH|l IH|l IH|l IH|l IH|l IH|l IH|l IH];
    intros a; [reflexivity | ..];
    cbn [uint_val Pos.of_uint_acc]; rewrite <- IH; f_equal; lia.
Qed.

Lemma uint_val_of_uint (u : Decimal.uint) :
  uint_val 0 u = Z.of_N (Pos.of_uint u).
Proof.
  induction u as [ |l IH|l IH|l IH|l IH|l IH|l IH|l IH|l IH|l IH|l IH];
    [reflexivity | exact IH | ..];
    cbn [uint_val Pos.of_uint Z.of_N]; rewrite <- uint_val_pos; reflexivity.
Qed.

Lemma digits_of_uint (u : Decimal.uint) :
  all isdigit (NilEmpty.string_of_uint u) = true.
Proof.
  induction u; simpl; auto.
Qed.

(** Printing a count gives its digits, which read back as the count. *)
Lemma digits_str_of_int (n : Z) :
  (0 <= n)%Z ->
  digits_go 0 false (str_of_int n) = Some n
  /\ all isdigit (str_of_int n) = true
  /\ str_of_int n <> EmptyString.
Proof.
  intros Hn. unfold str_of_int. destruct n as [ |p|p]; [ | | lia].
  - repeat split. discriminate.
  - cbn [Z.to_int NilZero.string_of_int].
    pose proof (DecimalPos.Unsigned.of_to p) as E.
    pose proof (uint_val_of_uint (Pos.to_uint p)) as V. rewrite E in V.
    cbn [Z.of_N] in V.
    pose proof (digits_go_uint (Pos.to_uint p) 0 false) as D.
    pose proof (digits_of_uint (Pos.to_uint p)) as G.
    destruct (Pos.to_uint p) as [ |l|l|l|l|l|l|l|l|l|l] eqn:U;
      [discriminate E | ..];
      cbn [NilZero.string_of_uint];
      (split; [ | split; [exact G | discriminate]]);
      rewrite <- V; exact D.
Qed.

Lemma scan_run_digits (a : string) :
  all isdigit a = true ->
  forall d, scan_run d false a = Some (d + String.length a).
Proof.
  induction a as [|c a IH]; intros H d; cbn [scan_run String.length].
  - f_equal. lia.
  - simpl in H. apply andb_prop in H as [Hc Ha]. rewrite Hc.
    rewrite (IH Ha). f_equal. lia.
Qed.

Lemma digit_head (c : ascii) (a : string) :
  isdigit c = true ->
  unsigned (String c a) = String c a /\ startswith "_" (String c a) = false.
Proof.
  destruct c as [[] [] [] [] [] [] [] []]; intros H;
    try discriminate H; split; reflexivity.
Qed.

(** [int()] on a run of digits: the digit limit, then the value. *)
Lemma int_of_digits (a : string) :
  all isdigit a = true -> a <> EmptyString ->
  over_digit_limit a
  = (if (int_max_str_digits <? String.length a)%nat then Some (String.length a)
     else None)
  /\ int a
     = (if (int_max_str_digits <? String.length a)%nat then None
        else digits_go 0 false a).
Proof.
  intros Ha Hne. destruct a as [|c a]; [contradiction | ].
  pose proof Ha as Ha'. simpl in Ha'. apply andb_prop in Ha' as [Hc _].
  destruct (digit_head c a Hc) as [U S].
  assert (O : over_digit_limit (String c a)
              = (if (int_max_str_digits <? String.length (String c a))%nat
                 then Some (String.length (String c a)) else None)).
  { unfold over_digit_limit. rewrite U, S.
    rewrite (scan_run_digits _ Ha 0). reflexivity. }
  split; [exact O | ].
  unfold int. rewrite O.
  destruct (int_max_str_digits <? String.length (String c a))%nat; [reflexivity | ].
  destruct c as [[] [] [] [] [] [] [] []]; try discriminate Hc; reflexivity.
Qed.

(** Printing a count and reading it back, within the digit limit. *)
Lemma int_str_of_int (n : Z) :
  (0 <= n)%Z ->
  int (str_of_int n)
  = (if (int_max_str_digits <? String.length (str_of_int n))%nat then None
     else Some n)
  /\ all isdigit (str_of_int n) = true
  /\ str_of_int n <> EmptyString.
Proof.
  intros Hn. destruct (digits_str_of_int n Hn) as (D & G & N).
  destruct (int_of_digits _ G N) as [_ I].
  rewrite I, D. auto.
Qed.

(** ** The status header with counts *)

Lemma all_impl (p q : ascii -> bool) (s : string) :
  (forall c, p c = true -> q c = true) -> all p s = true -> all q s = true.
Proof.
  intros Hpq. induction s as [|c s IH]; simpl; auto.
  intros H. apply andb_prop in H as [Hc Hs]. now rewrite (Hpq c Hc), IH.
Qed.

Lemma digit_not_space (c : ascii) : isdigit c = true -> negb (isspace c) = true.
Proof.
  destruct c as [[] [] [] [] [] [] [] []]; intros H;
    try reflexivity; discriminate H.
Qed.

Lemma digit_not_char (x : ascii) (c : ascii) :
  isdigit x = false -> isdigit c = true -> not_char x c = true.
Proof.
  intros Hx Hc. unfold not_char. destruct (Ascii.eqb x c) eqn:E; auto.
  apply Ascii.eqb_eq in E. congruence.
Qed.

Lemma index_char_first (c : ascii) (p rest : string) :
  all (not_char c) p = true ->
  index (String c "") (p ++ String c rest) = Some (String.length p).
Proof.
  induction p as [|x p IH]; intros H.
  - cbn [append index startswith]. now rewrite Ascii.eqb_refl.
  - simpl in H. apply andb_prop in H as [Hx Hp]. unfold not_char in Hx.
    apply negb_true_iff in Hx.
    cbn [append index startswith]. rewrite Hx. cbn [andb].
    now rewrite (IH Hp).
Qed.

Lemma contains_char_present (c : ascii) (p rest : string) :
  contains (String c "") (p ++ String c rest) = true.
Proof.
  induction p as [|x p IH].
  - cbn [append contains startswith]. now rewrite Ascii.eqb_refl.
  - cbn [append contains]. rewrite IH. apply orb_true_r.
Qed.

Lemma take_sapp (p s : string) : take (String.length p) (p ++ s) = p.
Proof. induction p as [|x p IH]; simpl; [now destruct s | now rewrite IH]. Qed.

Lemma split_dots_head (b rest : string) :
  all (not_char ".") b = true ->
  forall cur, hd EmptyString (split_go "..." None 0 cur (b ++ "..." ++ rest))
              = cur ++ b.
Proof.
  induction b as [|c b IH]; intros H cur.
  - cbn. now rewrite sapp_nil_r.
  - simpl in H. apply andb_prop in H as [Hc Hb]. unfold not_char in Hc.
    apply negb_true_iff in Hc.
    cbn [append split_go startswith]. rewrite Hc. cbn [andb].
    rewrite (IH Hb). apply snoc_sapp.
Qed.

Lemma rstrip_nonspace (a : string) :
  all (fun c => negb (isspace c)) a = true -> rstrip a = a.
Proof.
  induction a as [|x a IH]; intros H; [reflexivity | ].
  simpl in H. apply andb_prop in H as [Hx Ha]. apply negb_true_iff in Hx.
  cbn [rstrip]. rewrite (IH Ha). destruct a; [now rewrite Hx | reflexivity].
Qed.

Lemma rstrip_before_word (p a : string) :
  all (fun c => negb (isspace c)) a = true -> a <> EmptyString ->
  rstrip (p ++ a) = p ++ a.
Proof.
  intros Ha Hne. induction p as [|x p IH].
  - now apply rstrip_nonspace.
  - cbn [append rstrip]. rewrite IH.
    destruct (p ++ a) eqn:E; [ | reflexivity].
    destruct p; [simpl in E; contradiction | discriminate].
Qed.

Lemma count_segment (word : string) (a : string) (lead : string) :
  is_word word = true ->
  all (fun c => isspace c) lead = true ->
  all isdigit a = true -> a <> EmptyString ->
  strip (lead ++ word ++ String " " a) = word ++ String " " a
  /\ int_of_last_word (word ++ String " " a)
     = match int a with Some n => Ok n | None => Raise (int_error a) end.
Proof.
  intros Hw Hlead Hdig Hne.
  assert (Hns : all (fun c => negb (isspace c)) a = true)
    by (eapply all_impl; [apply digit_not_space | exact Hdig]).
  unfold is_word in Hw. apply andb_prop in Hw as [Hwne Hww].
  split.
  - unfold strip.
    assert (L : lstrip (lead ++ word ++ String " " a) = word ++ String " " a).
    { induction lead as [|x lead IH]; cbn [append].
      - destruct word as [|y word]; [discriminate | ].
        simpl in Hww. apply andb_prop in Hww as [Hy _].
        apply negb_true_iff in Hy. cbn [append lstrip]. now rewrite Hy.
      - simpl in Hlead. apply andb_prop in Hlead as [Hx Hl].
        cbn [lstrip]. rewrite Hx. auto. }
    rewrite L.
    change (word ++ String " " a) with (word ++ (String " " "" ++ a)).
    rewrite <- sapp_assoc. now apply rstrip_before_word.
  - unfold int_of_last_word, split_ws.
    rewrite (split_ws_go_word word a " " EmptyString Hww eq_refl).
    cbn [append]. unfold truthy in Hwne. apply negb_true_iff in Hwne.
    rewrite Hwne. rewrite (split_ws_go_end a EmptyString Hns). cbn [append].
    apply is_empty_false in Hne. rewrite Hne.
    reflexivity.
Qed.

Lemma parse_header_marked (header : string) (rest : list string) :
  parse_header (("## " ++ header) :: rest)
  = if contains "[" header then
      match index "[" header, index "]" header with
      | Some i, Some j =>
          rbind (scan_segments (split "," (slice (i + 1) j header)) (0%Z, 0%Z))
                (fun ab => Ok (hd EmptyString (split "..." header), ab))
      | _, _ => Raise (ValueError "substring not found")
      end
    else Ok (hd EmptyString (split "..." header), (0%Z, 0%Z)).
Proof. reflexivity. Qed.

Lemma bracket_slice (p info tail : string) :
  slice (String.length p + 1) (String.length (p ++ String "[" info))
        (p ++ String "[" (info ++ tail))
  = info.
Proof.
  unfold slice. induction p as [|x p IH].
  - cbn [append String.length Nat.add drop Nat.sub].
    rewrite Nat.sub_0_r. apply take_sapp.
  - cbn [append String.length Nat.add drop Nat.sub]. exact IH.
Qed.

Lemma scan_counts (a b : string) :
  all isdigit a = true -> a <> EmptyString ->
  all isdigit b = true -> b <> EmptyString ->
  scan_segments (split "," ("ahead " ++ a ++ ", behind " ++ b)) (0%Z, 0%Z)
  = match int a with
    | Some n =>
        match int b with
        | Some m => Ok (n, m)
        | None => Raise (int_error b)
        end
    | None => Raise (int_error a)
    end.
Proof.
  intros Da Na Db Nb.
  assert (Ca : all (not_char ",") ("ahead " ++ a) = true).
  { rewrite all_sapp. cbn [all not_char Ascii.eqb Bool.eqb negb andb].
    eapply all_impl; [intros c; apply digit_not_char; reflexivity | exact Da]. }
  assert (Cb : all (not_char ",") (" behind " ++ b) = true).
  { rewrite all_sapp. cbn [all not_char Ascii.eqb Bool.eqb negb andb].
    eapply all_impl; [intros c; apply digit_not_char; reflexivity | exact Db]. }
  assert (E : "ahead " ++ a ++ ", behind " ++ b
              = ("ahead " ++ a) ++ String "," "" ++ (" behind " ++ b)).
  { rewrite !sapp_assoc. reflexivity. }
  rewrite E. unfold split.
  rewrite (split_go_field "," _ _ EmptyString Ca).
  rewrite (split_go_clean "," _ EmptyString Cb).
  change ("" ++ ("ahead " ++ a)) with ("ahead " ++ a).
  change ("" ++ (" behind " ++ b)) with (" behind " ++ b).
  cbn [scan_segments].
  destruct (count_segment "ahead" a EmptyString eq_refl eq_refl Da Na)
    as [S1 L1].
  destruct (count_segment "behind" b " " eq_refl eq_refl Db Nb)
    as [S2 L2].
  change ("" ++ "ahead" ++ String " " a) with ("ahead " ++ a) in S1.
  change ("ahead" ++ String " " a) with ("ahead " ++ a) in S1, L1.
  change (" " ++ "behind" ++ String " " b) with (" behind " ++ b) in S2.
  change ("behind" ++ String " " b) with ("behind " ++ b) in S2, L2.
  rewrite S1. change (startswith "ahead" ("ahead " ++ a)) with true. cbv iota.
  rewrite L1. destruct (int a) as [n | ]; [ | reflexivity].
  cbn [rbind scan_segments].
  rewrite S2. change (startswith "ahead" ("behind " ++ b)) with false.
  change (startswith "behind" ("behind " ++ b)) with true. cbv iota.
  rewrite L2. destruct (int b) as [m | ]; reflexivity.
Qed.

(** X24. When the first line git printed is
    [## <branch>...<upstream> [ahead N, behind M]] with counts [N] and [M]
    that are not negative, a branch name without dots or square brackets
    and an upstream without square brackets, [get_status] returns that
    branch name and those counts, whatever they are, as long as each has at
    most 4300 digits, the limit of [int()]; when [N] has more, [get_status]
    raises the [ValueError] of [int()] instead. *)
Theorem status_header_counts
        (w : World) (repo_path : option string) (raw : string) (tr : list argv)
        (b u : string) (n m : Z) (rest : list string) :
  exec (run_git w ["status"; "--porcelain=v1"; "--branch"] repo_path) = (Ok raw, tr) ->
  splitlines raw = header_line b u n m :: rest ->
  all branch_char b = true ->
  all upstream_char u = true ->
  (0 <= n)%Z -> (0 <= m)%Z ->
  (String.length (str_of_int n) <= int_max_str_digits ->
   String.length (str_of_int m) <= int_max_str_digits ->
   exists st,
     exec (get_status w repo_path) = (Ok st, tr)
     /\ branch st = b /\ ahead st = n /\ behind st = m)
  /\ (int_max_str_digits < String.length (str_of_int n) ->
      exec (get_status w repo_path) = (Raise (int_error (str_of_int n)), tr)
      /\ over_digit_limit (str_of_int n) = Some (String.length (str_of_int n))).
Proof.
  intros Hrun Hlines Hb Hu Hn Hm.
  destruct (int_str_of_int n Hn) as (Ia & Da & Na).
  destruct (int_str_of_int m Hm) as (Ib & Db & Nb).
  destruct (int_of_digits _ Da Na) as [Oa _].
  set (A := str_of_int n) in *. set (B := str_of_int m) in *.
  set (info := "ahead " ++ A ++ ", behind " ++ B).
  set (P1 := b ++ "..." ++ u ++ " ").
  assert (Hdot : all (not_char ".") b = true).
  { eapply all_impl; [ | exact Hb]. intros c Hc. unfold branch_char in Hc.
    apply andb_prop in Hc as [Hc _]. apply andb_prop in Hc. tauto. }
  assert (Hbo : all (not_char "[") b = true).
  { eapply all_impl; [ | exact Hb]. intros c Hc. unfold branch_char in Hc.
    apply andb_prop in Hc as [Hc _]. apply andb_prop in Hc. tauto. }
  assert (Hbc : all (not_char "]") b = true).
  { eapply all_impl; [ | exact Hb]. intros c Hc. unfold branch_char in Hc.
    apply andb_prop in Hc. tauto. }
  assert (Huo : all (not_char "[") u = true).
  { eapply all_impl; [ | exact Hu]. intros c Hc. unfold upstream_char in Hc.
    apply andb_prop in Hc. tauto. }
  assert (Huc : all (not_char "]") u = true).
  { eapply all_impl; [ | exact Hu]. intros c Hc. unfold upstream_char in Hc.
    apply andb_prop in Hc. tauto. }
  assert (DAc : all (not_char "]") A = true).
  { eapply all_impl; [intros c; apply digit_not_char; reflexivity | exact Da]. }
  assert (DBc : all (not_char "]") B = true).
  { eapply all_impl; [intros c; apply digit_not_char; reflexivity | exact Db]. }
  assert (E1 : header_line b u n m
               = "## " ++ (P1 ++ String "[" (info ++ String "]" ""))).
  { unfold header_line, P1, info. fold A B. rewrite !sapp_assoc. reflexivity. }
  assert (E2 : P1 ++ String "[" (info ++ String "]" "")
               = (P1 ++ String "[" info) ++ String "]" "").
  { rewrite sapp_assoc. reflexivity. }
  assert (E3 : P1 ++ String "[" (info ++ String "]" "")
               = b ++ "..." ++ (u ++ " " ++ String "[" (info ++ String "]" ""))).
  { unfold P1. rewrite !sapp_assoc. reflexivity. }
  assert (P : parse_header (splitlines raw)
              = match int A with
                | Some n' =>
                    match int B with
                    | Some m' => Ok (b, (n', m'))
                    | None => Raise (int_error B)
                    end
                | None => Raise (int_error A)
                end).
  { rewrite Hlines, E1, parse_header_marked.
    rewrite contains_char_present.
    rewrite index_char_first.
    2:{ unfold P1. rewrite !all_sapp, Hbo, Huo. reflexivity. }
    rewrite E2 at 1. rewrite index_char_first.
    2:{ unfold P1, info.
        change (String "[" ("ahead " ++ A ++ ", behind " ++ B))
          with (String "[" "" ++ ("ahead " ++ A ++ ", behind " ++ B)).
        rewrite !all_sapp, Hbc, Huc, DAc, DBc. reflexivity. }
    rewrite bracket_slice. unfold info at 1.
    rewrite (scan_counts A B Da Na Db Nb).
    rewrite E3. unfold split. rewrite (split_dots_head b _ Hdot).
    destruct (int A); [destruct (int B) | ]; reflexivity. }
  rewrite get_status_exec, Hrun. cbn [fst snd rbind].
  unfold status_of_output. cbv zeta. rewrite P. split.
  - intros La Lb.
    apply Nat.ltb_ge in La, Lb. rewrite La in Ia. rewrite Lb in Ib.
    rewrite Ia, Ib. cbn [rbind].
    eexists. split; [reflexivity | ]. repeat split.
  - intros La. apply Nat.ltb_lt in La. rewrite La in Ia, Oa.
    rewrite Ia. cbn [rbind]. split; [reflexivity | exact Oa].
Qed.

Lemma status_header_counts_witness :
  exists st,
    exec (get_status
            (Sample.world
               (Completed 0 (unlines [header_line "feature/login" "origin/feature/login"
                                                   12 340; " M app.py"]) ""))
            None)
    = (Ok st, [["git"; "-C"; "/repo"; "status"; "--porcelain=v1"; "--branch"]])
    /\ branch st = "feature/login" /\ ahead st = 12%Z /\ behind st = 340%Z.
Proof.
  apply (proj1 (status_header_counts
           (Sample.world
              (Completed 0 (unlines [header_line "feature/login" "origin/feature/login"
                                                  12 340; " M app.py"]) ""))
           None
           (unlines [header_line "feature/login" "origin/feature/login" 12 340;
                     " M app.py"])
           [["git"; "-C"; "/repo"; "status"; "--porcelain=v1"; "--branch"]]
           "feature/login" "origin/feature/login" 12 340 [" M app.py"]
           eq_refl eq_refl eq_refl eq_refl ltac:(lia) ltac:(lia)));
    vm_compute; lia.
Defined.

(** ** Settings *)

(** X25. A default repository path that went through the settings validator
    exists; when resolving it again gives the same path, a call without a
    repository path (or with an empty one) never fails with
    [InvalidPathError]: when the test for the [.git] entry answers, it
    returns that path, or fails with [RepoNotFoundError] for a path without
    the entry; and when that test itself raises, its builtin exception is
    what the call raises. *)
Theorem default_repo_path_resolves (w : World) (v : string) :
  validate_repo_path w v = Ok (DEFAULT_REPO_PATH w) ->
  fs_resolve w (DEFAULT_REPO_PATH w) = Returns (DEFAULT_REPO_PATH w) ->
  fs_exists w (DEFAULT_REPO_PATH w) = Returns true
  /\ _resolve_repo w (Some EmptyString) = _resolve_repo w None
  /\ (forall e, _resolve_repo w None = Raise e ->
                exn_class_of e <> K_InvalidPathError)
  /\ (forall has_git,
         fs_exists w (fs_join w (DEFAULT_REPO_PATH w) ".git") = Returns has_git ->
         (_resolve_repo w None = Ok (DEFAULT_REPO_PATH w)
          \/ _resolve_repo w None = Raise (RepoNotFoundError None))
         /\ (_resolve_repo w None = Ok (DEFAULT_REPO_PATH w) <-> has_git = true))
  /\ (forall b,
         fs_exists w (fs_join w (DEFAULT_REPO_PATH w) ".git") = Fails b ->
         _resolve_repo w None = Raise (builtin b)).
Proof.
  unfold validate_repo_path. intros Hv Hres.
  destruct (fs_resolve w v) as [p | b0]; cbn [of_answer rbind] in Hv;
    [ | discriminate].
  destruct (fs_exists w p) as [[] | b0] eqn:E; cbn [of_answer rbind negb] in Hv;
    try discriminate.
  injection Hv as Hp. subst p.
  split; [exact E | split; [reflexivity | ]].
  unfold _resolve_repo, or_default. rewrite Hres. cbn [of_answer rbind].
  rewrite E. cbn [of_answer rbind negb].
  destruct (fs_exists w (fs_join w (DEFAULT_REPO_PATH w) ".git")) as [[] | b1];
    cbn [of_answer rbind negb].
  - split; [intros e; discriminate | split; [ | intros b; discriminate]].
    intros has_git H. injection H as <-. split; [auto | tauto].
  - split; [intros e H; injection H as <-; discriminate | ].
    split; [ | intros b; discriminate].
    intros has_git H. injection H as <-. split; [auto | ].
    split; discriminate.
  - split; [intros e H; injection H as <-; destruct b1; discriminate | ].
    split; [intros has_git; discriminate | ].
    intros b H. injection H as <-. reflexivity.
Qed.

Lemma default_repo_path_resolves_witness :
  fs_exists (mk_World (fun p => Returns "/repo")
                      (fun p => Returns (String.eqb p "/repo"))
                      (fun p n => p ++ "/" ++ n) (fun _ => None)
                      (fun _ _ _ _ => FileNotFound) (fun _ _ => Ok "") "/repo")
            "/repo" = Returns true.
Proof.
  apply (proj1 (default_repo_path_resolves
                  (mk_World (fun p => Returns "/repo")
                            (fun p => Returns (String.eqb p "/repo"))
                            (fun p n => p ++ "/" ++ n) (fun _ => None)
                            (fun _ _ _ _ => FileNotFound) (fun _ _ => Ok "") "/repo")
                  "." eq_refl eq_refl)).
Defined.

(** ** The whitelist, continued *)

Lemma run_many1_word {A} (cl : Re.cls) (word rest : string)
      (k : bool -> string -> option A) (a : A) :
  word <> EmptyString ->
  all (in_cls cl) word = true ->
  k false rest = Some a ->
  forall start, exists a', run (Many1 cl) start (word ++ rest) k = Some a'.
Proof.
  intros Hne Hw Hk start. cbn [run].
  induction word as [|c word IH]; [contradiction | ].
  simpl in Hw. apply andb_prop in Hw as [Hc Hw].
  cbn [append]. rewrite Hc.
  destruct word as [|d word'].
  - cbn [append]. rewrite Hk.
    destruct ((fix go (s : string) : option A :=
                 match s with
                 | "" => None
                 | String c0 s' =>
                     if in_cls cl c0 then orelse (go s') (k false s') else None
                 end) rest) as [a0 | ]; cbn [orelse]; eauto.
  - destruct (IH ltac:(discriminate) Hw) as (a' & E).
    rewrite E. cbn [orelse]. eauto.
Qed.

Lemma run_lit_exact {A} (w rest : string) (k : bool -> string -> option A) :
  w <> EmptyString ->
  forall start, run (lit w) start (w ++ rest) k = k false rest.
Proof.
  induction w as [|c w IH]; intros Hne start; [contradiction | ].
  cbn [lit append run]. rewrite Ascii.eqb_refl.
  destruct w as [|d w']; [reflexivity | ].
  apply IH. discriminate.
Qed.

Lemma run_opt_take {A} (r : re) (start : bool) (s : string)
      (k : bool -> string -> option A) :
  (exists a, run r start s k = Some a) ->
  exists a, run (Opt r) start s k = Some a.
Proof. intros [a E]. cbn [run]. rewrite E. cbn [orelse]. eauto. Qed.

Lemma run_opt_skip {A} (r : re) (start : bool) (s : string)
      (k : bool -> string -> option A) :
  (exists a, k start s = Some a) ->
  exists a, run (Opt r) start s k = Some a.
Proof.
  intros [a E]. cbn [run]. rewrite E.
  destruct (run r start s k); cbn [orelse]; eauto.
Qed.

(** Whitespace and a word, then whatever the continuation takes. *)
Lemma run_ws_then_word {A} (word rest : string)
      (k : bool -> string -> option A) :
  word <> EmptyString ->
  all (fun c => negb (isspace c)) word = true ->
  (exists a, k false rest = Some a) ->
  exists a, run ws_then_word false (String " " (word ++ rest)) k = Some a.
Proof.
  intros Hne Hw [a Hk]. unfold ws_then_word.
  change (run (Seq (Many1 Space) (Many1 NonSpace)) false
              (String " " (word ++ rest)) k)
    with (run (Many1 Space) false (String " " "" ++ (word ++ rest))
              (fun start' s' => run (Many1 NonSpace) start' s' k)).
  destruct (run_many1_word NonSpace word rest k a Hne Hw Hk false) as [a1 E1].
  apply (run_many1_word Space (String " " "") (word ++ rest) _ a1);
    [discriminate | reflexivity | exact E1].
Qed.

(** X26. The whitelist accepts [git fetch] followed by any one word, and
    [git pull] followed by any two words, whatever the words are: options
    and shell metacharacters pass as long as no whitespace is inside a
    word. *)
Theorem whitelist_accepts_any_word (word1 word2 : string) :
  is_word word1 = true -> is_word word2 = true ->
  _is_safe_auto_fix ("git fetch " ++ word1) = true
  /\ _is_safe_auto_fix ("git pull " ++ word1 ++ " " ++ word2) = true.
Proof.
  unfold is_word, truthy. intros H1 H2.
  apply andb_prop in H1 as [N1 W1]. apply andb_prop in H2 as [N2 W2].
  apply negb_true_iff in N1, N2. apply is_empty_false in N1, N2.
  assert (S1 : strip ("git fetch " ++ word1) = "git fetch " ++ word1).
  { unfold strip. change (lstrip ("git fetch " ++ word1)) with ("git fetch " ++ word1).
    now apply rstrip_before_word. }
  assert (S2 : strip ("git pull " ++ word1 ++ " " ++ word2)
               = "git pull " ++ word1 ++ " " ++ word2).
  { unfold strip.
    change (lstrip ("git pull " ++ word1 ++ " " ++ word2))
      with ("git pull " ++ word1 ++ " " ++ word2).
    rewrite <- !sapp_assoc. now apply rstrip_before_word. }
  assert (F : forall word, word <> EmptyString ->
                all (fun c => negb (isspace c)) word = true ->
                exists a, run ws_then_word false (String " " word) at_end = Some a).
  { intros word Hne Hw. rewrite <- (sapp_nil_r word).
    apply run_ws_then_word; auto. exists tt. reflexivity. }
  split.
  - unfold _is_safe_auto_fix. rewrite S1. apply existsb_exists.
    eexists. split; [left; reflexivity | ].
    unfold fullmatch.
    change (run (seqs [Bol; lit "git fetch"; Opt ws_then_word; Eol]) true
                ("git fetch " ++ word1)
                (fun _ rest => if is_empty rest then Some tt else None))
      with (run (lit "git fetch") true ("git fetch" ++ String " " word1)
                (fun start' s' => run (Opt ws_then_word) start' s' at_end)).
    rewrite run_lit_exact by discriminate.
    destruct (run_opt_take ws_then_word false (String " " word1) at_end
                (F word1 N1 W1)) as [a E].
    now rewrite E.
  - unfold _is_safe_auto_fix. rewrite S2. apply existsb_exists.
    eexists. split; [right; left; reflexivity | ].
    unfold fullmatch.
    change (run (seqs [Bol; lit "git pull";
                       Opt (Seq (Many1 Space) (lit "--rebase"));
                       Opt (Seq ws_then_word ws_then_word); Eol]) true
                ("git pull " ++ word1 ++ " " ++ word2)
                (fun _ rest => if is_empty rest then Some tt else None))
      with (run (lit "git pull") true
                ("git pull" ++ String " " (word1 ++ String " " word2))
                (fun start' s' =>
                   run (Opt (Seq (Many1 Space) (lit "--rebase"))) start' s'
                       (fun start2 s2 =>
                          run (Opt (Seq ws_then_word ws_then_word)) start2 s2
                              at_end))).
    rewrite run_lit_exact by discriminate.
    assert (G : exists a,
               run (Opt (Seq ws_then_word ws_then_word)) false
                   (String " " (word1 ++ String " " word2)) at_end = Some a).
    { apply run_opt_take.
      change (run (Seq ws_then_word ws_then_word) false
                  (String " " (word1 ++ String " " word2)) at_end)
        with (run ws_then_word false (String " " (word1 ++ String " " word2))
                  (fun start' s' => run ws_then_word start' s' at_end)).
      apply run_ws_then_word; auto. }
    destruct (run_opt_skip (Seq (Many1 Space) (lit "--rebase")) false
                (String " " (word1 ++ String " " word2))
                (fun start2 s2 =>
                   run (Opt (Seq ws_then_word ws_then_word)) start2 s2 at_end)
                G) as [a E].
    now rewrite E.
Qed.

Lemma whitelist_accepts_any_word_witness :
  _is_safe_auto_fix "git fetch --upload-pack=./x.sh" = true
  /\ _is_safe_auto_fix "git pull --force origin;reboot" = true.
Proof.
  apply (whitelist_accepts_any_word "--upload-pack=./x.sh" "origin;reboot");
    reflexivity.
Defined.

(** ** The language of the patterns *)

Lemma many1_step {A} (cl : cls) (c : ascii) (s : string) (start : bool)
      (k : bool -> string -> option A) :
  run (Many1 cl) start (String c s) k
  = if in_cls cl c then orelse (run (Many1 cl) false s k) (k false s) else None.
Proof. reflexivity. Qed.

Lemma run_many1_inv {A} (cl : cls) (k : bool -> string -> option A) (a : A) :
  forall (s : string) (start : bool),
    run (Many1 cl) start s k = Some a ->
    exists word rest,
      s = word ++ rest /\ word <> EmptyString
      /\ all (in_cls cl) word = true /\ k false rest = Some a.
Proof.
  induction s as [|c s IH]; intros start H; [discriminate | ].
  rewrite many1_step in H.
  destruct (in_cls cl c) eqn:E; [ | discriminate].
  destruct (run (Many1 cl) false s k) as [a0 | ] eqn:G; cbn [orelse] in H.
  - injection H as ->.
    destruct (IH false G) as (word & rest & -> & _ & Hw & Hk).
    exists (String c word), rest. repeat split; [discriminate | | exact Hk].
    simpl. now rewrite E, Hw.
  - exists (String c ""), s. repeat split; [discriminate | | exact H].
    simpl. now rewrite E.
Qed.

Lemma run_consumes {A} (r : re) :
  forall (start : bool) (s : string) (k : bool -> string -> option A) (a : A),
    run r start s k = Some a ->
    exists start' rest, consumes r start s start' rest /\ k start' rest = Some a.
Proof.
  induction r as [ | | | c | cl | r1 IH1 r2 IH2 | r IH]; intros start s k a H.
  - exists start, s. split; [constructor | exact H].
  - cbn [run] in H. destruct start; [ | discriminate].
    exists true, s. split; [constructor | exact H].
  - cbn [run] in H.
    destruct (is_empty s || String.eqb s NL) eqn:E; [ | discriminate].
    exists start, s. split; [ | exact H]. constructor.
    apply orb_prop in E as [E | E].
    + left. now apply is_empty_spec.
    + right. now apply String.eqb_eq.
  - cbn [run] in H. destruct s as [|c' s]; [discriminate | ].
    destruct (Ascii.eqb c c') eqn:E; [ | discriminate].
    apply Ascii.eqb_eq in E. subst c'.
    exists false, s. split; [constructor | exact H].
  - apply run_many1_inv in H as (word & rest & -> & Hne & Hw & Hk).
    exists false, rest. split; [now constructor | exact Hk].
  - cbn [run] in H.
    apply IH1 in H as (start1 & s1 & C1 & H).
    apply IH2 in H as (start2 & s2 & C2 & H).
    exists start2, s2. split; [econstructor; eauto | exact H].
  - cbn [run] in H. destruct (run r start s k) as [a0 | ] eqn:G; cbn [orelse] in H.
    + injection H as ->. apply IH in G as (start' & rest & C & Hk).
      exists start', rest. split; [now apply consumes_opt_some | exact Hk].
    + exists start, s. split; [apply consumes_opt_none | exact H].
Qed.

Lemma consumes_run {A} (r : re) (start : bool) (s : string) (start' : bool)
      (rest : string) :
  consumes r start s start' rest ->
  forall (k : bool -> string -> option A) (a : A),
    k start' rest = Some a -> exists a', run r start s k = Some a'.
Proof.
  induction 1 as [start s | s | start s Hs | c start s | cl start word rest Hne Hw
                  | r1 r2 start s start1 s1 start2 s2 C1 IH1 C2 IH2
                  | r start s start' rest C IH | r start s];
    intros k a Hk.
  - exists a. exact Hk.
  - exists a. exact Hk.
  - exists a. cbn [run]. destruct Hs as [-> | ->]; exact Hk.
  - exists a. cbn [run]. now rewrite Ascii.eqb_refl.
  - exact (run_many1_word cl word rest k a Hne Hw Hk start).
  - destruct (IH2 k a Hk) as [a2 E2].
    exact (IH1 (fun start' s' => run r2 start' s' k) a2 E2).
  - destruct (IH k a Hk) as [a' E]. exists a'. cbn [run]. now rewrite E.
  - cbn [run]. rewrite Hk. destruct (run r start s k); cbn [orelse]; eauto.
Qed.

Lemma fullmatch_consumes (r : re) (s : string) :
  fullmatch r s = true <-> exists start', consumes r true s start' EmptyString.
Proof.
  unfold fullmatch. split.
  - destruct (run r true s _) as [u | ] eqn:E; [ | discriminate]. intros _.
    apply run_consumes in E as (start' & rest & C & Hk).
    destruct rest; [ | discriminate]. now exists start'.
  - intros [start' C].
    destruct (consumes_run (A := unit) r true s start' EmptyString C
                (fun _ rest => if is_empty rest then Some tt else None) tt eq_refl)
      as [a' E].
    now rewrite E.
Qed.

Lemma consumes_lit_inv (w : string) :
  forall start s start' rest, consumes (lit w) start s start' rest -> s = w ++ rest.
Proof.
  induction w as [|c w IH]; intros start s start' rest H; cbn [lit] in H.
  - inversion H; subst. reflexivity.
  - inversion H as [ | | | | | r1 r2 st0 s0 st1 s1 st2 s2 C1 C2 | | ]; subst.
    inversion C1; subst. cbn [append]. f_equal. eapply IH. exact C2.
Qed.

Lemma consumes_lit (w rest : string) :
  w <> EmptyString ->
  forall start, consumes (lit w) start (w ++ rest) false rest.
Proof.
  induction w as [|c w IH]; intros Hne start; [contradiction | ].
  cbn [lit append]. destruct w as [|d w].
  - econstructor; constructor.
  - econstructor; [constructor | apply IH; discriminate].
Qed.

Lemma blank_run (sp : string) :
  is_blank sp = true <-> sp <> EmptyString /\ all (in_cls Space) sp = true.
Proof.
  unfold is_blank, truthy. rewrite andb_true_iff, negb_true_iff, is_empty_false.
  reflexivity.
Qed.

Lemma word_run (word : string) :
  is_word word = true <-> word <> EmptyString /\ all (in_cls NonSpace) word = true.
Proof.
  unfold is_word, truthy. rewrite andb_true_iff, negb_true_iff, is_empty_false.
  reflexivity.
Qed.

(** The end of a pattern: [$] at the end of the text. *)
Lemma consumes_end_inv (start : bool) (s : string) (start' : bool) :
  consumes (Seq Eol Eps) start s start' EmptyString -> s = EmptyString.
Proof.
  intros H. inversion H as [ | | | | | r1 r2 st0 s0 st1 s1 st2 s2 C1 C2 | | ]; subst.
  inversion C1; subst. inversion C2; subst. reflexivity.
Qed.

Lemma consumes_end (start : bool) :
  consumes (Seq Eol Eps) start EmptyString start EmptyString.
Proof. econstructor; [constructor; auto | constructor]. Qed.

Lemma consumes_ws_then_word_inv (start : bool) (s : string) (start' : bool)
      (rest : string) :
  consumes ws_then_word start s start' rest ->
  exists sp word, s = sp ++ word ++ rest /\ is_blank sp = true /\ is_word word = true.
Proof.
  unfold ws_then_word. intros H.
  inversion H as [ | | | | | r1 r2 st0 s0 st1 s1 st2 s2 C1 C2 | | ]; subst.
  inversion C1 as [ | | | | cl st sp r Hne Hw | | | ]; subst.
  inversion C2 as [ | | | | cl st word r Hne' Hw' | | | ]; subst.
  exists sp, word. split; [reflexivity | ].
  split; [now apply blank_run | now apply word_run].
Qed.

Lemma consumes_ws_then_word (start : bool) (sp word rest : string) :
  is_blank sp = true -> is_word word = true ->
  consumes ws_then_word start (sp ++ word ++ rest) false rest.
Proof.
  intros Hs Hw. apply blank_run in Hs as [Hs1 Hs2]. apply word_run in Hw as [Hw1 Hw2].
  unfold ws_then_word. econstructor; constructor; assumption.
Qed.

Ltac split_seq H C1 C2 :=
  inversion H as [ | | | | | ? ? ? ? ? ? ? ? C1 C2 | | ]; subst; clear H.

(** A pattern [^<literal>...] consumes the literal first. *)
Lemma consumes_head_inv (w : string) (r : re) (s : string) (start' : bool)
      (rest : string) :
  consumes (Seq Bol (Seq (lit w) r)) true s start' rest ->
  exists start1 tail, s = w ++ tail /\ consumes r start1 tail start' rest.
Proof.
  intros H. split_seq H Ca Cb. inversion Ca; subst. clear Ca.
  split_seq Cb Ca Cc. apply consumes_lit_inv in Ca. subst. eauto.
Qed.

Lemma consumes_head (w : string) (r : re) (tail : string) (start' : bool)
      (rest : string) :
  w <> EmptyString ->
  consumes r false tail start' rest ->
  consumes (Seq Bol (Seq (lit w) r)) true (w ++ tail) start' rest.
Proof.
  intros Hne H.
  econstructor; [constructor | ].
  econstructor; [now apply consumes_lit | exact H].
Qed.

Lemma consumes_opt_inv (r : re) (start : bool) (s : string) (start' : bool)
      (rest : string) :
  consumes (Opt r) start s start' rest ->
  consumes r start s start' rest \/ (start' = start /\ rest = s).
Proof. intros H. inversion H; subst; auto. Qed.

Lemma fetch_pattern (s : string) :
  fullmatch (seqs [Bol; lit "git fetch"; Opt ws_then_word; Eol]) s = true
  <-> fetch_shape s.
Proof.
  rewrite fullmatch_consumes. cbn [seqs]. split.
  - intros [start' H].
    apply consumes_head_inv in H as (start1 & tail & -> & H).
    split_seq H Ca Cb. apply consumes_end_inv in Cb. subst.
    apply consumes_opt_inv in Ca as [Ca | [_ <-]].
    + apply consumes_ws_then_word_inv in Ca as (sp & word & -> & Hs & Hw).
      rewrite sapp_nil_r. right. now exists sp, word.
    + left. reflexivity.
  - intros [-> | (sp & word & -> & Hs & Hw)].
    + apply fullmatch_consumes. reflexivity.
    + exists false. apply consumes_head; [discriminate | ].
      econstructor; [ | apply consumes_end].
      apply consumes_opt_some.
      rewrite <- (sapp_nil_r word) at 1. now apply consumes_ws_then_word.
Qed.

Lemma pull_pattern (s : string) :
  fullmatch (seqs [Bol; lit "git pull"; Opt (Seq (Many1 Space) (lit "--rebase"));
                   Opt (Seq ws_then_word ws_then_word); Eol]) s = true
  <-> pull_shape s.
Proof.
  rewrite fullmatch_consumes. cbn [seqs]. split.
  - intros [start' H].
    apply consumes_head_inv in H as (start1 & tail & -> & H).
    split_seq H Ca Cb. split_seq Cb Cc Cd. apply consumes_end_inv in Cd. subst.
    assert (R : exists rebase,
               tail = rebase ++ s1
               /\ (rebase = EmptyString
                   \/ exists sp, rebase = sp ++ "--rebase" /\ is_blank sp = true)).
    { apply consumes_opt_inv in Ca as [Ca | [_ <-]].
      - split_seq Ca Ce Cf. apply (consumes_lit_inv "--rebase") in Cf. subst.
        inversion Ce as [ | | | | cl st sp r Hne Hw | | | ]; subst.
        exists (sp ++ "--rebase"). split; [now rewrite sapp_assoc | ].
        right. exists sp. split; [reflexivity | now apply blank_run].
      - exists EmptyString. auto. }
    destruct R as (rebase & -> & R).
    exists rebase, s1. split; [reflexivity | split; [exact R | ]].
    apply consumes_opt_inv in Cc as [Cc | [_ <-]]; [ | now left].
    split_seq Cc Ce Cf.
    apply consumes_ws_then_word_inv in Ce as (sp1 & w1 & -> & Hs1 & Hw1).
    apply consumes_ws_then_word_inv in Cf as (sp2 & w2 & -> & Hs2 & Hw2).
    right. exists sp1, w1, sp2, w2. rewrite sapp_nil_r. auto.
  - intros (rebase & words & -> & R & W).
    exists false. apply consumes_head; [discriminate | ].
    assert (E : consumes (Opt (Seq (Many1 Space) (lit "--rebase")))
                         false (rebase ++ words) false words).
    { destruct R as [-> | (sp & -> & Hs)].
      - apply consumes_opt_none.
      - apply consumes_opt_some. rewrite sapp_assoc.
        apply blank_run in Hs as [Hs1 Hs2].
        econstructor; [now constructor | now apply consumes_lit]. }
    econstructor; [exact E | ].
    destruct W as [-> | (sp1 & w1 & sp2 & w2 & -> & Hs1 & Hw1 & Hs2 & Hw2)].
    + econstructor; [apply consumes_opt_none | apply consumes_end].
    + econstructor; [ | apply consumes_end].
      apply consumes_opt_some. econstructor.
      * now apply consumes_ws_then_word.
      * rewrite <- (sapp_nil_r w2) at 1. now apply consumes_ws_then_word.
Qed.

Lemma stash_pattern (s : string) :
  fullmatch (seqs [Bol; lit "git stash"; Opt (lit " pop"); Eol]) s = true
  <-> s = "git stash" \/ s = "git stash pop".
Proof.
  rewrite fullmatch_consumes. cbn [seqs]. split.
  - intros [start' H].
    apply consumes_head_inv in H as (start1 & tail & -> & H).
    split_seq H Ca Cb. apply consumes_end_inv in Cb. subst.
    apply consumes_opt_inv in Ca as [Ca | [_ <-]].
    + apply (consumes_lit_inv " pop") in Ca. subst. now right.
    + now left.
  - intros [-> | ->]; apply fullmatch_consumes; reflexivity.
Qed.

Lemma literal_pattern (w s : string) :
  fullmatch (seqs [Bol; lit w; Eol]) s = true -> s = w.
Proof.
  rewrite fullmatch_consumes. cbn [seqs].
  intros [start' H].
  apply consumes_head_inv in H as (start1 & tail & -> & H).
  apply consumes_end_inv in H. subst. apply sapp_nil_r.
Qed.

(** X27. The whitelist accepts a command exactly when its trimmed text is
    one of the eight fixed commands, or [git fetch] alone or followed by
    whitespace and one word, or [git pull] followed by an optional
    whitespace and [--rebase] and then an optional whitespace, word,
    whitespace, word. *)
Theorem whitelist_language (cmd : string) :
  _is_safe_auto_fix cmd = true <-> safe_command (strip cmd).
Proof.
  unfold _is_safe_auto_fix, safe_command. split.
  - rewrite existsb_exists.
    intros (pattern & Hin & Hm). unfold _SAFE_AUTO_FIX_PATTERNS in Hin.
    destruct Hin as [<- | [<- | [<- | Hin]]].
    + left. now apply fetch_pattern.
    + right. left. now apply pull_pattern.
    + right. right. apply stash_pattern in Hm as [-> | ->]; simpl; auto.
    + right. right.
      repeat (destruct Hin as [<- | Hin];
              [apply literal_pattern in Hm; rewrite Hm; simpl; tauto | ]).
      contradiction.
  - intros [H | [H | H]].
    + apply existsb_exists.
      eexists. split; [left; reflexivity | now apply fetch_pattern].
    + apply existsb_exists.
      eexists. split; [right; left; reflexivity | now apply pull_pattern].
    + unfold fixed_commands in H.
      repeat (destruct H as [<- | H]; [reflexivity | ]).
      contradiction.
Qed.
